(** * Fortran call-graph tools: a shallow embedding and its properties

    The development follows the Python sources:
    - [adjacency_matrix.py]  (scanner and call-graph assembler),
    - [check_object.py]      (routine inventory),
    - [sort_matrix.py]       (connectivity reordering),
    - [main.py]              (report composer),
    - [format_indent.py]     (indentation formatter).

    Text is modelled as [string] over 8-bit characters; the character
    classes below are those of Python's [re] on ASCII text (a character
    above 127 is taken to be neither a word character nor white space). *)

From Stdlib Require Import List String Ascii ZArith Bool Arith Lia.
From Stdlib Require Import Permutation Sorted.
Import ListNotations.
Open Scope string_scope.
Open Scope list_scope.
Open Scope nat_scope.

(* ================================================================= *)
(** ** Characters and strings *)

Module Text.

(** [\s] of a [str] pattern, restricted to ASCII: TAB, LF, VT, FF, CR,
    FS, GS, RS, US and the space. *)
Definition is_space (c : ascii) : bool :=
  let n := nat_of_ascii c in
  ((9 <=? n) && (n <=? 13)) || ((28 <=? n) && (n <=? 32)).

Definition is_upper (c : ascii) : bool :=
  let n := nat_of_ascii c in (65 <=? n) && (n <=? 90).

(** [\w]: letters, digits and the underscore. *)
Definition is_word (c : ascii) : bool :=
  let n := nat_of_ascii c in
  ((48 <=? n) && (n <=? 57)) || ((65 <=? n) && (n <=? 90))
  || ((97 <=? n) && (n <=? 122)) || (n =? 95).

(** [\W]. *)
Definition is_nonword (c : ascii) : bool := negb (is_word c).

Definition lower_char (c : ascii) : ascii :=
  if is_upper c then ascii_of_nat (nat_of_ascii c + 32) else c.

(** [str.lower()]. *)
Fixpoint lower (s : string) : string :=
  match s with
  | EmptyString => EmptyString
  | String c s' => String (lower_char c) (lower s')
  end.

(** [str.endswith(suffix)]. *)
Definition endswith (s suffix : string) : bool :=
  let n := String.length s in
  let k := String.length suffix in
  (k <=? n) && String.eqb (substring (n - k) k s) suffix.

(** [c in s]. *)
Fixpoint contains (c : ascii) (s : string) : bool :=
  match s with
  | EmptyString => false
  | String a s' => Ascii.eqb a c || contains c s'
  end.

(** Line boundaries of [str.splitlines()] in the ASCII range:
    LF, VT, FF, CR, FS, GS, RS. *)
Definition is_linebreak (c : ascii) : bool :=
  let n := nat_of_ascii c in
  ((10 <=? n) && (n <=? 13)) || ((28 <=? n) && (n <=? 30)).

(** [splitlines_aux cur pending s]: [cur] is the line being read and
    [pending] tells whether it has received a character.  A CR LF pair
    is one boundary; a final boundary opens no empty line. *)
Fixpoint splitlines_aux (cur : string) (pending : bool) (s : string)
  : list string :=
  match s with
  | EmptyString => if pending then [cur] else []
  | String c s' =>
      if is_linebreak c then
        cur :: match s' with
               | String d s'' =>
                   if (Ascii.eqb c "013" && Ascii.eqb d "010")%bool
                   then splitlines_aux "" false s''
                   else splitlines_aux "" false s'
               | EmptyString => splitlines_aux "" false s'
               end
      else splitlines_aux (cur ++ String c "")%string true s'
  end.

(** [str.splitlines()]. *)
Definition splitlines (s : string) : list string :=
  splitlines_aux "" false s.

End Text.

(* ================================================================= *)
(** ** Regular expressions

    A pattern is a backtracking matcher: from a position it returns
    every way to match, in the order in which Python's engine tries
    them, so the head of the list is the match [re] reports.  A position
    is the text still to read together with the character just before
    it (for the look-behind) and the groups captured so far. *)

Module Regex.
Import Text.

Record state : Type := mkState
  { prev : option ascii; rest : string; groups : list string }.

Definition matcher : Type := state -> list state.

(** Concatenation, alternation [a|b], option [a?]. *)
Definition re_seq (m1 m2 : matcher) : matcher :=
  fun st => flat_map m2 (m1 st).
Definition re_alt (m1 m2 : matcher) : matcher :=
  fun st => m1 st ++ m2 st.
Definition re_opt (m : matcher) : matcher :=
  fun st => m st ++ [st].

(** [^] (no MULTILINE flag: the start of the text only). *)
Definition re_bol : matcher :=
  fun st => match prev st with None => [st] | Some _ => [] end.

(** [(?<=c)] for a character class [c]. *)
Definition re_lookbehind (p : ascii -> bool) : matcher :=
  fun st => match prev st with
            | Some c => if p c then [st] else []
            | None => []
            end.

(** A literal word under IGNORECASE. *)
Fixpoint lit_from (w : string) (pv : option ascii) (s : string)
  : option (option ascii * string) :=
  match w with
  | EmptyString => Some (pv, s)
  | String a w' =>
      match s with
      | String c s' =>
          if Ascii.eqb (lower_char a) (lower_char c)
          then lit_from w' (Some c) s' else None
      | EmptyString => None
      end
  end.

Definition re_lit (w : string) : matcher :=
  fun st => match lit_from w (prev st) (rest st) with
            | Some (pv, s) => [mkState pv s (groups st)]
            | None => []
            end.

(** Greedy [c*] for a character class: the longest run first, then each
    shorter one down to the empty run. *)
Fixpoint star_from (p : ascii -> bool) (pv : option ascii) (s : string)
  : list (option ascii * string) :=
  match s with
  | String c s' =>
      if p c then star_from p (Some c) s' ++ [(pv, s)] else [(pv, s)]
  | EmptyString => [(pv, s)]
  end.

Definition re_star (p : ascii -> bool) : matcher :=
  fun st => map (fun r => mkState (fst r) (snd r) (groups st))
                (star_from p (prev st) (rest st)).

(** Greedy [c+]. *)
Definition re_plus (p : ascii -> bool) : matcher :=
  fun st => match rest st with
            | String c s' =>
                if p c then re_star p (mkState (Some c) s' (groups st))
                else []
            | EmptyString => []
            end.

(** A capturing group [(m)] (the patterns below nest no groups). *)
Definition re_group (m : matcher) : matcher :=
  fun st =>
    map (fun st' =>
           let n := String.length (rest st) - String.length (rest st') in
           mkState (prev st') (rest st')
                   (groups st' ++ [substring 0 n (rest st)]))
        (m st).

Declare Scope re_scope.
Delimit Scope re_scope with re.
Notation "a ;; b" := (re_seq a b) (at level 61, right associativity)
  : re_scope.

(** The first match from a position: its groups and its length. *)
Definition match_at (m : matcher) (pv : option ascii) (s : string)
  : option (list string * nat) :=
  match m (mkState pv s []) with
  | st :: _ => Some (groups st, String.length s - String.length (rest st))
  | [] => None
  end.

(** [pattern.match(line)]: the groups of the match at the start. *)
Definition re_match (m : matcher) (line : string) : option (list string) :=
  option_map fst (match_at m None line).

(** [m.group(i)], [i >= 1]. *)
Definition group (i : nat) (gs : list string) : string :=
  nth (i - 1) gs "".

(** The scan of [findall] and [sub]: leftmost match, then on from its
    end; [skip] counts the characters of the current match still to
    pass.  (Every pattern of this program consumes a character.) *)
Fixpoint findall_from (m : matcher) (pv : option ascii) (s : string)
  (skip : nat) : list (list string) :=
  match s with
  | EmptyString => []
  | String c s' =>
      match skip with
      | S k => findall_from m (Some c) s' k
      | O =>
          match match_at m pv s with
          | Some (gs, n) => gs :: findall_from m (Some c) s' (n - 1)
          | None => findall_from m (Some c) s' 0
          end
      end
  end.

(** [pattern.findall(line)] for a pattern with one group. *)
Definition findall (m : matcher) (line : string) : list string :=
  map (group 1) (findall_from m None line 0).

Fixpoint sub_from (m : matcher) (pv : option ascii) (s : string)
  (skip : nat) : string :=
  match s with
  | EmptyString => EmptyString
  | String c s' =>
      match skip with
      | S k => sub_from m (Some c) s' k
      | O =>
          match match_at m pv s with
          | Some (_, S n) => sub_from m (Some c) s' n
          | _ => String c (sub_from m (Some c) s' 0)
          end
      end
  end.

(** [re.sub(pattern, '', content)]. *)
Definition sub_empty (m : matcher) (content : string) : string :=
  sub_from m None content 0.

(** *** Predicates on matchers *)

(** [suffix s' s]: [s'] is what is left of [s] after some prefix. *)
Definition suffix (s' s : string) : Prop := exists p, s = (p ++ s')%string.

(** A matcher is tame when it only moves forward and captures
    nothing. *)
Definition tame (m : matcher) : Prop :=
  forall st st', In st' (m st) ->
                 suffix (rest st') (rest st) /\ groups st' = groups st.

End Regex.

(* ================================================================= *)
(** ** Python dictionaries

    A [dict] keeps its keys in insertion order; assigning to a key
    that is present replaces the value in place. *)

Module Dict.

Definition dict (V : Type) : Type := list (string * V).

Fixpoint get {V} (k : string) (d : dict V) : option V :=
  match d with
  | [] => None
  | (k', v) :: d' => if String.eqb k' k then Some v else get k d'
  end.

(** [d[k] = v]. *)
Fixpoint set {V} (k : string) (v : V) (d : dict V) : dict V :=
  match d with
  | [] => [(k, v)]
  | (k', v') :: d' =>
      if String.eqb k' k then (k', v) :: d' else (k', v') :: set k v d'
  end.

(** In-place update of the value stored at a key that is present
    (as [d[k].append(x)] does; on an absent key Python raises
    [KeyError], here the dictionary is left as it is). *)
Fixpoint update {V} (k : string) (f : V -> V) (d : dict V) : dict V :=
  match d with
  | [] => []
  | (k', v') :: d' =>
      if String.eqb k' k then (k', f v') :: d' else (k', v') :: update k f d'
  end.

Definition keys {V} (d : dict V) : list string := map fst d.

End Dict.

(* ================================================================= *)
(** ** Outcomes of a run

    A function of the program either returns a value, having printed
    some lines, or stops on an exception nothing catches.  A
    [ValueError] carries the fixed text its message starts with (to
    [columns overlap but no suffix specified] pandas appends the names
    concerned). *)

Inductive exn : Type :=
| FileNotFoundError
| ValueError (msg : string).

Inductive outcome (A : Type) : Type :=
| Returned (printed : list string) (a : A)
| Raised (e : exn).
Arguments Returned {A} printed a.
Arguments Raised {A} e.

(** A directory as [os.listdir] and [open(..).read()] show it: the entry
    names with the text of each file (every entry a readable text
    file); [None] when the path does not exist. *)
Definition listing : Type := list (string * string).
Definition directory : Type := option listing.

Module Source.
Import Text Regex.

(** [&\s*\n\s*] *)
Definition continuation : matcher :=
  (re_lit "&" ;; re_star is_space ;; re_lit (String "010" "") ;;
   re_star is_space)%re.

(** [content = re.sub(r'&\s*\n\s*', '', content)] joins continued
    lines; [content.splitlines()] gives the logical lines. *)
Definition logical_lines (content : string) : list string :=
  splitlines (sub_empty continuation content).

End Source.

(* ================================================================= *)
(** ** adjacency_matrix.py: the scanner *)

Module Scanner.
Import Text Regex Source.

(** [^\s*(?:recursive\s+)?(?:subroutine|function)\s+(\w+)] *)
Definition routine_start : matcher :=
  (re_bol ;; re_star is_space ;;
   re_opt (re_lit "recursive" ;; re_plus is_space) ;;
   re_alt (re_lit "subroutine") (re_lit "function") ;;
   re_plus is_space ;; re_group (re_plus is_word))%re.

(** [^\s*end\s+(?:subroutine|function)] *)
Definition routine_end : matcher :=
  (re_bol ;; re_star is_space ;; re_lit "end" ;; re_plus is_space ;;
   re_alt (re_lit "subroutine") (re_lit "function"))%re.

(** [(?:call\s+|(?<=\W))(\w+)\s*\(] *)
Definition call_pattern : matcher :=
  (re_alt (re_lit "call" ;; re_plus is_space) (re_lookbehind is_nonword) ;;
   re_group (re_plus is_word) ;; re_star is_space ;; re_lit "(")%re.

(** [all_routines]: routine name to the list of its raw callees. *)
Definition routines : Type := Dict.dict (list string).

(** Truth value of [current_routine]: [None] and [''] are false. *)
Definition truthy (current_routine : option string) : option string :=
  match current_routine with
  | Some EmptyString => None
  | other => other
  end.

(** The inner loop over [found_calls]. *)
Definition record_calls (current_routine : string) (found_calls : list string)
  (all_routines : routines) : routines :=
  fold_left
    (fun d call =>
       let call := lower call in
       if String.eqb call current_routine then d
       else Dict.update current_routine (fun l => l ++ [call]) d)
    found_calls all_routines.

(** The body of [for line in lines]. *)
Definition scan_line (st : routines * option string) (line : string)
  : routines * option string :=
  let '(all_routines, current_routine) := st in
  let '(all_routines, current_routine) :=
    match re_match routine_start line with
    | Some gs =>
        let name := lower (group 1 gs) in
        (Dict.set name [] all_routines, Some name)
    | None =>
        match re_match routine_end line with
        | Some _ => (all_routines, None)
        | None => (all_routines, current_routine)
        end
    end in
  match truthy current_routine with
  | Some name =>
      (record_calls name (findall call_pattern line) all_routines,
       current_routine)
  | None => (all_routines, current_routine)
  end.

(** One file: [current_routine] starts as [None]. *)
Definition scan_lines (all_routines : routines) (lines : list string)
  : routines :=
  fst (fold_left scan_line lines (all_routines, None)).

Definition scan_file (all_routines : routines) (content : string)
  : routines :=
  scan_lines all_routines (logical_lines content).

(** The loop over [os.listdir(directory)]: files named [*.f90] only. *)
Definition scan_listing (files : listing) : routines :=
  fold_left
    (fun d file =>
       if endswith (fst file) ".f90" then scan_file d (snd file) else d)
    files [].

(** *** Predicates on the mapping *)

(** The calls of a line that [record_calls] keeps. *)
Definition kept_calls (name : string) (found_calls : list string)
  : list string :=
  filter (fun c => negb (String.eqb c name)) (map lower found_calls).

(** The keys are distinct and no routine is in its own list. *)
Definition no_self (d : routines) : Prop :=
  NoDup (Dict.keys d) /\
  forall name callees, Dict.get name d = Some callees -> ~ In name callees.

End Scanner.

(* ================================================================= *)
(** ** Stable sorting by insertion *)

Section Insertion.
Context {A : Type}.
Variable leb : A -> A -> bool.

(** [insert x l] puts [x] in front of the first element it is below
    or equal to: an element that came first stays first among its
    equals. *)
Fixpoint insert (x : A) (l : list A) : list A :=
  match l with
  | [] => [x]
  | y :: l' => if leb x y then x :: l else y :: insert x l'
  end.

Definition isort (l : list A) : list A := fold_right insert [] l.
End Insertion.

(** [sorted(names)] on strings: ascending by code point; on distinct
    names the result does not depend on the algorithm. *)
Definition sorted (names : list string) : list string :=
  isort String.leb names.

(* ================================================================= *)
(** ** pandas frames and series, as far as the program uses them *)

Module Frame.

(** A [DataFrame] of integers: row labels, column labels, and the rows
    of cells.  (The cells are 64-bit in pandas; the sums of a 0/1 matrix
    stay far below that bound, so they are taken in [Z].) *)
Record DataFrame : Type := mkFrame
  { index : list string; columns : list string; values : list (list Z) }.

(** A [Series] of integers: labels with their values, in order. *)
Definition Series : Type := list (string * Z).

(** [pd.DataFrame(0, index=rows, columns=cols)] *)
Definition zeros (rows cols : list string) : DataFrame :=
  mkFrame rows cols
          (repeat (repeat 0%Z (List.length cols)) (List.length rows)).

(** Shape of a frame with distinct labels on both axes. *)
Definition wf (df : DataFrame) : Prop :=
  NoDup (index df) /\ NoDup (columns df) /\
  List.length (values df) = List.length (index df) /\
  Forall (fun row => List.length row = List.length (columns df)) (values df).

(** Positions of a label on an axis. *)
Fixpoint positions_from (i : nat) (label : string) (axis : list string)
  : list nat :=
  match axis with
  | [] => []
  | a :: axis' =>
      if String.eqb a label then i :: positions_from (S i) label axis'
      else positions_from (S i) label axis'
  end.

Definition positions (label : string) (axis : list string) : list nat :=
  positions_from 0 label axis.

(** The positions selected by a list of labels, label after label.  (A
    label that is absent raises [KeyError] in pandas; the program only
    selects labels taken from the frame itself.) *)
Definition get_indexer (labels axis : list string) : list nat :=
  flat_map (fun label => positions label axis) labels.

Definition take {A} (d : A) (ix : list nat) (l : list A) : list A :=
  map (fun i => nth i l d) ix.

(** [df.loc[labels]]: rows by label. *)
Definition loc_rows (df : DataFrame) (labels : list string) : DataFrame :=
  let ix := get_indexer labels (index df) in
  mkFrame (take "" ix (index df)) (columns df) (take [] ix (values df)).

(** [df[labels]]: columns by label. *)
Definition getitem_cols (df : DataFrame) (labels : list string)
  : DataFrame :=
  let ix := get_indexer labels (columns df) in
  mkFrame (index df) (take "" ix (columns df))
          (map (take 0%Z ix) (values df)).

Definition sum_list (l : list Z) : Z := fold_right Z.add 0%Z l.

(** [df.sum(axis=1)]: the sum of each row, labelled by the index. *)
Definition sum_axis1 (df : DataFrame) : Series :=
  combine (index df) (map sum_list (values df)).

Definition column (j : nat) (rows : list (list Z)) : list Z :=
  map (fun row => nth j row 0%Z) rows.

(** [df.sum(axis=0)]: the sum of each column, labelled by the columns. *)
Definition sum_axis0 (df : DataFrame) : Series :=
  combine (columns df)
          (map (fun j => sum_list (column j (values df)))
               (seq 0 (List.length (columns df)))).

(** First position of a label on an axis. *)
Fixpoint index_of (label : string) (axis : list string) : option nat :=
  match axis with
  | [] => None
  | a :: axis' =>
      if String.eqb a label then Some 0
      else option_map S (index_of label axis')
  end.

(** [df.at[r, c]] read. *)
Definition at_ (df : DataFrame) (r c : string) : option Z :=
  match index_of r (index df), index_of c (columns df) with
  | Some i, Some j => nth_error (nth i (values df) []) j
  | _, _ => None
  end.

Fixpoint update_nth {A} (i : nat) (f : A -> A) (l : list A) : list A :=
  match l, i with
  | [], _ => []
  | x :: l', O => f x :: l'
  | x :: l', S i' => x :: update_nth i' f l'
  end.

(** [df.at[r, c] = v] on labels that are present (on a new label
    pandas enlarges the frame; the program never does so). *)
Definition set_at (df : DataFrame) (r c : string) (v : Z) : DataFrame :=
  match index_of r (index df), index_of c (columns df) with
  | Some i, Some j =>
      mkFrame (index df) (columns df)
              (update_nth i (update_nth j (fun _ => v)) (values df))
  | _, _ => df
  end.

(** A frame whose cells fill the grid its labels span. *)
Definition shaped (M : DataFrame) : Prop :=
  List.length (values M) = List.length (index M) /\
  Forall (fun row => List.length row = List.length (columns M)) (values M).

End Frame.

(* ================================================================= *)
(** ** adjacency_matrix.py: the assembler *)

Module Assembler.
Import Frame Scanner.

(** [universe = sorted(list(all_routines.keys()))] *)
Definition universe (all_routines : routines) : list string :=
  sorted (Dict.keys all_routines).

(** The two loops that fill the matrix. *)
Definition fill_caller (universe : list string) (caller : string)
  (callees : list string) (matrix : DataFrame) : DataFrame :=
  fold_left
    (fun m callee =>
       if existsb (String.eqb callee) universe then set_at m callee caller 1%Z
       else m)
    callees matrix.

Definition fill (universe : list string) (all_routines : routines)
  (matrix : DataFrame) : DataFrame :=
  fold_left (fun m item => fill_caller universe (fst item) (snd item) m)
            all_routines matrix.

Definition assemble (all_routines : routines) : DataFrame :=
  let universe := universe all_routines in
  fill universe all_routines (zeros universe universe).

(** [generate_fortran_matrix(directory)]: [os.listdir] raises when the
    path does not exist, and nothing catches it. *)
Definition generate_fortran_matrix (dir : directory) : outcome DataFrame :=
  match dir with
  | None => Raised FileNotFoundError
  | Some files => Returned [] (assemble (scan_listing files))
  end.

(** *** Predicates on the matrix *)

(** [records_call d callee caller]: some entry of [caller] lists
    [callee]. *)
Definition records_call (d : routines) (callee caller : string) : bool :=
  existsb (fun item => String.eqb (fst item) caller
                       && existsb (String.eqb callee) (snd item)) d.

(** A frame on the axes [U] by [U]. *)
Definition framed (U : list string) (M : DataFrame) : Prop :=
  shaped M /\ index M = U /\ columns M = U.

End Assembler.

(* ================================================================= *)
(** ** sort_matrix.py: reordering by connectivity *)

Module Reorder.
Import Frame.

(** The program sorts with [Series.sort_values(ascending=False)] and
    passes no [kind]: the algorithm is the library's default, which
    pandas names ['quicksort'] and documents as not stable.  The sort is
    therefore a parameter here, bound only by what [sort_values]
    promises whatever its [kind]: the same entries, values from largest
    to smallest. *)
Definition descending (s : Series) : Prop :=
  Sorted (fun a b => (snd b <= snd a)%Z) s.

Record sort_contract (sort_values : Series -> Series) : Prop :=
  { sort_perm : forall s, Permutation (sort_values s) s;
    sort_desc : forall s, descending (sort_values s) }.

Definition has_value (v : Z) (e : string * Z) : bool := Z.eqb (snd e) v.

(** A sort is stable when it keeps, for every value, the entries of
    that value in the order it received them. *)
Definition stable (sort_values : Series -> Series) : Prop :=
  forall s v, filter (has_value v) (sort_values s) = filter (has_value v) s.

Section WithSort.
Variable sort_values : Series -> Series.

(** [reorder_by_sum(input_file)] on a frame, the branch [main] takes
    (a path is first loaded with [read_csv]). *)
Definition reorder_by_sum (df : DataFrame) : DataFrame :=
  let row_sums := sum_axis1 df in
  let new_row_order := map fst (sort_values row_sums) in
  let df := loc_rows df new_row_order in
  let col_sums := sum_axis0 df in
  let new_col_order := map fst (sort_values col_sums) in
  getitem_cols df new_col_order.

(** The row order of [reorder_by_sum], and the frame after its first
    phase. *)
Definition new_row_order (df : DataFrame) : list string :=
  map fst (sort_values (sum_axis1 df)).
Definition rows_sorted (df : DataFrame) : DataFrame :=
  loc_rows df (new_row_order df).

(** Following the specification's words, for comparison with
    [reorder_by_sum]: both sums are taken on the matrix as given, and
    the two orders applied afterwards. *)
Definition reorder_independent (df : DataFrame) : DataFrame :=
  let new_row_order := map fst (sort_values (sum_axis1 df)) in
  let new_col_order := map fst (sort_values (sum_axis0 df)) in
  getitem_cols (loc_rows df new_row_order) new_col_order.

(** The same, columns first. *)
Definition reorder_independent' (df : DataFrame) : DataFrame :=
  let new_row_order := map fst (sort_values (sum_axis1 df)) in
  let new_col_order := map fst (sort_values (sum_axis0 df)) in
  loc_rows (getitem_cols df new_col_order) new_row_order.
End WithSort.

Definition geb_value (a b : string * Z) : bool := (snd b <=? snd a)%Z.

(** A stable descending sort (what [kind='stable'] would give). *)
Definition sort_values_stable (s : Series) : Series := isort geb_value s.

(** [a] comes before [b] in [l]. *)
Definition before {A} (a b : A) (l : list A) : Prop :=
  exists l1 l2 l3, l = l1 ++ a :: l2 ++ b :: l3.

End Reorder.

(* ================================================================= *)
(** ** check_object.py: the routine inventory *)

Module Inventory.
Import Text Regex Source.

Record InventoryRecord : Type := mkRecord
  { obj_name : string; module_name : string; type_ : string }.

(** [^\s*module\s+(\w+)] *)
Definition module_pattern : matcher :=
  (re_bol ;; re_star is_space ;; re_lit "module" ;; re_plus is_space ;;
   re_group (re_plus is_word))%re.

(** [^\s*(?:recursive\s+)?(subroutine|function)\s+(\w+)] *)
Definition routine_pattern : matcher :=
  (re_bol ;; re_star is_space ;;
   re_opt (re_lit "recursive" ;; re_plus is_space) ;;
   re_group (re_alt (re_lit "subroutine") (re_lit "function")) ;;
   re_plus is_space ;; re_group (re_plus is_word))%re.

(** The body of [for line in lines]. *)
Definition inventory_line (st : list InventoryRecord * string) (line : string)
  : list InventoryRecord * string :=
  let '(inventory, current_module) := st in
  let current_module :=
    match re_match module_pattern line with
    | Some gs => lower (group 1 gs)
    | None => current_module
    end in
  match re_match routine_pattern line with
  | Some gs =>
      let rtype := lower (group 1 gs) in
      let rname := lower (group 2 gs) in
      (inventory ++ [mkRecord rname current_module rtype], current_module)
  | None => (inventory, current_module)
  end.

(** One file: [current_module] starts as ["External"]. *)
Definition inventory_file (inventory : list InventoryRecord)
  (content : string) : list InventoryRecord :=
  fst (fold_left inventory_line (logical_lines content)
                 (inventory, "External")).

(** [filename.endswith((".f90", ".F90", ".f95"))] *)
Definition is_fortran_file (filename : string) : bool :=
  endswith filename ".f90" || endswith filename ".F90"
  || endswith filename ".f95".

Definition inventory_listing (files : listing) : list InventoryRecord :=
  fold_left
    (fun inv file =>
       if is_fortran_file (fst file) then inventory_file inv (snd file)
       else inv)
    files [].

(** [scan_fortran_directory(directory)]; the frame it returns is given
    by its records, [pd.DataFrame()] being the empty list. *)
Definition scan_fortran_directory (path : string) (dir : directory)
  : outcome (list InventoryRecord) :=
  match dir with
  | None =>
      Returned [("Error: Directory '" ++ path ++ "' does not exist.")%string]
               []
  | Some files => Returned [] (inventory_listing files)
  end.

End Inventory.

(* ================================================================= *)
(** ** main.py: the report composer *)

Module Report.
Import Frame Inventory.

(** A row of the extended matrix: routine, module and type from the
    inventory ([None] is pandas' missing value), then the cells. *)
Record ExtendedRow : Type := mkRow
  { routine : string;
    row_module : option string;
    row_type : option string;
    cells : list Z }.

Record Extended : Type := mkExtended
  { header : list string; rows : list ExtendedRow }.

(** [sorted_matrix.insert(0, 'total_connectivity', connectivity)] with
    [connectivity = sorted_matrix.sum(axis=1)]. *)
Definition insert_connectivity (sorted_matrix : DataFrame)
  : outcome DataFrame :=
  if existsb (String.eqb "total_connectivity") (columns sorted_matrix)
  then Raised (ValueError "cannot insert total_connectivity, already exists")
  else Returned ["Append adjacency matrix with connectivity"]
         (mkFrame (index sorted_matrix)
                  ("total_connectivity" :: columns sorted_matrix)
                  (map (fun row => sum_list row :: row)
                       (values sorted_matrix))).

(** [sorted_matrix.join(module_info, how='left')] on one row: one line
    per inventory record of that name, or one line of missing values. *)
Definition join_row (inventory_df : list InventoryRecord)
  (label : string) (row : list Z) : list ExtendedRow :=
  match filter (fun r => String.eqb (obj_name r) label) inventory_df with
  | [] => [mkRow label None None row]
  | found =>
      map (fun r => mkRow label (Some (module_name r)) (Some (type_ r)) row)
          found
  end.

(** [reset_index()] on a frame whose index has no name: the row labels
    become a first column named [index], or [level_0] when a column
    [index] is there already; it is put in with [insert], which raises
    when a column of that name exists. *)
Definition reset_index_name (columns : list string) : outcome string :=
  if existsb (String.eqb "index") columns then
    if existsb (String.eqb "level_0") columns
    then Raised (ValueError "cannot insert level_0, already exists")
    else Returned [] "level_0"
  else Returned [] "index".

(** Lines 63 to 75 of [main]: the join, [reset_index], the two columns
    moved to the front, the file written.  The join raises when a
    column of the matrix bears the name of a column it adds; the frame
    it returns has the columns of the matrix, then [module_name] and
    [type]. *)
Definition annotate (output_matrix : string) (sorted_matrix : DataFrame)
  (inventory_df : list InventoryRecord) : outcome (option Extended) :=
  match inventory_df with
  | [] => Returned [] None
  | _ =>
      if existsb (fun c => String.eqb c "module_name" || String.eqb c "type")
                 (columns sorted_matrix)
      then Raised (ValueError "columns overlap but no suffix specified")
      else
        match reset_index_name
                (columns sorted_matrix ++ ["module_name"; "type"]) with
        | Raised e => Raised e
        | Returned _ name =>
            Returned
              [("Extended adjacency matrix with module info saved to extended_"
                ++ output_matrix)%string]
              (Some (mkExtended
                       (name :: "module_name" :: "type"
                             :: columns sorted_matrix)
                       (flat_map
                          (fun r => join_row inventory_df (fst r) (snd r))
                          (combine (index sorted_matrix)
                                   (values sorted_matrix)))))
        end
  end.

End Report.

(* ================================================================= *)
(** ** main.py: the run *)

Module Main.
Import Frame Assembler Reorder Inventory Report.

(** Sequencing: an exception ends the run, printed lines add up. *)
Definition bind {A B} (m : outcome A) (k : A -> outcome B) : outcome B :=
  match m with
  | Raised e => Raised e
  | Returned printed a =>
      match k a with
      | Raised e => Raised e
      | Returned printed' b => Returned (printed ++ printed') b
      end
  end.

Notation "'let*' x ':=' m 'in' k" := (bind m (fun x => k))
  (at level 10, x name, m at level 100, k at level 200).

Definition print (line : string) : outcome unit := Returned [line] tt.
Definition pass : outcome unit := Returned [] tt.

(** The parsed command line.  ([--no-matrix] is a [store_true] flag
    whose default is [True], so [no_matrix] is true in every run.) *)
Record Args : Type := mkArgs
  { dir : string;
    output_matrix : string;
    output_inventory : string;
    no_inventory : bool;
    no_matrix : bool }.

(** What a run computes and hands to [to_csv]. *)
Record Artifacts : Type := mkArtifacts
  { sorted_matrix : DataFrame;
    inventory_df : list InventoryRecord;
    extended_matrix : option Extended }.

Section WithSort.
Variable sort_values : Series -> Series.

(** [main()], on the directory that [args.dir] names. *)
Definition main (args : Args) (files : directory) : outcome Artifacts :=
  let* matrix := generate_fortran_matrix files in
  let* sorted_matrix :=
    insert_connectivity (reorder_by_sum sort_values matrix) in
  let* _ :=
    if no_matrix args then pass
    else print ("Adjacency matrix saved to " ++ output_matrix args)%string in
  let* inventory_df := scan_fortran_directory (dir args) files in
  let* _ :=
    match inventory_df with
    | [] => print "No routines found for inventory."
    | _ =>
        if no_inventory args then pass
        else print ("Routine inventory saved to "
                    ++ output_inventory args)%string
    end in
  let* extended := annotate (output_matrix args) sorted_matrix inventory_df in
  Returned [] (mkArtifacts sorted_matrix inventory_df extended).
End WithSort.

End Main.

(* ================================================================= *)
(** ** Inputs used in the examples *)

Module Examples.
Import Frame Scanner Inventory Main.

Definition nl : string := String "010" "".
Definition text (lines : list string) : string := String.concat nl lines.

(** [run] is called by [init] and by [load], each of which it calls:
    the sums of [init] and [load] are equal. *)
Definition small : DataFrame :=
  mkFrame ["init"; "load"; "run"] ["init"; "load"; "run"]
          [[0; 0; 1]; [0; 0; 1]; [1; 1; 0]]%Z.

(** The example of the specification: [alpha] calls [beta] and an
    unknown [gamma]. *)
Definition alpha_beta : routines :=
  [("alpha", ["beta"; "gamma"]); ("beta", [])].

(** Two routines that call each other. *)
Definition mutual : listing :=
  [("cycle.f90",
    text ["subroutine ping(n)"; "  call pong(n - 1)"; "end subroutine ping";
          "subroutine pong(n)"; "  call ping(n - 1)"; "end subroutine pong"])].

(** One routine per kind of file name. *)
Definition mixed : listing :=
  [("solver.F90", text ["subroutine solve(x)"; "end subroutine solve"]);
   ("tools.f95", text ["function helper(x)"; "end function helper"]);
   ("main.f90", text ["subroutine main_loop()"; "  call solve(1)";
                      "end subroutine main_loop"])].

(** Two routines that call each other with [call] statements that have
    no argument list. *)
Definition bare_cycle : listing :=
  [("cycle.f90",
    text ["subroutine ping"; "  call pong"; "end subroutine ping";
          "subroutine pong"; "  call ping"; "end subroutine pong"])].

(** A directory whose routines are named [index] and [level_0]. *)
Definition indexed : listing :=
  [("i.f90", text ["subroutine index(x)"; "end subroutine index";
                   "subroutine level_0(x)"; "end subroutine level_0"])].

(** A directory whose one routine is named [type]. *)
Definition typed : listing :=
  [("t.f90", text ["subroutine type(x)"; "end subroutine type"])].

Definition default_args : Args :=
  mkArgs "." "fortran_adjacency_matrix.csv" "fortran_routine_inventory.csv"
         false true.

End Examples.

(* ================================================================= *)
(** ** format_indent.py: the indentation formatter *)

(** Further constructs of [re] that the formatter's patterns use. *)
Module Lookaround.
Import Text Regex.

(** One character of a class. *)
Definition re_char (p : ascii -> bool) : matcher :=
  fun st => match rest st with
            | String c s => if p c then [mkState (Some c) s (groups st)]
                            else []
            | EmptyString => []
            end.

Definition word_before (st : state) : bool :=
  match prev st with Some c => is_word c | None => false end.
Definition word_after (st : state) : bool :=
  match rest st with String c _ => is_word c | EmptyString => false end.

(** [\b]: a word character on one side only. *)
Definition re_wordb : matcher :=
  fun st => if xorb (word_before st) (word_after st) then [st] else [].

(** [(?!m)] *)
Definition re_not (m : matcher) : matcher :=
  fun st => match m st with [] => [st] | _ :: _ => [] end.

(** [$] without MULTILINE: the end of the text, or just before a line
    feed that ends it. *)
Definition re_eol : matcher :=
  fun st => match rest st with
            | EmptyString => [st]
            | String c EmptyString => if Ascii.eqb c "010" then [st] else []
            | _ => []
            end.

(** Greedy [(?:m)*] for a body that consumes at least a character: the
    matches with more rounds first.  No more rounds fit than there are
    characters left, which bounds the recursion. *)
Fixpoint many_from (fuel : nat) (m : matcher) (st : state) : list state :=
  match fuel with
  | O => [st]
  | S k => flat_map (many_from k m) (m st) ++ [st]
  end.

Definition re_many (m : matcher) : matcher :=
  fun st => many_from (String.length (rest st)) m st.

(** [pattern.match(line) is not None] *)
Definition re_test (m : matcher) (line : string) : bool :=
  match re_match m line with Some _ => true | None => false end.

(** [pattern.search(line) is not None]: a match from some position,
    the end of the text included. *)
Fixpoint search_from (m : matcher) (pv : option ascii) (s : string) : bool :=
  match match_at m pv s with
  | Some _ => true
  | None =>
      match s with
      | String c s' => search_from m (Some c) s'
      | EmptyString => false
      end
  end.

Definition re_search (m : matcher) (line : string) : bool :=
  search_from m None line.

End Lookaround.

Module Indent.
Import Text Regex Lookaround.

Definition is_not (c : ascii) (a : ascii) : bool := negb (Ascii.eqb a c).

(** [LABEL = r"[a-zA-Z0-9_]\w*"] *)
Definition LABEL : matcher := (re_char is_word ;; re_star is_word)%re.

(** The optional construct label: [LABEL], white space, a colon, white
    space. *)
Definition label_prefix : matcher :=
  re_opt (LABEL ;; re_star is_space ;; re_lit ":" ;; re_star is_space)%re.

(** The alternatives of [OPENING_RE], in its order.  (The pattern is
    compiled with VERBOSE: the white space that lays it out is not part
    of it.) *)
Definition opening_alternatives : list matcher :=
  [ (label_prefix ;; re_lit "module" ;; re_wordb)%re;
    (label_prefix ;; re_lit "subroutine" ;; re_wordb)%re;
    (label_prefix ;;
     re_many (LABEL ;;
              re_opt (re_star is_space ;; re_lit "(" ;;
                      re_star (is_not ")") ;; re_lit ")") ;;
              re_plus is_space) ;;
     re_lit "function" ;; re_wordb)%re;
    (label_prefix ;; re_lit "program" ;; re_wordb)%re;
    (label_prefix ;; re_lit "block" ;; re_wordb ;;
     re_not (re_star is_space ;; re_lit "data" ;; re_wordb))%re;
    (label_prefix ;; re_lit "do" ;; re_wordb ;; re_not (re_char is_word))%re;
    (re_lit "if" ;; re_wordb ;; re_star (is_not "!") ;; re_wordb ;;
     re_lit "then" ;; re_wordb)%re;
    (re_lit "if" ;; re_wordb ;; re_star (is_not "!") ;; re_lit "&" ;;
     re_star is_space ;; re_eol)%re;
    (re_lit "select" ;; re_plus is_space ;;
     re_group (re_alt (re_lit "case")
                      (re_alt (re_lit "type") (re_lit "rank"))) ;;
     re_wordb)%re;
    (re_lit "type" ;; re_wordb ;; re_star is_space ;; re_lit "::")%re;
    (re_lit "interface" ;; re_wordb)%re;
    (re_lit "where" ;; re_wordb)%re;
    (re_lit "associate" ;; re_wordb)%re;
    (re_lit "enum" ;; re_wordb)%re;
    (re_lit "critical" ;; re_wordb)%re ].

(** [a1|a2|...] *)
Definition re_any (ms : list matcher) : matcher :=
  fun st => flat_map (fun m => m st) ms.

Definition OPENING_RE : matcher :=
  (re_bol ;; re_star is_space ;; re_any opening_alternatives)%re.

Definition end_then (m : matcher) : matcher := (re_lit "end" ;; m)%re.

Definition closing_alternatives : list matcher :=
  [ end_then re_wordb;
    end_then (re_plus is_space ;; re_lit "module" ;; re_wordb)%re;
    end_then (re_plus is_space ;; re_lit "subroutine" ;; re_wordb)%re;
    end_then (re_plus is_space ;; re_lit "function" ;; re_wordb)%re;
    end_then (re_plus is_space ;; re_lit "program" ;; re_wordb)%re;
    end_then (re_plus is_space ;; re_lit "block" ;; re_wordb)%re;
    end_then (re_star is_space ;; re_lit "do" ;; re_wordb ;;
              re_opt (re_plus is_space ;; LABEL))%re;
    end_then (re_plus is_space ;; re_lit "select" ;; re_wordb)%re;
    end_then (re_plus is_space ;; re_lit "type" ;; re_wordb)%re;
    end_then (re_plus is_space ;; re_lit "interface" ;; re_wordb)%re;
    end_then (re_plus is_space ;; re_lit "where" ;; re_wordb)%re;
    end_then (re_plus is_space ;; re_lit "associate" ;; re_wordb)%re;
    end_then (re_star is_space ;; re_lit "if" ;; re_wordb)%re ].

Definition CLOSING_RE : matcher :=
  (re_bol ;; re_star is_space ;; re_any closing_alternatives)%re.

(** [^\s*(?:else\b|elseif\b|else\s+if\b|case\b)] *)
Definition MIDDLE_DEDENT_RE : matcher :=
  (re_bol ;; re_star is_space ;;
   re_any [ (re_lit "else" ;; re_wordb)%re;
            (re_lit "elseif" ;; re_wordb)%re;
            (re_lit "else" ;; re_plus is_space ;; re_lit "if" ;; re_wordb)%re;
            (re_lit "case" ;; re_wordb)%re ])%re.

(** [^\s*&], [&\s*$] and [^\s*!] *)
Definition CONTINUATION_START : matcher :=
  (re_bol ;; re_star is_space ;; re_lit "&")%re.
Definition CONTINUATION_END : matcher :=
  (re_lit "&" ;; re_star is_space ;; re_eol)%re.
Definition COMMENT_RE : matcher :=
  (re_bol ;; re_star is_space ;; re_lit "!")%re.

(** [\bend\b] and [\bendif\b], as [format_lines] searches them. *)
Definition END_WORD : matcher := (re_wordb ;; re_lit "end" ;; re_wordb)%re.
Definition ENDIF_WORD : matcher :=
  (re_wordb ;; re_lit "endif" ;; re_wordb)%re.

(** [str.lstrip()], [str.rstrip(chars)] for a class, [str.strip()]. *)
Fixpoint lstrip (s : string) : string :=
  match s with
  | String c s' => if is_space c then lstrip s' else s
  | EmptyString => EmptyString
  end.

Fixpoint rstrip_class (p : ascii -> bool) (s : string) : string :=
  match s with
  | EmptyString => EmptyString
  | String c s' =>
      match rstrip_class p s' with
      | EmptyString => if p c then EmptyString else String c EmptyString
      | t => String c t
      end
  end.

Definition strip (s : string) : string := lstrip (rstrip_class is_space s).

(** [" " * n] *)
Definition spaces (n : Z) : string :=
  string_of_list_ascii (repeat " "%char (Z.to_nat n)).

(** The variables of the loop of [format_lines]. *)
Record Formatter : Type := mkFormatter
  { out : list string;
    indent_level : Z;
    prev_line_ended_with_amp : bool }.

(** The body of [for raw in lines]. *)
Definition format_line (indent_size : Z) (st : Formatter) (raw : string)
  : Formatter :=
  let line := rstrip_class (Ascii.eqb "010") raw in
  let stripped := strip line in
  let indent_level := indent_level st in
  if String.eqb stripped "" then
    mkFormatter (out st ++ [""%string]) indent_level false
  else if re_test CONTINUATION_START line then
    let indent := Z.max indent_level 0 in
    mkFormatter (out st ++ [(spaces (indent * indent_size) ++ stripped)%string])
                indent_level (re_search CONTINUATION_END line)
  else if re_test COMMENT_RE line then
    mkFormatter
      (out st ++ [(spaces (indent_level * indent_size) ++ stripped)%string])
      indent_level false
  else
    let is_middle_dedent := re_test MIDDLE_DEDENT_RE line in
    let is_closing := re_test CLOSING_RE line in
    let indent_level :=
      if is_middle_dedent then Z.max (indent_level - 1) 0 else indent_level in
    let indent_level :=
      if is_closing then Z.max (indent_level - 1) 0 else indent_level in
    let out :=
      out st ++ [(spaces (indent_level * indent_size) ++ stripped)%string] in
    let indent_level :=
      if is_middle_dedent then (indent_level + 1)%Z else indent_level in
    let opens_block := re_test OPENING_RE line in
    let closes_on_same_line :=
      re_search END_WORD line || re_search ENDIF_WORD line in
    let indent_level :=
      if opens_block && negb is_middle_dedent && negb closes_on_same_line
      then (indent_level + 1)%Z else indent_level in
    mkFormatter out indent_level (re_search CONTINUATION_END line).

(** [format_lines(lines, indent_size)] *)
Definition format_lines (lines : list string) (indent_size : Z)
  : list string :=
  map (fun l => (l ++ String "010" "")%string)
      (out (fold_left (format_line indent_size) lines
                      (mkFormatter [] 0%Z false))).

End Indent.

(** The part of [format_file] that decides whether a file changes. *)
Module IndentFile.
Import Text Indent.

(** [str.splitlines(True)]: the lines with their line boundaries. *)
Fixpoint splitlines_keepends_aux (cur : string) (pending : bool) (s : string)
  : list string :=
  match s with
  | EmptyString => if pending then [cur] else []
  | String c s' =>
      if is_linebreak c then
        match s' with
        | String d s'' =>
            if (Ascii.eqb c "013" && Ascii.eqb d "010")%bool
            then (cur ++ String c (String d ""))%string
                 :: splitlines_keepends_aux "" false s''
            else (cur ++ String c "")%string
                 :: splitlines_keepends_aux "" false s'
        | EmptyString =>
            (cur ++ String c "")%string :: splitlines_keepends_aux "" false s'
        end
      else splitlines_keepends_aux (cur ++ String c "")%string true s'
  end.

Definition splitlines_keepends (s : string) : list string :=
  splitlines_keepends_aux "" false s.

(** [a == b] on lists of strings. *)
Fixpoint lines_eqb (a b : list string) : bool :=
  match a, b with
  | [], [] => true
  | x :: a', y :: b' => String.eqb x y && lines_eqb a' b'
  | _, _ => false
  end.

(** Lines 150 to 153 of [format_file]: [orig_lines == new_lines], on
    which it answers [No changes for ...]. *)
Definition no_changes (text : string) (indent_size : Z) : bool :=
  let orig_lines := splitlines_keepends text in
  let new_lines := format_lines orig_lines indent_size in
  lines_eqb orig_lines new_lines.

End IndentFile.

(* ================================================================= *)
(** ** Notions used to state the properties *)

Module Notions.
Import Text Regex Source Scanner Frame Assembler Reorder Inventory Report Main.
Import Lookaround Indent IndentFile.

(** *** Frames *)

(** A cell, read through the rows and the columns as dictionaries. *)
Definition cell (M : DataFrame) (r c : string) : option Z :=
  match Dict.get r (combine (index M) (values M)) with
  | Some row => Dict.get c (combine (columns M) row)
  | None => None
  end.

(** The value of a cell, 0 where there is none. *)
Definition cell_value (M : DataFrame) (r c : string) : Z :=
  match at_ M r c with Some v => v | None => 0%Z end.

(** The routines of the Universe that call [callee]. *)
Definition callers (d : routines) (callee : string) : list string :=
  filter (records_call d callee) (universe d).

(** The matrix of a directory. *)
Definition scanned (files : listing) : DataFrame :=
  assemble (scan_listing files).

(** The names of the columns that the join adds. *)
Definition joined (c : string) : Prop :=
  c = "module_name"%string \/ c = "type"%string.

(** *** Lines of a source file *)

(** The routine a line declares, if it starts one. *)
Definition declares (line : string) : option string :=
  option_map (fun gs => lower (group 1 gs)) (re_match routine_start line).

(** The module a line names, if it opens one. *)
Definition names_module (line : string) : option string :=
  option_map (fun gs => lower (group 1 gs)) (re_match module_pattern line).

(** The records of some lines, read from a given current module; those
    of one file, whatever was collected before. *)
Definition records_from (cm : string) (lines : list string)
  : list InventoryRecord :=
  fst (fold_left inventory_line lines ([], cm)).

Definition file_records (content : string) : list InventoryRecord :=
  inventory_file [] content.

Definition in_module (m : string) (r : InventoryRecord) : InventoryRecord :=
  mkRecord (obj_name r) m (type_ r).

(** A word that is not empty and holds no capital; what a well-formed
    record looks like. *)
Definition word_lower (s : string) : Prop :=
  s <> ""%string /\ lower s = s.

Definition record_ok (r : InventoryRecord) : Prop :=
  (type_ r = "subroutine"%string \/ type_ r = "function"%string) /\
  word_lower (obj_name r) /\
  (module_name r = "External"%string \/ word_lower (module_name r)).

(** *** Matchers *)

(** [shift g st]: the same position, with the groups [g] captured
    before those of [st]. *)
Definition shift (g : list string) (st : state) : state :=
  mkState (prev st) (rest st) (g ++ groups st).

(** A matcher is uniform when earlier groups pass through it
    untouched. *)
Definition uniform (m : matcher) : Prop :=
  forall g st, m (shift g st) = map (shift g) (m st).

(** The keyword of a routine line, and what follows it in both routine
    patterns. *)
Definition is_kind (kw : string) : Prop :=
  lower kw = "subroutine"%string \/ lower kw = "function"%string.

Definition keyword : matcher :=
  re_alt (re_lit "subroutine") (re_lit "function").

Definition name_tail : matcher :=
  re_seq (re_plus is_space) (re_group (re_plus is_word)).

(** A position with every letter in lower case. *)
Definition lower_state (st : state) : state :=
  mkState (option_map lower_char (prev st)) (lower (rest st))
          (map lower (groups st)).

Definition lower_pos (r : option ascii * string) : option ascii * string :=
  (option_map lower_char (fst r), lower (snd r)).

Definition lower_match (r : list string * nat) : list string * nat :=
  (map lower (fst r), snd r).

(** A matcher is blind to case when it does on the lowered text what it
    does on the text. *)
Definition blind (m : matcher) : Prop :=
  forall st, m (lower_state st) = map lower_state (m st).

(** A character class that holds no letter, or both cases of it. *)
Definition caseless (p : ascii -> bool) : Prop :=
  forall c, p (lower_char c) = p c.

(** A matcher that never moves back, and one that always moves on. *)
Definition steady (m : matcher) : Prop :=
  forall st st', In st' (m st) ->
                 String.length (rest st') <= String.length (rest st).

Definition consuming (m : matcher) : Prop :=
  forall st st', In st' (m st) ->
                 String.length (rest st') < String.length (rest st).

(** *** The formatter *)

(** The line as the loop of [format_lines] reads it, and what it puts
    out for it at a level. *)
Definition line_of (raw : string) : string :=
  rstrip_class (Ascii.eqb "010") raw.

Definition emitted_at (indent_size k : Z) (raw : string) : string :=
  if String.eqb (strip (line_of raw)) "" then ""%string
  else (spaces (k * indent_size) ++ strip (line_of raw))%string.

(** Blank lines, lines that start with [&] and comments. *)
Definition passive (raw : string) : bool :=
  String.eqb (strip (line_of raw)) ""
  || re_test CONTINUATION_START (line_of raw)
  || re_test COMMENT_RE (line_of raw).

(** The loop from a level, with nothing put out yet. *)
Definition run (indent_size : Z) (lines : list string) (level : Z)
  : Formatter :=
  fold_left (format_line indent_size) lines (mkFormatter [] level false).

(** The first character of a text and its first two, in lower case. *)
Definition head1 (s : string) : option ascii :=
  match s with
  | String a _ => Some (lower_char a)
  | EmptyString => None
  end.

Definition head2 (s : string) : option (ascii * ascii) :=
  match s with
  | String a (String b _) => Some (lower_char a, lower_char b)
  | _ => None
  end.

(** How a line starts that [MIDDLE_DEDENT_RE] matches, and one that
    [CLOSING_RE] matches. *)
Definition middle_head (s : string) : Prop :=
  head2 s = Some ("e", "l")%char \/ head2 s = Some ("c", "a")%char.

Definition closing_head (s : string) : Prop :=
  head2 s = Some ("e", "n")%char.

Definition ends_with_newline (s : string) : Prop :=
  exists body, s = (body ++ String "010" "")%string.

End Notions.

(* ================================================================= *)
(** * Properties *)

(** ** Insertion sort *)

Section InsertionFacts.
Context {A : Type}.
Variable leb : A -> A -> bool.
Variable R : A -> A -> Prop.
Hypothesis leb_true : forall x y, leb x y = true -> R x y.
Hypothesis leb_false : forall x y, leb x y = false -> R y x.

Lemma insert_perm (x : A) (l : list A) : Permutation (insert leb x l) (x :: l).
Proof.
  induction l as [|y l IH]; simpl; [reflexivity|].
  destruct (leb x y); [reflexivity|].
  rewrite IH. apply perm_swap.
Qed.

Lemma isort_perm (l : list A) : Permutation (isort leb l) l.
Proof.
  induction l as [|x l IH]; simpl; [constructor|].
  rewrite insert_perm. now constructor.
Qed.

Lemma insert_hd (x y : A) (l : list A) :
  R y x -> HdRel R y l -> HdRel R y (insert leb x l).
Proof.
  intros Hyx Hl. destruct l as [|z l]; simpl.
  - now constructor.
  - destruct (leb x z); constructor; trivial.
    now inversion Hl.
Qed.

Lemma insert_sorted (x : A) (l : list A) :
  Sorted R l -> Sorted R (insert leb x l).
Proof.
  induction l as [|y l IH]; simpl; intros Hs.
  - repeat constructor.
  - destruct (leb x y) eqn:E.
    + constructor; [assumption|]. constructor. now apply leb_true.
    + inversion Hs; subst. constructor; [now apply IH|].
      apply insert_hd; [now apply leb_false | assumption].
Qed.

Lemma isort_sorted (l : list A) : Sorted R (isort leb l).
Proof.
  induction l as [|x l IH]; simpl; [constructor|].
  now apply insert_sorted.
Qed.

(** A list that is in order already is left as it is. *)
Lemma isort_fixed (l : list A) :
  Sorted (fun x y => leb x y = true) l -> isort leb l = l.
Proof.
  induction l as [|x l IH]; simpl; intros Hs; [reflexivity|].
  inversion Hs as [|? ? Hl Hhd]; subst.
  rewrite (IH Hl). destruct Hhd as [|y l' Hxy]; simpl; [reflexivity|].
  now rewrite Hxy.
Qed.
End InsertionFacts.

(** ** Selecting by position *)

Module FrameFacts.
Import Frame.

Lemma sum_list_perm (l l' : list Z) :
  Permutation l l' -> sum_list l = sum_list l'.
Proof.
  induction 1; simpl; lia.
Qed.

Lemma map_fst_combine {A B} (l : list A) (l' : list B) :
  List.length l = List.length l' -> map fst (combine l l') = l.
Proof.
  revert l'. induction l as [|x l IH]; intros [|y l']; simpl; try easy.
  intros H. f_equal. apply IH. lia.
Qed.

Lemma map_snd_combine {A B} (l : list A) (l' : list B) :
  List.length l = List.length l' -> map snd (combine l l') = l'.
Proof.
  revert l'. induction l as [|x l IH]; intros [|y l']; simpl; try easy.
  intros H. f_equal. apply IH. lia.
Qed.

Lemma take_app {A} (d : A) (ix jx : list nat) (l : list A) :
  take d (ix ++ jx) l = take d ix l ++ take d jx l.
Proof. apply map_app. Qed.

Lemma take_length {A} (d : A) (ix : list nat) (l : list A) :
  List.length (take d ix l) = List.length ix.
Proof. apply length_map. Qed.

Lemma take_shift {A} (d : A) (x : A) (ix : list nat) (l : list A) :
  take d (map S ix) (x :: l) = take d ix l.
Proof. unfold take. rewrite map_map. reflexivity. Qed.

Lemma take_seq {A} (d : A) (l : list A) :
  take d (seq 0 (List.length l)) l = l.
Proof.
  induction l as [|x l IH]; simpl; [reflexivity|].
  f_equal. rewrite <- seq_shift. rewrite take_shift. exact IH.
Qed.

Lemma take_perm {A} (d : A) (ix : list nat) (l : list A) :
  Permutation ix (seq 0 (List.length l)) -> Permutation (take d ix l) l.
Proof.
  intros H. rewrite <- (take_seq d l) at 2.
  unfold take. now apply Permutation_map.
Qed.

Lemma positions_from_shift (i : nat) (label : string) (axis : list string) :
  positions_from (S i) label axis = map S (positions_from i label axis).
Proof.
  revert i. induction axis as [|a axis IH]; intros i; simpl; [reflexivity|].
  destruct (String.eqb a label); simpl; now rewrite IH.
Qed.

Lemma positions_from_absent (i : nat) (label : string) (axis : list string) :
  ~ In label axis -> positions_from i label axis = [].
Proof.
  revert i. induction axis as [|a axis IH]; intros i Hn; simpl; [reflexivity|].
  destruct (String.eqb_spec a label) as [->|_].
  - exfalso. apply Hn. now left.
  - apply IH. intros H. apply Hn. now right.
Qed.

Lemma positions_from_range (i : nat) (label : string) (axis : list string) :
  Forall (fun k => i <= k < i + List.length axis) (positions_from i label axis).
Proof.
  revert i. induction axis as [|a axis IH]; intros i; simpl; [constructor|].
  assert (H : Forall (fun k => i <= k < i + S (List.length axis))
                     (positions_from (S i) label axis)).
  { eapply Forall_impl; [|apply IH]. simpl. intros; lia. }
  destruct (String.eqb a label); [constructor; [lia|]|]; exact H.
Qed.

Lemma get_indexer_range (labels axis : list string) :
  Forall (fun k => k < List.length axis) (get_indexer labels axis).
Proof.
  unfold get_indexer. induction labels as [|l labels IH]; simpl; [constructor|].
  apply Forall_app. split; [|exact IH].
  eapply Forall_impl; [|apply positions_from_range]. simpl. intros; lia.
Qed.

Section Keyed.
Context {A : Type}.
Variable key : A -> string.
Variable d : A.

(** With distinct keys, the positions of an element's key select that
    element and nothing else. *)
Lemma take_positions (l : list A) (e : A) :
  NoDup (map key l) -> In e l ->
  take d (positions (key e) (map key l)) l = [e].
Proof.
  unfold positions. induction l as [|x l IH]; simpl; intros Hnd Hin; [easy|].
  inversion Hnd as [|? ? Hx Hl]; subst.
  destruct (String.eqb_spec (key x) (key e)) as [E|E].
  - assert (x = e) as ->.
    { destruct Hin as [|Hin]; [assumption|].
      exfalso. apply Hx. rewrite E. now apply in_map. }
    rewrite positions_from_absent by assumption. reflexivity.
  - destruct Hin as [->|Hin]; [easy|].
    rewrite positions_from_shift, take_shift. now apply IH.
Qed.

Lemma take_get_indexer (l s : list A) :
  NoDup (map key l) -> incl s l ->
  take d (get_indexer (map key s) (map key l)) l = s.
Proof.
  intros Hnd. unfold get_indexer.
  induction s as [|e s IH]; simpl; intros Hin; [reflexivity|].
  rewrite take_app, take_positions, IH; trivial.
  - intros x Hx. apply Hin. now right.
  - apply Hin. now left.
Qed.
End Keyed.

Lemma take_labels (axis labels : list string) :
  NoDup axis -> incl labels axis ->
  take "" (get_indexer labels axis) axis = labels.
Proof.
  intros Hnd Hin.
  pose proof (take_get_indexer (fun x : string => x) "" axis labels) as H.
  rewrite !map_id in H. now apply H.
Qed.

Lemma get_indexer_self (axis : list string) :
  NoDup axis -> get_indexer axis axis = seq 0 (List.length axis).
Proof.
  intros Hnd.
  set (l := combine axis (seq 0 (List.length axis))).
  assert (Hk : map fst l = axis).
  { unfold l. rewrite map_fst_combine; [reflexivity|]. now rewrite length_seq. }
  pose proof (take_get_indexer fst ("", 0) l l) as H.
  rewrite Hk in H. specialize (H Hnd (incl_refl _)).
  apply (f_equal (map snd)) in H.
  unfold l at 2 in H. rewrite map_snd_combine in H by now rewrite length_seq.
  rewrite <- H. unfold take. rewrite map_map.
  rewrite <- (map_id (get_indexer axis axis)) at 1.
  apply map_ext_in. intros k Hk'.
  pose proof (get_indexer_range axis axis) as Hr.
  rewrite Forall_forall in Hr. specialize (Hr k Hk').
  unfold l. rewrite (combine_nth axis (seq 0 (List.length axis)) k "" 0)
    by now rewrite length_seq.
  simpl. now rewrite seq_nth.
Qed.

Lemma get_indexer_perm (labels axis : list string) :
  NoDup axis -> Permutation labels axis ->
  Permutation (get_indexer labels axis) (seq 0 (List.length axis)).
Proof.
  intros Hnd Hp. rewrite <- (get_indexer_self axis Hnd).
  unfold get_indexer. now apply Permutation_flat_map.
Qed.

Lemma take_combine {A B} (da : A) (db : B) (ix : list nat)
  (l : list A) (l' : list B) :
  List.length l = List.length l' ->
  take (da, db) ix (combine l l') = combine (take da ix l) (take db ix l').
Proof.
  intros H. unfold take. induction ix as [|k ix IH]; simpl; [reflexivity|].
  now rewrite IH, combine_nth.
Qed.

Lemma nth_map_in {A B} (f : A -> B) (da : A) (db : B) (l : list A) (k : nat) :
  k < List.length l -> nth k (map f l) db = f (nth k l da).
Proof.
  intros H. rewrite (nth_indep _ db (f da)) by now rewrite length_map.
  apply map_nth.
Qed.

Lemma take_map {A B} (f : A -> B) (da : A) (db : B) (ix : list nat)
  (l : list A) :
  Forall (fun k => k < List.length l) ix ->
  take db ix (map f l) = map f (take da ix l).
Proof.
  intros H. unfold take. rewrite map_map. apply map_ext_in.
  intros k Hk. rewrite Forall_forall in H. now apply nth_map_in, H.
Qed.

Lemma map_nth_seq {A B} (g : A -> B) (d : A) (l : list A) :
  map (fun j => g (nth j l d)) (seq 0 (List.length l)) = map g l.
Proof.
  rewrite <- (take_seq d l) at 2. unfold take. now rewrite map_map.
Qed.

Lemma sum_axis_keys1 (M : DataFrame) :
  List.length (values M) = List.length (index M) ->
  map fst (sum_axis1 M) = index M.
Proof.
  intros H. unfold sum_axis1. apply map_fst_combine. now rewrite length_map.
Qed.

Lemma sum_axis_keys0 (M : DataFrame) : map fst (sum_axis0 M) = columns M.
Proof.
  unfold sum_axis0. apply map_fst_combine. now rewrite length_map, length_seq.
Qed.

(** *** Rows by label *)

Section LocRows.
Variable M : DataFrame.
Variable labels : list string.
Hypothesis Hwf : wf M.
Hypothesis Hperm : Permutation labels (index M).

Lemma loc_rows_index : index (loc_rows M labels) = labels.
Proof.
  destruct Hwf as (Hi & _). simpl. apply take_labels; trivial.
  intros x Hx. now apply (Permutation_in _ Hperm).
Qed.

Lemma loc_rows_values :
  Permutation (values (loc_rows M labels)) (values M).
Proof.
  destruct Hwf as (Hi & _ & Hlen & _). simpl. apply take_perm.
  rewrite Hlen. now apply get_indexer_perm.
Qed.

Lemma loc_rows_wf : wf (loc_rows M labels).
Proof.
  pose proof loc_rows_values as Hv.
  destruct Hwf as (Hi & Hc & Hlen & Hrows).
  split; [|split; [|split]].
  - rewrite loc_rows_index.
    apply (Permutation_NoDup (Permutation_sym Hperm) Hi).
  - exact Hc.
  - simpl. now rewrite !take_length.
  - rewrite Forall_forall in *. intros row Hrow. apply Hrows.
    now apply (Permutation_in _ Hv).
Qed.

Lemma loc_rows_sum_axis1 :
  sum_axis1 (loc_rows M labels)
  = take ("", 0%Z) (get_indexer labels (index M)) (sum_axis1 M).
Proof.
  destruct Hwf as (Hi & _ & Hlen & _). unfold sum_axis1. simpl.
  rewrite take_combine by now rewrite length_map.
  f_equal. symmetry. apply take_map.
  rewrite Hlen. apply get_indexer_range.
Qed.

Lemma loc_rows_sum_axis0 : sum_axis0 (loc_rows M labels) = sum_axis0 M.
Proof.
  pose proof loc_rows_values as Hv.
  unfold sum_axis0. simpl columns. f_equal. apply map_ext. intros j.
  apply sum_list_perm. unfold column. now apply Permutation_map.
Qed.
End LocRows.

(** *** Columns by label *)

Section GetitemCols.
Variable M : DataFrame.
Variable labels : list string.
Hypothesis Hwf : wf M.
Hypothesis Hperm : Permutation labels (columns M).

Lemma getitem_cols_columns : columns (getitem_cols M labels) = labels.
Proof.
  destruct Hwf as (_ & Hc & _). simpl. apply take_labels; trivial.
  intros x Hx. now apply (Permutation_in _ Hperm).
Qed.

Lemma getitem_cols_row (row : list Z) :
  In row (values M) ->
  Permutation (take 0%Z (get_indexer labels (columns M)) row) row.
Proof.
  destruct Hwf as (_ & Hc & _ & Hrows). intros Hrow.
  rewrite Forall_forall in Hrows. apply take_perm.
  rewrite (Hrows row Hrow). now apply get_indexer_perm.
Qed.

Lemma getitem_cols_wf : wf (getitem_cols M labels).
Proof.
  destruct Hwf as (Hi & Hc & Hlen & Hrows).
  split; [|split; [|split]].
  - exact Hi.
  - rewrite getitem_cols_columns.
    apply (Permutation_NoDup (Permutation_sym Hperm) Hc).
  - simpl. now rewrite length_map.
  - simpl. rewrite Forall_forall. intros row Hrow.
    apply in_map_iff in Hrow as (r & <- & _). now rewrite !take_length.
Qed.

Lemma getitem_cols_sum_axis1 :
  sum_axis1 (getitem_cols M labels) = sum_axis1 M.
Proof.
  unfold sum_axis1. simpl index. f_equal. simpl values.
  rewrite map_map. apply map_ext_in. intros row Hrow.
  apply sum_list_perm. now apply getitem_cols_row.
Qed.

Lemma getitem_cols_sum_axis0 :
  sum_axis0 (getitem_cols M labels)
  = take ("", 0%Z) (get_indexer labels (columns M)) (sum_axis0 M).
Proof.
  set (ix := get_indexer labels (columns M)).
  set (g := fun k => sum_list (column k (values M))).
  unfold sum_axis0. simpl columns. simpl values. fold ix.
  rewrite take_combine by now rewrite length_map, length_seq.
  f_equal. rewrite take_length.
  transitivity (map g ix).
  - rewrite <- (map_nth_seq g 0 ix). apply map_ext_in. intros j Hj.
    apply in_seq in Hj. unfold g, column. f_equal. rewrite map_map.
    apply map_ext. intros row. unfold take.
    now rewrite (nth_map_in _ 0) by lia.
  - unfold take. apply map_ext_in. intros k Hk.
    pose proof (get_indexer_range labels (columns M)) as Hr.
    rewrite Forall_forall in Hr. specialize (Hr k Hk).
    rewrite (nth_map_in _ 0) by now rewrite length_seq.
    fold g. now rewrite seq_nth.
Qed.
End GetitemCols.

End FrameFacts.

(** ** Reordering *)

Module ReorderFacts.
Import Frame Reorder FrameFacts.

Lemma frame_eq (M M' : DataFrame) :
  index M = index M' -> columns M = columns M' -> values M = values M' ->
  M = M'.
Proof. destruct M, M'; simpl; intros; now subst. Qed.

Lemma loc_rows_self (M : DataFrame) : wf M -> loc_rows M (index M) = M.
Proof.
  intros (Hi & _ & Hlen & _). unfold loc_rows.
  rewrite get_indexer_self by assumption.
  apply frame_eq; simpl; trivial.
  - apply take_seq.
  - rewrite <- Hlen. apply take_seq.
Qed.

Lemma getitem_cols_self (M : DataFrame) :
  wf M -> getitem_cols M (columns M) = M.
Proof.
  intros (_ & Hc & _ & Hrows). unfold getitem_cols.
  rewrite get_indexer_self by assumption.
  apply frame_eq; simpl; trivial.
  - apply take_seq.
  - rewrite <- (map_id (values M)) at 2. apply map_ext_in. intros row Hrow.
    rewrite Forall_forall in Hrows. rewrite <- (Hrows row Hrow).
    apply take_seq.
Qed.

Section WithSort.
Variable sort_values : Series -> Series.
Hypothesis Hperm : forall s, Permutation (sort_values s) s.
Variable M : DataFrame.
Hypothesis Hwf : wf M.

Lemma new_row_order_perm :
  Permutation (new_row_order sort_values M) (index M).
Proof.
  unfold new_row_order.
  rewrite <- (sum_axis_keys1 M) by apply Hwf.
  apply Permutation_map, Hperm.
Qed.

Lemma new_col_order_perm (N : DataFrame) :
  Permutation (map fst (sort_values (sum_axis0 N))) (columns N).
Proof.
  rewrite <- (sum_axis_keys0 N). apply Permutation_map, Hperm.
Qed.

Lemma rows_sorted_wf : wf (rows_sorted sort_values M).
Proof. apply loc_rows_wf; [exact Hwf | apply new_row_order_perm]. Qed.

Lemma reorder_by_sum_wf : wf (reorder_by_sum sort_values M).
Proof.
  apply getitem_cols_wf; [apply rows_sorted_wf | apply new_col_order_perm].
Qed.

(** The row sums of the result are the sorted row sums of the input,
    label by label. *)
Lemma reorder_sum_axis1 :
  sum_axis1 (reorder_by_sum sort_values M) = sort_values (sum_axis1 M).
Proof.
  unfold reorder_by_sum. fold (new_row_order sort_values M).
  fold (rows_sorted sort_values M).
  rewrite getitem_cols_sum_axis1
    by (apply rows_sorted_wf || apply new_col_order_perm).
  unfold rows_sorted. rewrite loc_rows_sum_axis1
    by (exact Hwf || apply new_row_order_perm).
  unfold new_row_order.
  rewrite <- (sum_axis_keys1 M) at 1 by apply Hwf.
  apply take_get_indexer.
  - rewrite sum_axis_keys1 by apply Hwf. apply Hwf.
  - intros x Hx. now apply (Permutation_in _ (Hperm _)).
Qed.

Lemma rows_sorted_sum_axis0 :
  sum_axis0 (rows_sorted sort_values M) = sum_axis0 M.
Proof.
  apply loc_rows_sum_axis0; [exact Hwf | apply new_row_order_perm].
Qed.

(** Likewise for the column sums. *)
Lemma reorder_sum_axis0 :
  sum_axis0 (reorder_by_sum sort_values M) = sort_values (sum_axis0 M).
Proof.
  unfold reorder_by_sum. fold (new_row_order sort_values M).
  fold (rows_sorted sort_values M).
  rewrite getitem_cols_sum_axis0
    by (apply rows_sorted_wf || apply new_col_order_perm).
  replace (columns (rows_sorted sort_values M))
    with (map fst (sum_axis0 (rows_sorted sort_values M)))
    by apply sum_axis_keys0.
  rewrite take_get_indexer.
  - now rewrite rows_sorted_sum_axis0.
  - rewrite sum_axis_keys0. apply rows_sorted_wf.
  - intros x Hx. now apply (Permutation_in _ (Hperm _)).
Qed.

Lemma reorder_index :
  index (reorder_by_sum sort_values M) = new_row_order sort_values M.
Proof.
  unfold reorder_by_sum. simpl index. fold (new_row_order sort_values M).
  apply (loc_rows_index M (new_row_order sort_values M) Hwf new_row_order_perm).
Qed.

Lemma reorder_columns :
  columns (reorder_by_sum sort_values M)
  = map fst (sort_values (sum_axis0 M)).
Proof.
  unfold reorder_by_sum. fold (new_row_order sort_values M).
  fold (rows_sorted sort_values M).
  rewrite getitem_cols_columns
    by (apply rows_sorted_wf || apply new_col_order_perm).
  now rewrite rows_sorted_sum_axis0.
Qed.

Lemma reorder_two_phase :
  reorder_by_sum sort_values M = reorder_independent sort_values M.
Proof.
  unfold reorder_by_sum, reorder_independent.
  fold (new_row_order sort_values M). fold (rows_sorted sort_values M).
  now rewrite rows_sorted_sum_axis0.
Qed.
End WithSort.

Lemma loc_rows_getitem_cols (M : DataFrame) (ro co : list string) :
  List.length (values M) = List.length (index M) ->
  loc_rows (getitem_cols M co) ro = getitem_cols (loc_rows M ro) co.
Proof.
  intros Hlen. unfold loc_rows, getitem_cols. simpl.
  f_equal. apply (take_map _ []).
  rewrite Hlen. apply get_indexer_range.
Qed.

(** *** Order of entries *)

Lemma before_map {A B} (f : A -> B) (a b : A) (l : list A) :
  before a b l -> before (f a) (f b) (map f l).
Proof.
  intros (l1 & l2 & l3 & ->).
  exists (map f l1), (map f l2), (map f l3).
  now rewrite map_app, (map_cons f a), map_app.
Qed.

Lemma keys_functional {V} (s : list (string * V)) (k : string) (v v' : V) :
  NoDup (map fst s) -> In (k, v) s -> In (k, v') s -> v = v'.
Proof.
  induction s as [|[k0 v0] s IH]; simpl; intros Hnd H H'; [easy|].
  inversion Hnd as [|? ? Hk Hs]; subst.
  destruct H as [H|H], H' as [H'|H'].
  - congruence.
  - exfalso. apply Hk. injection H as -> ->.
    now apply (in_map fst _ _ H').
  - exfalso. apply Hk. injection H' as -> ->.
    now apply (in_map fst _ _ H).
  - now apply IH.
Qed.

Lemma before_keys {V} (s : list (string * V)) (a b : string) (v w : V) :
  NoDup (map fst s) -> In (a, v) s -> In (b, w) s ->
  before a b (map fst s) -> before (a, v) (b, w) s.
Proof.
  intros Hnd Ha Hb (l1 & l2 & l3 & E).
  apply map_eq_app in E as (s1 & t1 & -> & <- & E).
  apply map_eq_cons in E as ([a' va] & t2 & -> & Ea & E).
  apply map_eq_app in E as (s2 & t3 & -> & <- & E).
  apply map_eq_cons in E as ([b' vb] & s3 & -> & Eb & <-).
  simpl in Ea, Eb. subst a' b'.
  assert (va = v) as ->.
  { apply (keys_functional _ a _ _ Hnd); trivial.
    apply in_or_app; right; now left. }
  assert (vb = w) as ->.
  { apply (keys_functional _ b _ _ Hnd); trivial.
    apply in_or_app; right; right. apply in_or_app; right; now left. }
  now exists s1, s2, s3.
Qed.

Section Filter.
Context {A : Type}.
Variable p : A -> bool.

Lemma filter_cons_inv (l : list A) (x : A) (w : list A) :
  filter p l = x :: w ->
  exists lu lw, l = lu ++ x :: lw /\ filter p lw = w.
Proof.
  induction l as [|y l IH]; simpl; [easy|].
  destruct (p y) eqn:E.
  - intros [= -> <-]. now exists [], l.
  - intros H. destruct (IH H) as (lu & lw & -> & Hw).
    now exists (y :: lu), lw.
Qed.

Lemma filter_app_inv (l u w : list A) :
  filter p l = u ++ w ->
  exists lu lw, l = lu ++ lw /\ filter p lw = w.
Proof.
  revert l. induction u as [|x u IH]; simpl; intros l H.
  - now exists [], l.
  - apply filter_cons_inv in H as (lu & lw & -> & H).
    destruct (IH _ H) as (lu' & lw' & -> & Hw).
    exists (lu ++ x :: lu'), lw'. split; [|assumption].
    now rewrite <- app_assoc.
Qed.

Lemma before_filter (a b : A) (l : list A) :
  p a = true -> p b = true -> before a b l -> before a b (filter p l).
Proof.
  intros Ha Hb (l1 & l2 & l3 & ->).
  exists (filter p l1), (filter p l2), (filter p l3).
  rewrite filter_app. simpl. rewrite Ha, filter_app. simpl. now rewrite Hb.
Qed.

Lemma before_filter_inv (a b : A) (l : list A) :
  before a b (filter p l) -> before a b l.
Proof.
  intros (l1 & l2 & l3 & H).
  apply filter_app_inv in H as (lu & lw & -> & H).
  apply filter_cons_inv in H as (la & lw' & -> & H).
  apply filter_app_inv in H as (lb & lw'' & -> & H).
  apply filter_cons_inv in H as (lc & ld & -> & _).
  exists (lu ++ la), (lb ++ lc), ld.
  now rewrite <- !app_assoc.
Qed.
End Filter.

Lemma stable_before (sort_values : Series -> Series) (s : Series)
  (a b : string * Z) :
  stable sort_values -> snd a = snd b ->
  before a b s -> before a b (sort_values s).
Proof.
  intros Hst E H. apply (before_filter_inv (has_value (snd a))).
  rewrite Hst. apply before_filter; trivial; unfold has_value.
  - apply Z.eqb_refl.
  - rewrite E. apply Z.eqb_refl.
Qed.

(** *** Descending series *)

Lemma descending_strong (s : Series) :
  descending s -> StronglySorted (fun a b => (snd b <= snd a)%Z) s.
Proof.
  apply Sorted_StronglySorted. intros x y z Hxy Hyz. simpl in *. lia.
Qed.

(** A descending series is determined by its entries of each value. *)
Lemma descending_unique (l s : Series) :
  descending l -> descending s ->
  (forall v, filter (has_value v) s = filter (has_value v) l) -> s = l.
Proof.
  revert s. induction l as [|x l IH]; intros s Hl Hs H.
  - destruct s as [|y s]; [reflexivity|].
    specialize (H (snd y)). simpl in H. unfold has_value in H at 1.
    now rewrite Z.eqb_refl in H.
  - destruct s as [|y s].
    + specialize (H (snd x)). simpl in H. unfold has_value in H at 1.
      now rewrite Z.eqb_refl in H.
    + pose proof (descending_strong _ Hl) as Sl.
      pose proof (descending_strong _ Hs) as Ss.
      apply StronglySorted_inv in Sl as (_ & Fl).
      apply StronglySorted_inv in Ss as (_ & Fs).
      rewrite Forall_forall in Fl, Fs.
      assert (Hxy : (snd x <= snd y)%Z).
      { assert (Hin : In x (filter (has_value (snd x)) (y :: s))).
        { rewrite H. simpl. unfold has_value at 1.
          rewrite Z.eqb_refl. now left. }
        apply filter_In in Hin as ([<-|Hin] & _); [lia|]. now apply Fs. }
      assert (Hyx : (snd y <= snd x)%Z).
      { assert (Hin : In y (filter (has_value (snd y)) (x :: l))).
        { rewrite <- H. simpl. unfold has_value at 1.
          rewrite Z.eqb_refl. now left. }
        apply filter_In in Hin as ([<-|Hin] & _); [lia|]. now apply Fl. }
      assert (E : snd y = snd x) by lia.
      pose proof (H (snd x)) as Hx. cbn [filter] in Hx.
      replace (has_value (snd x) y) with true in Hx
        by (unfold has_value; rewrite E; symmetry; apply Z.eqb_refl).
      replace (has_value (snd x) x) with true in Hx
        by (unfold has_value; symmetry; apply Z.eqb_refl).
      injection Hx as Eyx Hx. subst y.
      f_equal. apply IH.
      * now inversion Hl.
      * now inversion Hs.
      * intros v. specialize (H v). cbn [filter] in H.
        destruct (has_value v x); [now injection H as H|assumption].
Qed.

Lemma stable_fixed (sort_values : Series -> Series) (s : Series) :
  sort_contract sort_values -> stable sort_values ->
  descending s -> sort_values s = s.
Proof.
  intros Hc Hst Hs.
  apply descending_unique;
    [assumption | apply (sort_desc _ Hc) | intros v; apply Hst].
Qed.

(** The values of a descending series, in order, depend on its entries
    only. *)
Lemma descending_values (s : Series) :
  descending s -> Sorted (fun x y => (y <= x)%Z) (map snd s).
Proof.
  induction 1 as [|a s Hs IH Hhd]; simpl; constructor; trivial.
  destruct Hhd; simpl; now constructor.
Qed.

Lemma sorted_values_unique (l l' : list Z) :
  Sorted (fun x y => (y <= x)%Z) l -> Sorted (fun x y => (y <= x)%Z) l' ->
  Permutation l l' -> l = l'.
Proof.
  revert l'. induction l as [|x l IH]; intros l' Hl Hl' Hp.
  - now apply Permutation_nil in Hp.
  - destruct l' as [|y l'].
    + now apply Permutation_sym, Permutation_nil in Hp.
    + assert (Tr : Relations_1.Transitive (fun x y : Z => (y <= x)%Z))
        by (intros a b c Hab Hbc; lia).
      pose proof (Sorted_StronglySorted Tr Hl) as Sl.
      pose proof (Sorted_StronglySorted Tr Hl') as Sl'.
      apply StronglySorted_inv in Sl as (_ & Fl).
      apply StronglySorted_inv in Sl' as (_ & Fl').
      rewrite Forall_forall in Fl, Fl'.
      assert (Hxy : (x <= y)%Z).
      { destruct (Permutation_in x Hp (or_introl eq_refl)) as [->|Hin];
          [lia|now apply Fl']. }
      assert (Hyx : (y <= x)%Z).
      { destruct (Permutation_in y (Permutation_sym Hp) (or_introl eq_refl))
          as [->|Hin]; [lia|now apply Fl]. }
      assert (y = x) as -> by lia.
      f_equal. apply IH.
      * now inversion Hl.
      * now inversion Hl'.
      * now apply Permutation_cons_inv in Hp.
Qed.

Lemma sort_values_of_descending (sort_values : Series -> Series) (s : Series) :
  sort_contract sort_values -> descending s ->
  map snd (sort_values s) = map snd s.
Proof.
  intros Hc Hs. apply sorted_values_unique.
  - apply descending_values, (sort_desc _ Hc).
  - now apply descending_values.
  - apply Permutation_map, (sort_perm _ Hc).
Qed.

(** *** The two sorts *)

Lemma insert_filter (v : Z) (x : string * Z) (l : Series) :
  filter (has_value v) (insert geb_value x l) = filter (has_value v) (x :: l).
Proof.
  induction l as [|y l IH]; [reflexivity|].
  simpl insert. destruct (geb_value x y) eqn:E; [reflexivity|].
  cbn [filter]. rewrite IH. cbn [filter].
  unfold geb_value in E. apply Z.leb_gt in E. unfold has_value.
  destruct (Z.eqb_spec (snd y) v), (Z.eqb_spec (snd x) v); trivial. lia.
Qed.

Lemma sort_values_stable_stable : stable sort_values_stable.
Proof.
  intros s v. unfold sort_values_stable.
  induction s as [|x s IH]; [reflexivity|].
  simpl isort. rewrite insert_filter. simpl. now rewrite IH.
Qed.

Lemma sort_values_stable_contract : sort_contract sort_values_stable.
Proof.
  split; intros s; unfold sort_values_stable.
  - apply isort_perm.
  - apply isort_sorted; unfold geb_value; intros x y H.
    + now apply Z.leb_le.
    + apply Z.leb_gt in H. lia.
Qed.

End ReorderFacts.

Section ReorderTheorems.
Import Frame Reorder FrameFacts ReorderFacts Examples.

Lemma small_wf : wf small.
Proof.
  unfold wf, small; simpl.
  repeat split; repeat constructor; simpl; intuition discriminate.
Qed.

(** X23.  On a matrix with distinct labels, [reorder_by_sum] orders the
    row labels as the library sort orders the row sums and the column
    labels as it orders the column sums: both are permutations of the
    input labels and the sums run from largest to smallest.  The order
    among labels of equal sum is the sort's: it is the input order when
    the sort is stable.  (Whether the library's default sort is stable
    on a given series is not decided here.) *)
Theorem reorder_by_sum_sorts (sort_values : Series -> Series) (M : DataFrame) :
  sort_contract sort_values -> wf M ->
  let R := reorder_by_sum sort_values M in
  index R = map fst (sort_values (sum_axis1 M)) /\
  columns R = map fst (sort_values (sum_axis0 M)) /\
  Permutation (index R) (index M) /\ descending (sum_axis1 R) /\
  Permutation (columns R) (columns M) /\ descending (sum_axis0 R) /\
  (stable sort_values ->
   (forall a b v, In (a, v) (sum_axis1 M) -> In (b, v) (sum_axis1 M) ->
                  before a b (index M) -> before a b (index R)) /\
   (forall a b v, In (a, v) (sum_axis0 M) -> In (b, v) (sum_axis0 M) ->
                  before a b (columns M) -> before a b (columns R))).
Proof.
  intros Hc Hwf R. pose proof (sort_perm _ Hc) as Hp.
  assert (Hi : index R = map fst (sort_values (sum_axis1 M)))
    by now apply reorder_index.
  assert (Hk : columns R = map fst (sort_values (sum_axis0 M)))
    by now apply reorder_columns.
  repeat split; trivial.
  - rewrite Hi. now apply new_row_order_perm.
  - unfold R. rewrite reorder_sum_axis1 by assumption. apply (sort_desc _ Hc).
  - rewrite Hk. now apply new_col_order_perm.
  - unfold R. rewrite reorder_sum_axis0 by assumption. apply (sort_desc _ Hc).
  - intros a b v Ha Hb Hab. rewrite Hi.
    apply (before_map fst (a, v) (b, v)), stable_before; trivial.
    apply before_keys; trivial; rewrite sum_axis_keys1 by apply Hwf;
      [apply Hwf | exact Hab].
  - intros a b v Ha Hb Hab. rewrite Hk.
    apply (before_map fst (a, v) (b, v)), stable_before; trivial.
    apply before_keys; trivial; rewrite sum_axis_keys0;
      [apply Hwf | exact Hab].
Qed.

Lemma reorder_by_sum_sorts_witness :
  index (reorder_by_sum sort_values_stable small) = ["run"; "init"; "load"] /\
  columns (reorder_by_sum sort_values_stable small) = ["run"; "init"; "load"] /\
  before "init" "load" (index (reorder_by_sum sort_values_stable small)) /\
  before "init" "load" (columns (reorder_by_sum sort_values_stable small)).
Proof.
  destruct (reorder_by_sum_sorts sort_values_stable small
              sort_values_stable_contract small_wf)
    as (Hi & Hc & _ & _ & _ & _ & Hties).
  destruct (Hties sort_values_stable_stable) as (Hrows & Hcols).
  split; [rewrite Hi; reflexivity|].
  split; [rewrite Hc; reflexivity|].
  split.
  - apply (Hrows "init" "load" 1%Z).
    + now left.
    + right. now left.
    + now exists [], [], ["run"].
  - apply (Hcols "init" "load" 1%Z).
    + now left.
    + right. now left.
    + now exists [], [], ["run"].
Defined.

(** C4.  Taking the column sums after the rows have been reordered, as
    the program does, gives the same frame as taking both sums on the
    matrix as given and applying the two orders, in either sequence. *)
Theorem reorder_two_phase_independent (sort_values : Series -> Series)
  (M : DataFrame) :
  (forall s, Permutation (sort_values s) s) -> wf M ->
  reorder_by_sum sort_values M = reorder_independent sort_values M /\
  reorder_by_sum sort_values M = reorder_independent' sort_values M.
Proof.
  intros Hp Hwf. split.
  - now apply reorder_two_phase.
  - rewrite reorder_two_phase by assumption.
    unfold reorder_independent, reorder_independent'.
    symmetry. apply loc_rows_getitem_cols, Hwf.
Qed.

Lemma reorder_two_phase_independent_witness :
  reorder_by_sum sort_values_stable small
  = reorder_independent sort_values_stable small /\
  reorder_by_sum sort_values_stable small
  = reorder_independent' sort_values_stable small.
Proof.
  exact (reorder_two_phase_independent sort_values_stable small
           (sort_perm _ sort_values_stable_contract) small_wf).
Defined.

(** X24.  Reordering a reordered matrix leaves its row sums and its
    column sums in the same sequence; with a stable sort it changes
    nothing at all.  (Whether the library's default sort is stable on a
    given series is not decided here.) *)
Theorem reorder_by_sum_idempotent (sort_values : Series -> Series)
  (M : DataFrame) :
  sort_contract sort_values -> wf M ->
  let R := reorder_by_sum sort_values M in
  map snd (sum_axis1 (reorder_by_sum sort_values R)) = map snd (sum_axis1 R) /\
  map snd (sum_axis0 (reorder_by_sum sort_values R)) = map snd (sum_axis0 R) /\
  (stable sort_values -> reorder_by_sum sort_values R = R).
Proof.
  intros Hc Hwf R. pose proof (sort_perm _ Hc) as Hp.
  assert (HR : wf R) by now apply reorder_by_sum_wf.
  assert (D1 : descending (sum_axis1 R)).
  { unfold R. rewrite reorder_sum_axis1 by assumption. apply (sort_desc _ Hc). }
  assert (D0 : descending (sum_axis0 R)).
  { unfold R. rewrite reorder_sum_axis0 by assumption. apply (sort_desc _ Hc). }
  split; [|split].
  - rewrite reorder_sum_axis1 by assumption.
    now apply sort_values_of_descending.
  - rewrite reorder_sum_axis0 by assumption.
    now apply sort_values_of_descending.
  - intros Hst.
    assert (H1 : sort_values (sum_axis1 R) = sum_axis1 R)
      by now apply stable_fixed.
    assert (H0 : sort_values (sum_axis0 R) = sum_axis0 R)
      by now apply stable_fixed.
    unfold reorder_by_sum at 1.
    rewrite H1, sum_axis_keys1 by apply HR.
    rewrite loc_rows_self by assumption.
    rewrite H0, sum_axis_keys0.
    now apply getitem_cols_self.
Qed.

Lemma reorder_by_sum_idempotent_witness :
  reorder_by_sum sort_values_stable (reorder_by_sum sort_values_stable small)
  = reorder_by_sum sort_values_stable small.
Proof.
  apply (reorder_by_sum_idempotent sort_values_stable small
           sort_values_stable_contract small_wf).
  exact sort_values_stable_stable.
Defined.

End ReorderTheorems.

(** ** Dictionaries *)

Module DictFacts.
Import Dict.

Section Facts.
Context {V : Type}.
Implicit Types (d : dict V) (k : string) (v : V).

Lemma get_set_same d k v : get k (set k v d) = Some v.
Proof.
  induction d as [|[k' v'] d IH]; simpl.
  - now rewrite String.eqb_refl.
  - destruct (String.eqb k' k) eqn:E; simpl; now rewrite E.
Qed.

Lemma get_set_other d k k' v : k' <> k -> get k' (set k v d) = get k' d.
Proof.
  intros Hk. assert (Hk' : String.eqb k k' = false).
  { apply String.eqb_neq. congruence. }
  induction d as [|[k0 v0] d IH]; simpl.
  - now rewrite Hk'.
  - destruct (String.eqb_spec k0 k) as [->|E]; simpl.
    + now rewrite Hk'.
    + now rewrite IH.
Qed.

Lemma in_keys_set d k k' v :
  In k' (keys (set k v d)) <-> k' = k \/ In k' (keys d).
Proof.
  unfold keys. induction d as [|[k0 v0] d IH]; simpl.
  - intuition.
  - destruct (String.eqb_spec k0 k) as [->|E]; simpl.
    + intuition.
    + rewrite IH. intuition.
Qed.

Lemma keys_set_nodup d k v : NoDup (keys d) -> NoDup (keys (set k v d)).
Proof.
  unfold keys. induction d as [|[k0 v0] d IH]; simpl; intros Hnd.
  - repeat constructor. easy.
  - inversion Hnd as [|? ? Hk Hd]; subst.
    destruct (String.eqb_spec k0 k) as [->|E]; simpl.
    + now constructor.
    + constructor; [|now apply IH].
      intros H. apply (in_keys_set d k k0 v) in H as [H|H]; auto.
Qed.

Lemma keys_update d k (f : V -> V) : keys (update k f d) = keys d.
Proof.
  unfold keys. induction d as [|[k0 v0] d IH]; simpl; [reflexivity|].
  destruct (String.eqb k0 k); simpl; now rewrite ?IH.
Qed.

Lemma get_update_same d k (f : V -> V) :
  get k (update k f d) = option_map f (get k d).
Proof.
  induction d as [|[k0 v0] d IH]; simpl; [reflexivity|].
  destruct (String.eqb k0 k) eqn:E; simpl; now rewrite E.
Qed.

Lemma get_update_other d k k' (f : V -> V) :
  k' <> k -> get k' (update k f d) = get k' d.
Proof.
  intros Hk. assert (Hk' : String.eqb k k' = false).
  { apply String.eqb_neq. congruence. }
  induction d as [|[k0 v0] d IH]; simpl; [reflexivity|].
  destruct (String.eqb_spec k0 k) as [->|E]; simpl.
  - now rewrite Hk'.
  - now rewrite IH.
Qed.

Lemma get_in d k v : get k d = Some v -> In (k, v) d.
Proof.
  induction d as [|[k0 v0] d IH]; simpl; [easy|].
  destruct (String.eqb_spec k0 k) as [->|E].
  - intros [= ->]. now left.
  - intros H. right. now apply IH.
Qed.

Lemma in_get d k v : NoDup (keys d) -> In (k, v) d -> get k d = Some v.
Proof.
  unfold keys. induction d as [|[k0 v0] d IH]; simpl; intros Hnd H; [easy|].
  inversion Hnd as [|? ? Hk Hd]; subst.
  destruct H as [[= -> ->]|H].
  - now rewrite String.eqb_refl.
  - destruct (String.eqb_spec k0 k) as [->|E]; [|now apply IH].
    exfalso. apply Hk. now apply (in_map fst _ _ H).
Qed.

Lemma get_keys d k v : get k d = Some v -> In k (keys d).
Proof. intros H. apply get_in in H. now apply (in_map fst _ _ H). Qed.

Lemma get_none d k : ~ In k (keys d) -> get k d = None.
Proof.
  intros H. destruct (get k d) eqn:E; [|reflexivity].
  exfalso. now apply H, (get_keys d k v).
Qed.
End Facts.

End DictFacts.

(** ** The assembler *)

Module AssemblerFacts.
Import Frame Scanner Assembler DictFacts.

Lemma index_of_some (label : string) (axis : list string) (i : nat) :
  index_of label axis = Some i -> nth_error axis i = Some label.
Proof.
  revert i. induction axis as [|a axis IH]; simpl; intros i; [easy|].
  destruct (String.eqb_spec a label) as [->|E].
  - now intros [= <-].
  - destruct (index_of label axis); simpl; [|easy].
    intros [= <-]. now apply IH.
Qed.

Lemma index_of_lt (label : string) (axis : list string) (i : nat) :
  index_of label axis = Some i -> i < List.length axis.
Proof.
  intros H. apply index_of_some in H. apply nth_error_Some. congruence.
Qed.

Lemma index_of_in (label : string) (axis : list string) :
  In label axis -> exists i, index_of label axis = Some i.
Proof.
  induction axis as [|a axis IH]; simpl; [easy|].
  destruct (String.eqb_spec a label) as [->|E]; [now exists 0|].
  intros [H|H]; [easy|]. destruct (IH H) as (i & ->). now exists (S i).
Qed.

Lemma index_of_none (label : string) (axis : list string) :
  ~ In label axis -> index_of label axis = None.
Proof.
  intros H. destruct (index_of label axis) eqn:E; [|reflexivity].
  exfalso. apply H. apply index_of_some in E. now apply nth_error_In in E.
Qed.

Lemma index_of_inj (l l' : string) (axis : list string) (i : nat) :
  index_of l axis = Some i -> index_of l' axis = Some i -> l = l'.
Proof.
  intros H H'. apply index_of_some in H, H'. congruence.
Qed.

Lemma update_nth_length {A} (i : nat) (f : A -> A) (l : list A) :
  List.length (update_nth i f l) = List.length l.
Proof.
  revert i. induction l as [|x l IH]; intros [|i]; simpl; auto.
Qed.

Lemma nth_update_nth {A} (i i' : nat) (f : A -> A) (l : list A) (d : A) :
  i < List.length l ->
  nth i' (update_nth i f l) d
  = if Nat.eqb i' i then f (nth i l d) else nth i' l d.
Proof.
  revert i i'. induction l as [|x l IH]; intros [|i] [|i']; simpl;
    intros H; try lia; trivial.
  apply IH. lia.
Qed.

Lemma nth_error_update_nth {A} (j j' : nat) (f : A -> A) (l : list A) :
  nth_error (update_nth j f l) j'
  = if Nat.eqb j' j then option_map f (nth_error l j) else nth_error l j'.
Proof.
  revert j j'. induction l as [|x l IH]; intros [|j] [|j']; simpl; trivial;
    now destruct (Nat.eqb _ _).
Qed.

Lemma update_nth_forall {A} (P : A -> Prop) (i : nat) (f : A -> A)
  (l : list A) :
  (forall x, P x -> P (f x)) -> Forall P l -> Forall P (update_nth i f l).
Proof.
  intros Hf. revert i. induction l as [|x l IH]; intros [|i] H; simpl;
    inversion H; subst; constructor; auto.
Qed.

Lemma zeros_shaped (rows cols : list string) : shaped (zeros rows cols).
Proof.
  split; simpl.
  - apply repeat_length.
  - apply Forall_forall. intros row H. apply repeat_spec in H. subst.
    apply repeat_length.
Qed.

Lemma set_at_index (M : DataFrame) (r c : string) (v : Z) :
  index (set_at M r c v) = index M.
Proof.
  unfold set_at. now destruct (index_of r (index M)), (index_of c (columns M)).
Qed.

Lemma set_at_columns (M : DataFrame) (r c : string) (v : Z) :
  columns (set_at M r c v) = columns M.
Proof.
  unfold set_at. now destruct (index_of r (index M)), (index_of c (columns M)).
Qed.

Lemma set_at_shaped (M : DataFrame) (r c : string) (v : Z) :
  shaped M -> shaped (set_at M r c v).
Proof.
  intros (Hlen & Hrows). unfold shaped. rewrite set_at_index, set_at_columns.
  unfold set_at.
  destruct (index_of r (index M)), (index_of c (columns M)); simpl; auto.
  split; [now rewrite update_nth_length|].
  apply update_nth_forall; [|assumption].
  intros row H. now rewrite update_nth_length.
Qed.

(** Reading a cell after writing one. *)
Lemma at_set_at (M : DataFrame) (r c r' c' : string) (v : Z) :
  shaped M -> In r (index M) -> In c (columns M) ->
  at_ (set_at M r c v) r' c'
  = if String.eqb r' r && String.eqb c' c then Some v else at_ M r' c'.
Proof.
  intros (Hlen & Hrows) Hr Hc.
  destruct (index_of_in _ _ Hr) as (i & Hi).
  destruct (index_of_in _ _ Hc) as (j & Hj).
  pose proof (index_of_lt _ _ _ Hi) as Li.
  pose proof (index_of_lt _ _ _ Hj) as Lj.
  unfold at_, set_at. rewrite Hi, Hj. simpl.
  destruct (index_of r' (index M)) as [i'|] eqn:Hi'.
  2:{ destruct (String.eqb_spec r' r) as [->|_]; [congruence|reflexivity]. }
  destruct (index_of c' (columns M)) as [j'|] eqn:Hj'.
  2:{ destruct (String.eqb_spec c' c) as [->|_]; [congruence|].
      now rewrite andb_false_r. }
  rewrite nth_update_nth by lia.
  destruct (Nat.eqb_spec i' i) as [->|Ei].
  - rewrite (index_of_inj _ _ _ _ Hi' Hi), String.eqb_refl. simpl.
    rewrite nth_error_update_nth.
    destruct (Nat.eqb_spec j' j) as [->|Ej].
    + rewrite (index_of_inj _ _ _ _ Hj' Hj), String.eqb_refl.
      assert (Hrow : j < List.length (nth i (values M) [])).
      { rewrite Forall_forall in Hrows. rewrite Hrows; [assumption|].
        apply nth_In. lia. }
      apply nth_error_Some in Hrow.
      now destruct (nth_error (nth i (values M) []) j).
    + destruct (String.eqb_spec c' c) as [->|_]; [congruence|reflexivity].
  - destruct (String.eqb_spec r' r) as [->|_]; [congruence|reflexivity].
Qed.

Lemma at_zeros (U : list string) (r c : string) :
  In r U -> In c U -> at_ (zeros U U) r c = Some 0%Z.
Proof.
  intros Hr Hc.
  destruct (index_of_in _ _ Hr) as (i & Hi).
  destruct (index_of_in _ _ Hc) as (j & Hj).
  pose proof (index_of_lt _ _ _ Hi) as Li.
  pose proof (index_of_lt _ _ _ Hj) as Lj.
  unfold at_, zeros. simpl. rewrite Hi, Hj.
  rewrite nth_repeat_lt by assumption. now apply nth_error_repeat.
Qed.

Lemma at_absent_row (M : DataFrame) (r c : string) :
  ~ In r (index M) -> at_ M r c = None.
Proof. intros H. unfold at_. now rewrite index_of_none. Qed.

Lemma at_absent_column (M : DataFrame) (r c : string) :
  ~ In c (columns M) -> at_ M r c = None.
Proof.
  intros H. unfold at_. rewrite (index_of_none c) by assumption.
  now destruct (index_of r (index M)).
Qed.

Lemma existsb_eqb (x : string) (l : list string) :
  existsb (String.eqb x) l = true <-> In x l.
Proof.
  rewrite existsb_exists. split.
  - intros (y & Hy & E). apply String.eqb_eq in E. now subst.
  - intros H. exists x. split; [assumption|apply String.eqb_refl].
Qed.

Lemma records_call_true (d : routines) (callee caller : string) :
  records_call d callee caller = true <->
  exists callees, In (caller, callees) d /\ In callee callees.
Proof.
  unfold records_call. rewrite existsb_exists. split.
  - intros ([k l] & Hin & H). apply andb_true_iff in H as (Hk & Hl).
    simpl in *. apply String.eqb_eq in Hk. subst.
    exists l. split; [assumption|now apply existsb_eqb].
  - intros (l & Hin & Hl). exists (caller, l). split; [assumption|].
    simpl. rewrite String.eqb_refl. now apply existsb_eqb.
Qed.

Lemma fill_caller_spec (U : list string) (caller : string)
  (callees : list string) (M : DataFrame) :
  framed U M -> In caller U ->
  framed U (fill_caller U caller callees M) /\
  forall r c,
    at_ (fill_caller U caller callees M) r c
    = if String.eqb c caller && existsb (String.eqb r) callees
         && existsb (String.eqb r) U
      then Some 1%Z else at_ M r c.
Proof.
  intros HM Hcaller. revert M HM.
  induction callees as [|x callees IH]; intros M HM.
  - split; [exact HM|]. intros r c. simpl. now rewrite andb_false_r.
  - unfold fill_caller. simpl fold_left.
    set (M' := if existsb (String.eqb x) U then set_at M x caller 1%Z else M).
    fold (fill_caller U caller callees M').
    assert (HM' : framed U M').
    { unfold M'. destruct (existsb (String.eqb x) U); [|exact HM].
      destruct HM as (Hs & Hi & Hc). repeat split.
      - apply set_at_shaped, Hs.
      - apply set_at_shaped, Hs.
      - now rewrite set_at_index.
      - now rewrite set_at_columns. }
    destruct (IH M' HM') as (HF & Hat). split; [exact HF|].
    intros r c. rewrite Hat. clear Hat IH HF HM'.
    assert (E : at_ M' r c
                = if existsb (String.eqb x) U
                     && (String.eqb r x && String.eqb c caller)
                  then Some 1%Z else at_ M r c).
    { unfold M'. destruct (existsb (String.eqb x) U) eqn:Ex; [|reflexivity].
      destruct HM as (Hs & Hi & Hc). apply existsb_eqb in Ex.
      rewrite at_set_at; trivial; congruence. }
    rewrite E. simpl existsb.
    destruct (String.eqb_spec r x) as [Hrx|Hrx]; [subst r|];
      destruct (String.eqb c caller);
      repeat match goal with
             | |- context [existsb ?f ?l] => destruct (existsb f l)
             end; reflexivity.
Qed.

Lemma fill_spec (U : list string) (d : routines) (M : DataFrame) :
  framed U M -> Forall (fun item => In (fst item) U) d ->
  framed U (fill U d M) /\
  forall r c,
    at_ (fill U d M) r c
    = if records_call d r c && existsb (String.eqb r) U
      then Some 1%Z else at_ M r c.
Proof.
  intros HM Hd. revert M HM.
  induction d as [|[caller callees] d IH]; intros M HM.
  - split; [exact HM|]. reflexivity.
  - inversion Hd as [|? ? Hcaller Hd']; subst. simpl in Hcaller.
    unfold fill. simpl fold_left.
    fold (fill U d (fill_caller U caller callees M)).
    destruct (fill_caller_spec U caller callees M HM Hcaller) as (HM' & Hat').
    destruct (IH Hd' _ HM') as (HF & Hat). split; [exact HF|].
    intros r c. rewrite Hat, Hat'. unfold records_call. simpl.
    fold (records_call d r c). rewrite (String.eqb_sym caller c).
    destruct (records_call d r c);
      destruct (String.eqb c caller);
      destruct (existsb (String.eqb r) callees);
      destruct (existsb (String.eqb r) U); reflexivity.
Qed.

Lemma sorted_perm (names : list string) : Permutation (sorted names) names.
Proof. apply isort_perm. Qed.

Lemma sorted_ascending (names : list string) :
  Sorted (fun a b => String.leb a b = true) (sorted names).
Proof.
  apply isort_sorted; [trivial|].
  intros x y H. destruct (String.leb_total x y); congruence.
Qed.

Lemma leb_ltb (a b : string) :
  String.leb a b = true -> a <> b -> String.ltb a b = true.
Proof.
  unfold String.leb, String.ltb. intros H Hne.
  destruct (String.compare a b) eqn:E; trivial.
  now apply String.compare_eq_iff in E.
Qed.

Lemma sorted_strict (names : list string) :
  NoDup names -> Sorted (fun a b => String.ltb a b = true) (sorted names).
Proof.
  intros Hnd.
  assert (Hnd' : NoDup (sorted names))
    by apply (Permutation_NoDup (Permutation_sym (sorted_perm names)) Hnd).
  pose proof (sorted_ascending names) as Hs.
  induction Hs as [|x l Hl IH Hhd]; [constructor|].
  inversion Hnd' as [|? ? Hx Hnl]; subst.
  constructor; [now apply IH|].
  destruct Hhd as [|y l' Hxy]; constructor.
  apply leb_ltb; [assumption|]. intros ->. apply Hx. now left.
Qed.

Lemma in_universe (d : routines) (name : string) :
  In name (universe d) <-> In name (Dict.keys d).
Proof.
  unfold universe. split; apply Permutation_in.
  - apply sorted_perm.
  - apply Permutation_sym, sorted_perm.
Qed.

Lemma assemble_framed (d : routines) :
  framed (universe d) (assemble d) /\
  forall r c,
    at_ (assemble d) r c
    = if records_call d r c && existsb (String.eqb r) (universe d)
      then Some 1%Z else at_ (zeros (universe d) (universe d)) r c.
Proof.
  apply fill_spec.
  - repeat split. apply zeros_shaped. apply zeros_shaped.
  - apply Forall_forall. intros [k l] H. apply in_universe.
    now apply (in_map fst _ _ H).
Qed.

End AssemblerFacts.

Section AssemblerTheorems.
Import Frame Scanner Assembler DictFacts AssemblerFacts Examples.

(** C3.  The assembled matrix is square; its row labels and its column
    labels are the keys of the mapping in strictly ascending order; a
    cell (callee, caller) holds 1 exactly when the callee is a key and
    occurs in the caller's list, and 0 otherwise; a name that is no key
    labels no row and no column. *)
Theorem assemble_matrix (all_routines : routines) :
  NoDup (Dict.keys all_routines) ->
  let M := assemble all_routines in
  let U := universe all_routines in
  index M = U /\ columns M = U /\
  Permutation U (Dict.keys all_routines) /\ NoDup U /\
  Sorted (fun a b => String.ltb a b = true) U /\
  List.length (values M) = List.length U /\
  Forall (fun row => List.length row = List.length U) (values M) /\
  (forall callee caller,
     at_ M callee caller = Some 1%Z <->
     In callee U /\
     exists callees, Dict.get caller all_routines = Some callees
                     /\ In callee callees) /\
  (forall callee caller, In callee U -> In caller U ->
     at_ M callee caller = Some 1%Z \/ at_ M callee caller = Some 0%Z) /\
  (forall name, ~ In name (Dict.keys all_routines) ->
     ~ In name (index M) /\ ~ In name (columns M)).
Proof.
  intros Hnd M U.
  destruct (assemble_framed all_routines) as (((Hlen & Hrows) & Hi & Hc) & Hat).
  fold M U in Hlen, Hrows, Hi, Hc, Hat.
  assert (HU : Permutation U (Dict.keys all_routines)) by apply sorted_perm.
  split; [exact Hi|]. split; [exact Hc|]. split; [exact HU|].
  split; [apply (Permutation_NoDup (Permutation_sym HU) Hnd)|].
  split; [now apply sorted_strict|].
  split; [now rewrite Hlen, Hi|].
  split; [now rewrite Hc in Hrows|].
  split; [|split].
  - intros callee caller. rewrite Hat. split.
    + destruct (records_call all_routines callee caller) eqn:Hr;
        destruct (existsb (String.eqb callee) U) eqn:Hu; simpl.
      * intros _. apply existsb_eqb in Hu. split; [assumption|].
        apply records_call_true in Hr as (l & Hin & Hl).
        exists l. split; [now apply in_get|assumption].
      * intros H. rewrite at_absent_row in H; [discriminate|].
        simpl. intros H'. apply existsb_eqb in H'. congruence.
      * intros H. exfalso. apply existsb_eqb in Hu.
        destruct (in_dec string_dec caller U) as [Hin|Hn].
        -- rewrite at_zeros in H by assumption. discriminate.
        -- rewrite at_absent_column in H; [discriminate|exact Hn].
      * intros H. rewrite at_absent_row in H; [discriminate|].
        simpl. intros H'. apply existsb_eqb in H'. congruence.
    + intros (Hu & l & Hget & Hl).
      apply existsb_eqb in Hu. rewrite Hu.
      replace (records_call all_routines callee caller) with true;
        [reflexivity|].
      symmetry. apply records_call_true. exists l.
      split; [now apply get_in|assumption].
  - intros callee caller Hcallee Hcaller. rewrite Hat.
    destruct (records_call all_routines callee caller
              && existsb (String.eqb callee) U); [now left|right].
    now apply at_zeros.
  - intros name Hn. rewrite Hi, Hc.
    split; intros H; apply Hn; now apply in_universe.
Qed.

Lemma assemble_matrix_witness :
  at_ (assemble alpha_beta) "beta" "alpha" = Some 1%Z /\
  index (assemble alpha_beta) = ["alpha"; "beta"] /\
  ~ In "gamma" (index (assemble alpha_beta)).
Proof.
  assert (Hnd : NoDup (Dict.keys alpha_beta)).
  { repeat constructor; simpl; intuition discriminate. }
  destruct (assemble_matrix alpha_beta Hnd)
    as (Hi & _ & _ & _ & _ & _ & _ & Hcell & _ & Habsent).
  split; [|split].
  - apply Hcell. split; [simpl; tauto|].
    exists ["beta"; "gamma"]. split; [reflexivity|now left].
  - rewrite Hi. reflexivity.
  - apply Habsent. simpl. intuition discriminate.
Defined.

End AssemblerTheorems.

(** ** The scanner *)

Module ScannerFacts.
Import Text Regex Source Scanner DictFacts.

Lemma record_calls_keys (name : string) (calls : list string) (d : routines) :
  Dict.keys (record_calls name calls d) = Dict.keys d.
Proof.
  unfold record_calls. revert d.
  induction calls as [|c calls IH]; intros d; simpl; [reflexivity|].
  rewrite IH. destruct (String.eqb (lower c) name); [reflexivity|].
  apply keys_update.
Qed.

Lemma record_calls_same (name : string) (calls : list string) (d : routines) :
  Dict.get name (record_calls name calls d)
  = option_map (fun l => l ++ kept_calls name calls) (Dict.get name d).
Proof.
  unfold record_calls, kept_calls. revert d.
  induction calls as [|c calls IH]; intros d; simpl.
  - destruct (Dict.get name d); simpl; [|reflexivity].
    now rewrite app_nil_r.
  - rewrite IH. destruct (String.eqb (lower c) name); simpl; [reflexivity|].
    rewrite get_update_same. destruct (Dict.get name d); simpl; [|reflexivity].
    now rewrite <- app_assoc.
Qed.

Lemma record_calls_other (name other : string) (calls : list string)
  (d : routines) :
  other <> name ->
  Dict.get other (record_calls name calls d) = Dict.get other d.
Proof.
  intros Hne. unfold record_calls. revert d.
  induction calls as [|c calls IH]; intros d; simpl; [reflexivity|].
  rewrite IH. destruct (String.eqb (lower c) name); [reflexivity|].
  now apply get_update_other.
Qed.

Lemma kept_calls_not_self (name : string) (calls : list string) :
  ~ In name (kept_calls name calls).
Proof.
  unfold kept_calls. intros H. apply filter_In in H as (_ & H).
  now rewrite String.eqb_refl in H.
Qed.

Lemma no_self_empty : no_self [].
Proof. split; [constructor|easy]. Qed.

Lemma no_self_set (d : routines) (name : string) :
  no_self d -> no_self (Dict.set name [] d).
Proof.
  intros (Hnd & Hself). split; [now apply keys_set_nodup|].
  intros k l. destruct (string_dec k name) as [->|Hne].
  - rewrite get_set_same. now intros [= <-].
  - rewrite get_set_other by assumption. apply Hself.
Qed.

Lemma no_self_record_calls (d : routines) (name : string)
  (calls : list string) :
  no_self d -> no_self (record_calls name calls d).
Proof.
  intros (Hnd & Hself). split; [now rewrite record_calls_keys|].
  intros k l. destruct (string_dec k name) as [->|Hne].
  - rewrite record_calls_same.
    destruct (Dict.get name d) as [l0|] eqn:E; simpl; [|easy].
    intros [= <-] H. apply in_app_or in H as [H|H].
    + now apply (Hself name l0).
    + now apply (kept_calls_not_self name calls).
  - rewrite record_calls_other by assumption. apply Hself.
Qed.

Lemma no_self_scan_line (st : routines * option string) (line : string) :
  no_self (fst st) -> no_self (fst (scan_line st line)).
Proof.
  destruct st as [d cur]. simpl. intros H. unfold scan_line.
  destruct (re_match routine_start line) as [gs|].
  - destruct (truthy (Some (lower (group 1 gs)))); simpl.
    + now apply no_self_record_calls, no_self_set.
    + now apply no_self_set.
  - destruct (re_match routine_end line).
    + simpl. exact H.
    + destruct (truthy cur); simpl; [|exact H].
      now apply no_self_record_calls.
Qed.

Lemma no_self_scan_lines (d : routines) (lines : list string) :
  no_self d -> no_self (scan_lines d lines).
Proof.
  unfold scan_lines. intros H.
  assert (G : forall st, no_self (fst st) ->
                         no_self (fst (fold_left scan_line lines st))).
  { induction lines as [|line lines IH]; intros st Hst; cbn [fold_left].
    - exact Hst.
    - now apply IH, no_self_scan_line. }
  now apply G.
Qed.

Lemma no_self_scan_listing (files : listing) : no_self (scan_listing files).
Proof.
  unfold scan_listing. generalize no_self_empty.
  generalize (@nil (string * list string)) as d.
  induction files as [|[name content] files IH]; intros d H;
    cbn [fold_left]; [exact H|].
  apply IH. cbn [fst snd]. destruct (endswith name ".f90"); [|exact H].
  now apply no_self_scan_lines.
Qed.

End ScannerFacts.

(** ** Regular expressions *)

Module RegexFacts.
Import Text Regex.

Lemma suffix_refl (s : string) : suffix s s.
Proof. now exists ""%string. Qed.

Lemma suffix_cons (c : ascii) (s' s : string) :
  suffix s' s -> suffix s' (String c s).
Proof. intros (p & ->). now exists (String c p). Qed.

Lemma suffix_trans (s1 s2 s3 : string) :
  suffix s1 s2 -> suffix s2 s3 -> suffix s1 s3.
Proof.
  intros (p & ->) (q & ->). exists (q ++ p)%string.
  induction q as [|c q IH]; simpl; [reflexivity|]. now rewrite IH.
Qed.

Lemma suffix_length (s' s : string) :
  suffix s' s -> String.length s' <= String.length s.
Proof.
  intros (p & ->). induction p as [|c p IH]; simpl; lia.
Qed.

Lemma contains_suffix (c : ascii) (s' s : string) :
  suffix s' s -> contains c s' = true -> contains c s = true.
Proof.
  intros (p & ->) H. induction p as [|a p IH]; simpl; [assumption|].
  rewrite IH. apply orb_true_r.
Qed.

Lemma in_re_seq (m1 m2 : matcher) (st st' : state) :
  In st' (re_seq m1 m2 st) <-> exists st1, In st1 (m1 st) /\ In st' (m2 st1).
Proof. apply in_flat_map. Qed.

Lemma tame_seq (m1 m2 : matcher) : tame m1 -> tame m2 -> tame (re_seq m1 m2).
Proof.
  intros H1 H2 st st' H. apply in_re_seq in H as (st1 & Ha & Hb).
  destruct (H1 _ _ Ha) as (S1 & G1), (H2 _ _ Hb) as (S2 & G2).
  split; [now apply (suffix_trans _ _ _ S2)|congruence].
Qed.

Lemma tame_alt (m1 m2 : matcher) : tame m1 -> tame m2 -> tame (re_alt m1 m2).
Proof.
  intros H1 H2 st st' H. apply in_app_or in H as [H|H]; auto.
Qed.

Lemma tame_opt (m : matcher) : tame m -> tame (re_opt m).
Proof.
  intros Hm st st' H. apply in_app_or in H as [H|[<-|[]]]; auto.
  split; [apply suffix_refl|reflexivity].
Qed.

Lemma tame_bol : tame re_bol.
Proof.
  intros st st' H. unfold re_bol in H.
  destruct (prev st); [easy|]. destruct H as [<-|[]].
  split; [apply suffix_refl|reflexivity].
Qed.

Lemma tame_lookbehind (p : ascii -> bool) : tame (re_lookbehind p).
Proof.
  intros st st' H. unfold re_lookbehind in H.
  destruct (prev st) as [c|]; [|easy]. destruct (p c); [|easy].
  destruct H as [<-|[]]. split; [apply suffix_refl|reflexivity].
Qed.

Lemma lit_from_suffix (w : string) (pv pv' : option ascii) (s s' : string) :
  lit_from w pv s = Some (pv', s') -> suffix s' s.
Proof.
  revert pv s. induction w as [|a w IH]; intros pv s; simpl.
  - intros [= _ <-]. apply suffix_refl.
  - destruct s as [|c s]; [easy|].
    destruct (Ascii.eqb (lower_char a) (lower_char c)); [|easy].
    intros H. apply suffix_cons. now apply (IH _ _ H).
Qed.

Lemma tame_lit (w : string) : tame (re_lit w).
Proof.
  intros st st' H. unfold re_lit in H.
  destruct (lit_from w (prev st) (rest st)) as [[pv s]|] eqn:E; [|easy].
  destruct H as [<-|[]]. simpl. split; [|reflexivity].
  now apply (lit_from_suffix _ _ _ _ _ E).
Qed.

Lemma star_from_suffix (p : ascii -> bool) (pv : option ascii) (s : string)
  (r : option ascii * string) :
  In r (star_from p pv s) -> suffix (snd r) s.
Proof.
  revert pv. induction s as [|c s IH]; intros pv; simpl.
  - intros [<-|[]]. apply suffix_refl.
  - destruct (p c).
    + intros H. apply in_app_or in H as [H|[<-|[]]].
      * apply suffix_cons. now apply (IH _ H).
      * apply suffix_refl.
    + intros [<-|[]]. apply suffix_refl.
Qed.

Lemma tame_star (p : ascii -> bool) : tame (re_star p).
Proof.
  intros st st' H. unfold re_star in H.
  apply in_map_iff in H as (r & <- & H). simpl. split; [|reflexivity].
  now apply (star_from_suffix _ _ _ _ H).
Qed.

(** [c+] consumes a character. *)
Lemma re_plus_inv (p : ascii -> bool) (st st' : state) :
  In st' (re_plus p st) ->
  exists c s, rest st = String c s /\ suffix (rest st') s
              /\ groups st' = groups st.
Proof.
  unfold re_plus. destruct (rest st) as [|c s] eqn:E; [easy|].
  destruct (p c); [|easy]. intros H.
  destruct (tame_star p _ _ H) as (Hs & Hg). simpl in *.
  now exists c, s.
Qed.

Lemma tame_plus (p : ascii -> bool) : tame (re_plus p).
Proof.
  intros st st' H. apply re_plus_inv in H as (c & s & E & Hs & Hg).
  split; [|assumption]. rewrite E. now apply suffix_cons.
Qed.

(** A group around [c+] captures a word that is not empty. *)
Lemma re_group_plus (p : ascii -> bool) (st st' : state) :
  In st' (re_group (re_plus p) st) ->
  suffix (rest st') (rest st) /\
  exists c w, groups st' = groups st ++ [String c w].
Proof.
  unfold re_group. intros H. apply in_map_iff in H as (st1 & <- & H).
  apply re_plus_inv in H as (c & s & E & Hs & Hg). simpl.
  split; [rewrite E; now apply suffix_cons|].
  rewrite Hg, E. apply suffix_length in Hs. simpl String.length.
  rewrite Nat.sub_succ_l by assumption. simpl. eauto.
Qed.

Lemma lower_nonempty (c : ascii) (w : string) :
  lower (String c w) <> ""%string.
Proof. easy. Qed.

Lemma paren_only (c : ascii) :
  Ascii.eqb (lower_char "(") (lower_char c) = true -> c = "("%char.
Proof.
  destruct c as [[] [] [] [] [] [] [] []]; vm_compute; congruence.
Qed.

(** The literal [\(] needs a parenthesis ahead. *)
Lemma re_lit_paren (st st' : state) :
  In st' (re_lit "(" st) -> contains "(" (rest st) = true.
Proof.
  unfold re_lit. destruct (rest st) as [|c s]; cbn [lit_from]; [easy|].
  destruct (Ascii.eqb (lower_char "(") (lower_char c)) eqn:E; [|easy].
  intros _. apply paren_only in E. subst. reflexivity.
Qed.

End RegexFacts.

Module PatternFacts.
Import Text Regex Scanner RegexFacts.

Lemma tame_keyword : tame (re_alt (re_lit "subroutine") (re_lit "function")).
Proof. apply tame_alt; apply tame_lit. Qed.

Lemma tame_recursive :
  tame (re_opt (re_seq (re_lit "recursive") (re_plus is_space))).
Proof. apply tame_opt, tame_seq; [apply tame_lit|apply tame_plus]. Qed.

(** A line that starts a routine names it: the group holds a word of at
    least one character. *)
Lemma routine_start_name (line : string) (gs : list string) :
  re_match routine_start line = Some gs -> exists c w, gs = [String c w].
Proof.
  unfold re_match, match_at.
  destruct (routine_start (mkState None line [])) as [|st l] eqn:E; [easy|].
  simpl. intros [= <-].
  assert (H : In st (routine_start (mkState None line [])))
    by (rewrite E; now left).
  clear E l. unfold routine_start in H.
  apply in_re_seq in H as (s1 & H1 & H).
  apply tame_bol in H1 as (_ & G1).
  apply in_re_seq in H as (s2 & H2 & H).
  apply tame_star in H2 as (_ & G2).
  apply in_re_seq in H as (s3 & H3 & H).
  apply tame_recursive in H3 as (_ & G3).
  apply in_re_seq in H as (s4 & H4 & H).
  apply tame_keyword in H4 as (_ & G4).
  apply in_re_seq in H as (s5 & H5 & H).
  apply tame_plus in H5 as (_ & G5).
  apply re_group_plus in H as (_ & c & w & G).
  exists c, w. rewrite G, G5, G4, G3, G2, G1. reflexivity.
Qed.

(** The call pattern matches nowhere in a text without a parenthesis. *)
Lemma call_pattern_paren (st : state) :
  contains "(" (rest st) = false -> call_pattern st = [].
Proof.
  intros Hn. destruct (call_pattern st) as [|st' l] eqn:E; [reflexivity|].
  exfalso.
  assert (H : In st' (call_pattern st)) by (rewrite E; now left).
  clear E l. unfold call_pattern in H.
  apply in_re_seq in H as (s1 & H1 & H).
  assert (S1 : suffix (rest s1) (rest st)).
  { revert H1. apply tame_alt.
    - apply tame_seq; [apply tame_lit|apply tame_plus].
    - apply tame_lookbehind. }
  apply in_re_seq in H as (s2 & H2 & H).
  apply re_group_plus in H2 as (S2 & _).
  apply in_re_seq in H as (s3 & H3 & H).
  apply tame_star in H3 as (S3 & _).
  apply re_lit_paren in H.
  rewrite (contains_suffix "(" (rest s3) (rest st)) in Hn;
    [discriminate| |exact H].
  eapply suffix_trans; [exact S3|]. eapply suffix_trans; [exact S2|exact S1].
Qed.

Lemma findall_from_paren (pv : option ascii) (s : string) :
  contains "(" s = false -> findall_from call_pattern pv s 0 = [].
Proof.
  revert pv. induction s as [|c s IH]; intros pv; simpl; [reflexivity|].
  intros H. unfold match_at. rewrite call_pattern_paren by exact H.
  apply orb_false_iff in H as (_ & H). now apply IH.
Qed.

End PatternFacts.

(** ** Calls without an argument list *)

Module BareFacts.
Import Text Regex Source Scanner Frame Assembler.
Import DictFacts AssemblerFacts ScannerFacts PatternFacts.

Lemma set_empty (d : routines) (name : string) :
  Forall (fun item => snd item = []) d ->
  Forall (fun item => snd item = []) (Dict.set name [] d).
Proof.
  induction 1 as [|[k v] d Hk Hd IH]; cbn [Dict.set].
  - now repeat constructor.
  - destruct (String.eqb k name); constructor; trivial.
Qed.

(** A line without a parenthesis adds no callee. *)
Lemma scan_line_bare (st : routines * option string) (line : string) :
  contains "(" line = false ->
  Forall (fun item => snd item = []) (fst st) ->
  Forall (fun item => snd item = []) (fst (scan_line st line)).
Proof.
  intros Hp Hd. destruct st as [d cur]. unfold scan_line.
  assert (E : findall call_pattern line = [])
    by (unfold findall; now rewrite findall_from_paren).
  rewrite E. cbn [fst] in Hd.
  destruct (re_match routine_start line) as [gs|].
  - destruct (truthy _); cbn [fst record_calls fold_left];
      now apply set_empty.
  - destruct (re_match routine_end line); [|destruct (truthy cur)];
      cbn [fst record_calls fold_left]; assumption.
Qed.

Lemma scan_lines_bare (d : routines) (lines : list string) :
  (forall line, In line lines -> contains "(" line = false) ->
  Forall (fun item => snd item = []) d ->
  Forall (fun item => snd item = []) (scan_lines d lines).
Proof.
  unfold scan_lines. generalize (@None string) as cur. revert d.
  induction lines as [|line lines IH]; intros d cur Hl Hd; cbn [fold_left];
    [exact Hd|].
  pose proof (scan_line_bare (d, cur) line (Hl line (or_introl eq_refl)) Hd)
    as H.
  destruct (scan_line (d, cur) line) as [d' cur']. apply IH; [|exact H].
  intros l Hin. apply Hl. now right.
Qed.

Lemma scan_listing_bare (files : listing) :
  (forall name content line,
     In (name, content) files -> endswith name ".f90" = true ->
     In line (logical_lines content) -> contains "(" line = false) ->
  Forall (fun item => snd item = []) (scan_listing files).
Proof.
  unfold scan_listing. generalize (@Forall_nil (string * list string)
                                     (fun item => snd item = [])).
  generalize (@nil (string * list string)) as d.
  induction files as [|[name content] files IH]; intros d Hd Hf;
    cbn [fold_left]; [exact Hd|].
  apply IH.
  - cbn [fst snd]. destruct (endswith name ".f90") eqn:E; [|exact Hd].
    apply scan_lines_bare; [|exact Hd].
    intros line Hl. apply (Hf name content line); trivial. now left.
  - intros n c l Hin. apply Hf. now right.
Qed.

(** A mapping whose lists are empty records no call. *)
Lemma records_call_empty (d : routines) (callee caller : string) :
  Forall (fun item => snd item = []) d -> records_call d callee caller = false.
Proof.
  unfold records_call. induction 1 as [|[k v] d Hk Hd IH]; [reflexivity|].
  cbn [existsb fst snd] in *. rewrite Hk, IH. cbn [existsb].
  now rewrite andb_false_r.
Qed.

End BareFacts.

Section ScannerTheorems.
Import Text Regex Source Scanner Frame Assembler Reorder Inventory Report.
Import DictFacts AssemblerFacts ScannerFacts RegexFacts PatternFacts Examples.
Import BareFacts.

(** C2 (the code departs from it).  A line without an opening
    parenthesis yields no call at all, so [call name] alone is not
    recorded. *)
Theorem call_needs_parenthesis (line : string) :
  contains "(" line = false -> findall call_pattern line = [].
Proof.
  intros H. unfold findall. now rewrite findall_from_paren.
Qed.

Lemma call_needs_parenthesis_witness :
  findall call_pattern "  call init" = [] /\
  scan_lines [] ["subroutine driver"; "  call init"; "end subroutine driver"]
  = [("driver", [])] /\
  scan_lines [] ["subroutine driver"; "  call init()"; "end subroutine driver"]
  = [("driver", ["init"])].
Proof.
  split; [apply call_needs_parenthesis; reflexivity|].
  split; reflexivity.
Defined.

Lemma assemble_cell (d : routines) (callee caller : string) :
  at_ (assemble d) callee caller
  = if records_call d callee caller && existsb (String.eqb callee) (universe d)
    then Some 1%Z
    else at_ (zeros (universe d) (universe d)) callee caller.
Proof. apply assemble_framed. Qed.

(** C5 (the code departs from it).  Whatever is scanned, no routine is
    in its own callee list and every diagonal cell is 0; when two
    routines are in each other's list, both cells between them are 1.
    But a call is in a list only if the scanner records it: in files
    of which no line has an opening parenthesis every list is empty and
    every cell is 0, so two routines that call each other by [call b]
    and [call a] get 0 and 0. *)
Theorem cycle_needs_parentheses (files : listing) :
  let d := scan_listing files in
  let M := assemble d in
  (forall name callees, Dict.get name d = Some callees -> ~ In name callees) /\
  (forall name, In name (Dict.keys d) -> at_ M name name = Some 0%Z) /\
  (forall a b la lb,
     Dict.get a d = Some la -> In b la ->
     Dict.get b d = Some lb -> In a lb ->
     at_ M a b = Some 1%Z /\ at_ M b a = Some 1%Z) /\
  ((forall name content line,
      In (name, content) files -> endswith name ".f90" = true ->
      In line (logical_lines content) -> contains "(" line = false) ->
   (forall name callees, Dict.get name d = Some callees -> callees = []) /\
   (forall a b, In a (Dict.keys d) -> In b (Dict.keys d) ->
                at_ M a b = Some 0%Z)).
Proof.
  intros d M. destruct (no_self_scan_listing files) as (Hnd & Hself).
  fold d in Hnd, Hself.
  assert (Hone : forall x y ly, Dict.get y d = Some ly -> In x ly ->
                                In x (Dict.keys d) -> at_ M x y = Some 1%Z).
  { intros x y ly Hy Hx Hk. unfold M. rewrite assemble_cell.
    replace (records_call d x y) with true.
    - replace (existsb (String.eqb x) (universe d)) with true; [reflexivity|].
      symmetry. now apply existsb_eqb, in_universe.
    - symmetry. apply records_call_true. exists ly.
      split; [now apply get_in|assumption]. }
  split; [exact Hself|]. split; [|split].
  - intros name Hk. unfold M. rewrite assemble_cell.
    replace (records_call d name name) with false.
    + apply at_zeros; now apply in_universe.
    + symmetry. apply not_true_is_false. intros H.
      apply records_call_true in H as (l & Hin & Hl).
      apply (Hself name l); [now apply in_get|assumption].
  - intros a b la lb Ha Hb Hb' Ha'. split.
    + apply (Hone a b lb); trivial. now apply (get_keys d a la).
    + apply (Hone b a la); trivial. now apply (get_keys d b lb).
  - intros Hbare. pose proof (scan_listing_bare files Hbare) as He.
    fold d in He. split.
    + intros name callees Hg. apply get_in in Hg.
      rewrite Forall_forall in He. apply (He _ Hg).
    + intros a b Ha Hb. unfold M. rewrite assemble_cell.
      rewrite (records_call_empty d a b He). cbn [andb].
      apply at_zeros; now apply in_universe.
Qed.

Lemma cycle_needs_parentheses_witness :
  scan_listing bare_cycle = [("ping", []); ("pong", [])] /\
  at_ (assemble (scan_listing bare_cycle)) "ping" "pong" = Some 0%Z /\
  at_ (assemble (scan_listing bare_cycle)) "pong" "ping" = Some 0%Z /\
  scan_listing mutual = [("ping", ["pong"]); ("pong", ["ping"])] /\
  at_ (assemble (scan_listing mutual)) "ping" "pong" = Some 1%Z /\
  at_ (assemble (scan_listing mutual)) "pong" "ping" = Some 1%Z.
Proof.
  split; [reflexivity|].
  destruct (cycle_needs_parentheses bare_cycle) as (_ & _ & _ & Hbare).
  destruct Hbare as (_ & Hzero).
  { intros name content line [E|[]] _ Hl. injection E as <- <-.
    vm_compute in Hl.
    repeat (destruct Hl as [<-|Hl]; [reflexivity|]). destruct Hl. }
  split; [apply Hzero; vm_compute; auto|].
  split; [apply Hzero; vm_compute; auto|].
  split; [reflexivity|].
  destruct (cycle_needs_parentheses mutual) as (_ & _ & Hcycle & _).
  apply (Hcycle "ping" "pong" ["pong"] ["ping"]);
    try reflexivity; now left.
Defined.

(** C6 (as amended).  A line that starts a routine sets the routine's
    list to the calls of that line alone, whatever the mapping held for
    the name before; the other entries are kept. *)
Theorem routine_start_resets (all_routines : routines)
  (current_routine : option string) (line : string) (gs : list string) :
  re_match routine_start line = Some gs ->
  let name := lower (group 1 gs) in
  let st := scan_line (all_routines, current_routine) line in
  snd st = Some name /\
  Dict.get name (fst st)
  = Some (kept_calls name (findall call_pattern line)) /\
  forall other, other <> name ->
                Dict.get other (fst st) = Dict.get other all_routines.
Proof.
  intros Hm name st.
  destruct (routine_start_name line gs Hm) as (c & w & ->).
  unfold st, scan_line. rewrite Hm. fold name.
  assert (Ht : truthy (Some name) = Some name) by reflexivity.
  rewrite Ht. cbn [fst snd]. split; [reflexivity|]. split.
  - rewrite record_calls_same, get_set_same. reflexivity.
  - intros other Hne. rewrite record_calls_other by assumption.
    now apply get_set_other.
Qed.

Lemma routine_start_resets_witness :
  Dict.get "a" (fst (scan_line ([("a", ["b"]); ("c", ["a"])], None)
                               "subroutine A(x) bind(c)"))
  = Some ["bind"] /\
  Dict.get "c" (fst (scan_line ([("a", ["b"]); ("c", ["a"])], None)
                               "subroutine A(x) bind(c)"))
  = Some ["a"].
Proof.
  destruct (routine_start_resets [("a", ["b"]); ("c", ["a"])] None
              "subroutine A(x) bind(c)" ["A"] eq_refl) as (_ & H & Hother).
  split; [exact H|]. apply Hother. discriminate.
Defined.

(** C6, as stated, fails: the second declaration of [a] empties the
    list the first one had filled. *)
Lemma redeclared_routine_forgets :
  scan_lines [] ["subroutine a"; "  call b()"; "end subroutine a"]
  = [("a", ["b"])] /\
  scan_lines [] ["subroutine a"; "  call b()"; "end subroutine a";
                 "subroutine a"; "end subroutine a"]
  = [("a", [])].
Proof. split; reflexivity. Qed.

(** C8 (the code departs from it).  On a path that does not exist the
    inventory prints its message and returns an empty table, while the
    matrix generator stops on the exception of [os.listdir]; [main],
    which calls the generator first, stops with it. *)
Theorem missing_directory (path : string) (sort_values : Series -> Series)
  (args : Main.Args) :
  scan_fortran_directory path None
  = Returned [("Error: Directory '" ++ path ++ "' does not exist.")%string]
             [] /\
  generate_fortran_matrix None = Raised FileNotFoundError /\
  Main.main sort_values args None = Raised FileNotFoundError.
Proof. repeat split. Qed.

Lemma fold_left_filter {A B} (p : B -> bool) (g : A -> B -> A)
  (l : list B) (a : A) :
  fold_left (fun a b => if p b then g a b else a) l a
  = fold_left (fun a b => if p b then g a b else a) (filter p l) a.
Proof.
  revert a. induction l as [|b l IH]; intros a; simpl; [reflexivity|].
  destruct (p b) eqn:E; simpl; rewrite ?E; apply IH.
Qed.

(** C10.  The matrix is built from the files named [*.f90] alone, the
    inventory from those named [*.f90], [*.F90] or [*.f95]; so a routine
    of a [.F90] or [.f95] file is in the inventory and not in the
    matrix. *)
Theorem inventory_reads_more_files :
  (forall files,
     scan_listing files
     = scan_listing (filter (fun f => endswith (fst f) ".f90") files)) /\
  (forall files,
     inventory_listing files
     = inventory_listing
         (filter (fun f => endswith (fst f) ".f90" || endswith (fst f) ".F90"
                           || endswith (fst f) ".f95") files)) /\
  map obj_name (inventory_listing mixed) = ["solve"; "helper"; "main_loop"] /\
  Dict.keys (scan_listing mixed) = ["main_loop"] /\
  index (assemble (scan_listing mixed)) = ["main_loop"] /\
  columns (assemble (scan_listing mixed)) = ["main_loop"] /\
  exists files name,
    In name (map obj_name (inventory_listing files)) /\
    ~ In name (Dict.keys (scan_listing files)) /\
    ~ In name (index (assemble (scan_listing files))) /\
    ~ In name (columns (assemble (scan_listing files))).
Proof.
  split; [|split].
  - intros files. unfold scan_listing.
    apply (fold_left_filter (fun f => endswith (fst f) ".f90")
             (fun d f => scan_file d (snd f))).
  - intros files. unfold inventory_listing.
    apply (fold_left_filter (fun f => is_fortran_file (fst f))
             (fun inv f => inventory_file inv (snd f))).
  - split; [reflexivity|]. split; [reflexivity|].
    split; [reflexivity|]. split; [reflexivity|].
    exists mixed, "solve".
    split; [now left|].
    repeat split; intros [H|[]]; discriminate.
Qed.

End ScannerTheorems.

(* ================================================================= *)
(** ** The matrices the program reorders *)

Section Pipeline.
Import Scanner Frame Assembler Reorder.
Import AssemblerFacts ScannerFacts ReorderFacts.

(** Every assembled matrix has distinct labels and a full grid of
    cells: the reordering lemmas apply to it. *)
Lemma assemble_wf (all_routines : routines) :
  NoDup (Dict.keys all_routines) -> wf (assemble all_routines).
Proof.
  intros Hnd.
  destruct (assemble_framed all_routines) as (((Hlen & Hrows) & Hi & Hc) & _).
  assert (HU : NoDup (universe all_routines)).
  { apply (Permutation_NoDup (Permutation_sym (sorted_perm _)) Hnd). }
  unfold wf. rewrite Hi, Hc in *. auto.
Qed.

Lemma scanned_matrix_wf (files : listing) :
  wf (assemble (scan_listing files)).
Proof. apply assemble_wf, no_self_scan_listing. Qed.

(** On the matrix of any directory the two-phase order and the
    independent one agree. *)
Lemma scanned_matrix_two_phase (sort_values : Series -> Series)
  (files : listing) :
  (forall s, Permutation (sort_values s) s) ->
  reorder_by_sum sort_values (assemble (scan_listing files))
  = reorder_independent sort_values (assemble (scan_listing files)).
Proof.
  intros Hp. apply reorder_two_phase; [exact Hp | apply scanned_matrix_wf].
Qed.

End Pipeline.

(* ================================================================= *)
(** ** The examples of the specification, by computation *)

Section SpecExamples.
Import Text Regex Source Scanner Frame Assembler Reorder Inventory Examples.

(** Names are compared in lower case: one entry for [Foo] and [foo]. *)
Example case_insensitive_names :
  scan_lines [] ["SUBROUTINE Foo(x)"; "END SUBROUTINE Foo";
                 "subroutine bar"; "  CALL foo(x)"; "end subroutine bar"]
  = [("foo", []); ("bar", ["foo"])].
Proof. reflexivity. Qed.

(** A call split by a continuation mark is read as one line. *)
Example continuation_joined :
  logical_lines (text ["  call foo&"; "     (x)"; "  y = 1"])
  = ["  call foo(x)"; "  y = 1"].
Proof. reflexivity. Qed.

(** The line that starts a routine is scanned too: a result clause is
    read as a call. *)
Example start_line_scanned :
  scan_lines [] ["function compute(x) result(y)"; "end function compute"]
  = [("compute", ["result"])].
Proof. reflexivity. Qed.

(** [alpha] calls [beta] and the unknown [gamma]: one cell is set, and
    [beta] comes first once reordered. *)
Example alpha_beta_matrix :
  assemble alpha_beta
  = mkFrame ["alpha"; "beta"] ["alpha"; "beta"] [[0; 0]; [1; 0]]%Z /\
  reorder_by_sum sort_values_stable (assemble alpha_beta)
  = mkFrame ["beta"; "alpha"] ["alpha"; "beta"] [[1; 0]; [0; 0]]%Z.
Proof. split; reflexivity. Qed.

(** A function inside a module and a subroutine outside any. *)
Example inventory_records :
  inventory_listing
    [("m.f90", text ["module mymod"; "contains";
                     "  function compute(x) result(y)";
                     "  end function compute"; "end module mymod"]);
     ("h.f90", text ["subroutine helper()"; "end subroutine helper"])]
  = [mkRecord "compute" "mymod" "function";
     mkRecord "helper" "External" "subroutine"].
Proof. reflexivity. Qed.

End SpecExamples.

(* ================================================================= *)
(** * Further properties of the code *)

Import Notions.

(* ================================================================= *)
(** ** Cells under reordering *)

Module CellFacts.
Import Frame Reorder DictFacts FrameFacts ReorderFacts AssemblerFacts.

(** Looking a key up does not depend on the order of the entries. *)
Lemma get_perm {V} (l l' : list (string * V)) (k : string) :
  NoDup (map fst l) -> Permutation l l' -> Dict.get k l' = Dict.get k l.
Proof.
  intros Hnd Hp.
  assert (Hnd' : NoDup (map fst l'))
    by apply (Permutation_NoDup (Permutation_map fst Hp) Hnd).
  destruct (Dict.get k l) as [v|] eqn:E.
  - apply in_get; [exact Hnd'|]. apply (Permutation_in _ Hp).
    now apply get_in.
  - apply get_none. intros H. apply (Permutation_in _ (Permutation_sym (Permutation_map fst Hp))) in H.
    apply in_map_iff in H as ([k' v] & Hk & Hin). simpl in Hk. subst k'.
    rewrite (in_get l k v Hnd Hin) in E. discriminate.
Qed.

Lemma get_combine {V} (axis : list string) (l : list V) (k : string) :
  List.length l = List.length axis ->
  Dict.get k (combine axis l)
  = match index_of k axis with
    | Some i => nth_error l i
    | None => None
    end.
Proof.
  revert l. induction axis as [|a axis IH]; intros [|x l] H; simpl in *;
    try discriminate; trivial.
  destruct (String.eqb a k); [reflexivity|].
  rewrite IH by lia. now destruct (index_of k axis).
Qed.

Lemma get_map_values {V W} (f : V -> W) (axis : list string) (l : list V)
  (k : string) :
  Dict.get k (combine axis (map f l)) = option_map f (Dict.get k (combine axis l)).
Proof.
  revert l. induction axis as [|a axis IH]; intros [|x l]; simpl; trivial.
  destruct (String.eqb a k); [reflexivity|apply IH].
Qed.

Lemma at_cell (M : DataFrame) (r c : string) :
  shaped M -> at_ M r c = cell M r c.
Proof.
  intros (Hlen & Hrows). unfold at_, cell.
  rewrite get_combine by assumption.
  destruct (index_of r (index M)) as [i|] eqn:Hi; [|reflexivity].
  pose proof (index_of_lt _ _ _ Hi) as Li. rewrite <- Hlen in Li.
  rewrite (nth_error_nth' _ [] Li).
  assert (Hrow : List.length (nth i (values M) []) = List.length (columns M)).
  { rewrite Forall_forall in Hrows. apply Hrows. now apply nth_In. }
  rewrite get_combine by assumption.
  now destruct (index_of c (columns M)).
Qed.

Lemma wf_shaped (M : DataFrame) : wf M -> shaped M.
Proof. intros (_ & _ & H). exact H. Qed.

Lemma cell_loc_rows (M : DataFrame) (labels : list string) (r c : string) :
  wf M -> Permutation labels (index M) ->
  cell (loc_rows M labels) r c = cell M r c.
Proof.
  intros Hwf Hp. destruct Hwf as (Hi & Hc & Hlen & Hrows).
  unfold cell. simpl.
  rewrite <- take_combine by now symmetry.
  rewrite (get_perm (combine (index M) (values M))).
  - reflexivity.
  - rewrite map_fst_combine by now symmetry. exact Hi.
  - apply Permutation_sym, take_perm.
    rewrite length_combine, Hlen, Nat.min_id.
    now apply get_indexer_perm.
Qed.

Lemma cell_getitem_cols (M : DataFrame) (labels : list string) (r c : string) :
  wf M -> Permutation labels (columns M) ->
  cell (getitem_cols M labels) r c = cell M r c.
Proof.
  intros Hwf Hp. pose proof Hwf as (Hi & Hc & Hlen & Hrows).
  unfold cell. simpl. rewrite get_map_values.
  destruct (Dict.get r (combine (index M) (values M))) as [row|] eqn:E;
    [|reflexivity].
  simpl.
  assert (Hrow : List.length row = List.length (columns M)).
  { rewrite Forall_forall in Hrows. apply Hrows.
    apply get_in in E. now apply in_combine_r in E. }
  rewrite <- take_combine by now symmetry.
  apply get_perm.
  - rewrite map_fst_combine by now symmetry. exact Hc.
  - apply Permutation_sym, take_perm.
    rewrite length_combine, Hrow, Nat.min_id.
    now apply get_indexer_perm.
Qed.

End CellFacts.

Section CellTheorems.
Import Frame Reorder FrameFacts ReorderFacts CellFacts Examples.

(** X1.  Reordering moves labels, never values: the cell of a row label
    and a column label is the same before and after. *)
Theorem reorder_by_sum_keeps_cells (sort_values : Series -> Series)
  (M : DataFrame) (r c : string) :
  (forall s, Permutation (sort_values s) s) -> wf M ->
  at_ (reorder_by_sum sort_values M) r c = at_ M r c.
Proof.
  intros Hp Hwf.
  rewrite !at_cell.
  - unfold reorder_by_sum.
    fold (new_row_order sort_values M). fold (rows_sorted sort_values M).
    rewrite cell_getitem_cols.
    + apply cell_loc_rows; [assumption|now apply new_row_order_perm].
    + now apply rows_sorted_wf.
    + now apply new_col_order_perm.
  - now apply wf_shaped.
  - now apply wf_shaped, reorder_by_sum_wf.
Qed.

Lemma reorder_by_sum_keeps_cells_witness :
  at_ (reorder_by_sum sort_values_stable small) "run" "load" = Some 1%Z.
Proof.
  rewrite (reorder_by_sum_keeps_cells sort_values_stable small "run" "load"
             (sort_perm _ sort_values_stable_contract) small_wf).
  reflexivity.
Defined.

End CellTheorems.

(* ================================================================= *)
(** ** What the scan declares *)

Module DeclFacts.
Import Text Regex Source Scanner DictFacts ScannerFacts RegexFacts PatternFacts.

Lemma scan_line_keys (d : routines) (cur : option string) (line : string)
  (k : string) :
  In k (Dict.keys (fst (scan_line (d, cur) line)))
  <-> In k (Dict.keys d) \/ declares line = Some k.
Proof.
  unfold scan_line, declares.
  destruct (re_match routine_start line) as [gs|]; cbn [option_map].
  - destruct (truthy (Some (lower (group 1 gs)))); cbn [fst];
      rewrite ?record_calls_keys, in_keys_set;
      split; intros [H|H]; auto; try (right; congruence);
      left; congruence.
  - destruct (re_match routine_end line);
      [|destruct (truthy cur)]; cbn [fst]; rewrite ?record_calls_keys;
      split; auto; intros [H|H]; trivial; discriminate.
Qed.

Lemma fold_scan_line_keys (lines : list string) (st : routines * option string)
  (k : string) :
  In k (Dict.keys (fst (fold_left scan_line lines st)))
  <-> In k (Dict.keys (fst st))
      \/ exists line, In line lines /\ declares line = Some k.
Proof.
  revert st. induction lines as [|line lines IH]; intros st; cbn [fold_left].
  - split; [auto|]. intros [H|(l & [] & _)]. exact H.
  - rewrite IH. destruct st as [d cur]. rewrite scan_line_keys. simpl fst.
    split.
    + intros [[H|H]|(l & Hl & H)]; auto.
      * right. exists line. split; [now left|assumption].
      * right. exists l. split; [now right|assumption].
    + intros [H|(l & [<-|Hl] & H)]; auto.
      right. now exists l.
Qed.

Lemma scan_lines_keys (d : routines) (lines : list string) (k : string) :
  In k (Dict.keys (scan_lines d lines))
  <-> In k (Dict.keys d)
      \/ exists line, In line lines /\ declares line = Some k.
Proof. unfold scan_lines. now rewrite fold_scan_line_keys. Qed.

Lemma lower_char_idem (c : ascii) : lower_char (lower_char c) = lower_char c.
Proof. destruct c as [[] [] [] [] [] [] [] []]; reflexivity. Qed.

Lemma lower_idem (s : string) : lower (lower s) = lower s.
Proof.
  induction s as [|c s IH]; simpl; [reflexivity|].
  now rewrite lower_char_idem, IH.
Qed.

Lemma declares_name (line k : string) :
  declares line = Some k -> k <> ""%string /\ lower k = k.
Proof.
  unfold declares. destruct (re_match routine_start line) as [gs|] eqn:E;
    [|discriminate].
  destruct (routine_start_name line gs E) as (c & w & ->).
  simpl. intros [= <-]. split; [discriminate|].
  change (lower (lower (String c w)) = lower (String c w)). apply lower_idem.
Qed.

Lemma scan_listing_keys (files : listing) (k : string) :
  In k (Dict.keys (scan_listing files))
  <-> exists name content line,
        In (name, content) files /\ endswith name ".f90" = true /\
        In line (logical_lines content) /\ declares line = Some k.
Proof.
  assert (G : forall d,
             In k (Dict.keys
                     (fold_left
                        (fun d file =>
                           if endswith (fst file) ".f90"
                           then scan_file d (snd file) else d) files d))
             <-> In k (Dict.keys d)
                 \/ exists name content line,
                      In (name, content) files /\
                      endswith name ".f90" = true /\
                      In line (logical_lines content) /\
                      declares line = Some k).
  { induction files as [|[name content] files IH]; intros d; cbn [fold_left].
    - split; [auto|]. intros [H|(n & c & l & [] & _)]. exact H.
    - rewrite IH. cbn [fst snd]. split.
      + intros [H|(n & c & l & Hin & He & Hl & Hd)].
        * destruct (endswith name ".f90") eqn:E; [|now left].
          unfold scan_file in H. apply scan_lines_keys in H as [H|(l & Hl & Hd)];
            [now left|].
          right. exists name, content, l. repeat split; trivial. now left.
        * right. exists n, c, l. repeat split; trivial. now right.
      + intros [H|(n & c & l & [Hin|Hin] & He & Hl & Hd)].
        * left. destruct (endswith name ".f90"); [|assumption].
          unfold scan_file. apply scan_lines_keys. now left.
        * injection Hin as -> ->. left. rewrite He.
          unfold scan_file. apply scan_lines_keys. right. now exists l.
        * right. now exists n, c, l. }
  unfold scan_listing. rewrite G. simpl. tauto.
Qed.

End DeclFacts.

Section DeclTheorems.
Import Text Regex Source Scanner Assembler DictFacts ScannerFacts DeclFacts.
Import AssemblerFacts Examples.

(** X2.  The Universe is what the [.f90] files declare: a name is a
    key of the scanned mapping exactly when some logical line of some
    file named [*.f90] starts a routine of that name (in lower case);
    every key is a non-empty lower-case word. *)
Theorem universe_is_declared (files : listing) (k : string) :
  (In k (Dict.keys (scan_listing files))
   <-> exists name content line,
         In (name, content) files /\ endswith name ".f90" = true /\
         In line (logical_lines content) /\ declares line = Some k) /\
  (In k (Dict.keys (scan_listing files)) -> k <> ""%string /\ lower k = k).
Proof.
  split; [apply scan_listing_keys|].
  intros Hk. apply scan_listing_keys in Hk as (n & c & l & _ & _ & _ & Hd).
  now apply declares_name in Hd.
Qed.

End DeclTheorems.

(* ================================================================= *)
(** ** The two routine patterns *)

Module GroupFacts.
Import Text Regex Scanner Inventory RegexFacts PatternFacts DeclFacts.

Lemma uniform_seq (m1 m2 : matcher) :
  uniform m1 -> uniform m2 -> uniform (re_seq m1 m2).
Proof.
  intros H1 H2 g st. unfold re_seq. rewrite H1.
  induction (m1 st) as [|x l IH]; simpl; [reflexivity|].
  now rewrite map_app, H2, IH.
Qed.

Lemma uniform_star (p : ascii -> bool) : uniform (re_star p).
Proof.
  intros g st. unfold re_star. simpl. rewrite map_map. reflexivity.
Qed.

Lemma uniform_plus (p : ascii -> bool) : uniform (re_plus p).
Proof.
  intros g st. unfold re_plus. simpl. destruct (rest st) as [|c s]; trivial.
  destruct (p c); trivial.
  apply (uniform_star p g (mkState (Some c) s (groups st))).
Qed.

Lemma uniform_group (m : matcher) : uniform m -> uniform (re_group m).
Proof.
  intros Hm g st. unfold re_group. rewrite Hm, !map_map.
  apply map_ext. intros st'. unfold shift. simpl. now rewrite app_assoc.
Qed.

Lemma flat_map_map {A B C} (f : B -> list C) (g : A -> B) (l : list A) :
  flat_map f (map g l) = flat_map (fun x => f (g x)) l.
Proof. induction l as [|x l IH]; simpl; now rewrite ?IH. Qed.

Lemma Forall2_flat_map {A B C} (R : B -> C -> Prop) (f : A -> list B)
  (f' : A -> list C) (l : list A) :
  (forall x, In x l -> Forall2 R (f x) (f' x)) ->
  Forall2 R (flat_map f l) (flat_map f' l).
Proof.
  induction l as [|x l IH]; simpl; intros H; [constructor|].
  apply Forall2_app; [apply H; now left|].
  apply IH. intros y Hy. apply H. now right.
Qed.

Lemma Forall2_seq (R : state -> state -> Prop) (m a b : matcher)
  (st : state) :
  (forall x, In x (m st) -> Forall2 R (a x) (b x)) ->
  Forall2 R (re_seq m a st) (re_seq m b st).
Proof. apply Forall2_flat_map. Qed.

Lemma Forall2_map_r {A B} (R : A -> B -> Prop) (f : A -> B) (l : list A) :
  (forall x, In x l -> R x (f x)) -> Forall2 R l (map f l).
Proof.
  induction l as [|x l IH]; simpl; intros H; constructor.
  - apply H. now left.
  - apply IH. intros y Hy. apply H. now right.
Qed.

Lemma substring_none (s : string) : substring 0 0 s = ""%string.
Proof. now destruct s. Qed.

(** What a literal consumed is the literal, up to case. *)
Lemma lit_from_lower (w : string) (pv pv' : option ascii) (s s' : string) :
  lit_from w pv s = Some (pv', s') ->
  lower (substring 0 (String.length s - String.length s') s) = lower w.
Proof.
  revert pv s. induction w as [|a w IH]; intros pv s; simpl.
  - intros [= _ <-]. now rewrite Nat.sub_diag, substring_none.
  - destruct s as [|c s]; [easy|].
    destruct (Ascii.eqb_spec (lower_char a) (lower_char c)) as [E|]; [|easy].
    intros H. pose proof (lit_from_suffix _ _ _ _ _ H) as Hs.
    apply suffix_length in Hs. simpl String.length.
    rewrite Nat.sub_succ_l by assumption. simpl.
    now rewrite (IH _ _ H), E.
Qed.

Lemma keyword_kind (st st' : state) :
  In st' (keyword st) ->
  is_kind (substring 0 (String.length (rest st) - String.length (rest st'))
                     (rest st)).
Proof.
  unfold keyword, re_alt, re_lit. intros H.
  apply in_app_or in H as [H|H]; [left|right];
    match type of H with
    | In _ (match lit_from ?w ?p ?s with _ => _ end) =>
        destruct (lit_from w p s) as [[pv r]|] eqn:E; [|easy]
    end;
    destruct H as [<-|[]]; simpl; now apply (lit_from_lower _ _ _ _ _ E).
Qed.

Lemma uniform_name_tail : uniform name_tail.
Proof.
  apply uniform_seq; [apply uniform_plus|apply uniform_group, uniform_plus].
Qed.

(** The matches of the inventory's pattern are those of the scanner's,
    one for one, with the keyword captured in front. *)
Lemma patterns_agree (line : string) :
  Forall2 (fun a b => exists kw, is_kind kw /\ b = shift [kw] a)
          (routine_start (mkState None line []))
          (routine_pattern (mkState None line [])).
Proof.
  unfold routine_start, routine_pattern.
  set (st0 := mkState None line []).
  assert (G0 : groups st0 = []) by reflexivity. clearbody st0.
  apply Forall2_seq. intros s1 H1.
  apply tame_bol in H1 as (_ & G1). rewrite G0 in G1.
  apply Forall2_seq. intros s2 H2.
  apply tame_star in H2 as (_ & G2). rewrite G1 in G2.
  apply Forall2_seq. intros s3 H3.
  apply tame_recursive in H3 as (_ & G3). rewrite G2 in G3.
  fold keyword. fold name_tail.
  unfold re_seq, re_group. rewrite flat_map_map.
  apply Forall2_flat_map. intros s4 H4.
  pose proof (keyword_kind _ _ H4) as Hk.
  apply tame_keyword in H4 as (_ & G4). rewrite G3 in G4.
  set (kw := substring 0 _ (rest s3)) in *.
  replace (mkState (prev s4) (rest s4) (groups s4 ++ [kw]))
    with (shift [kw] s4)
    by (unfold shift; now rewrite G4).
  rewrite uniform_name_tail.
  apply Forall2_map_r. intros x _. now exists kw.
Qed.

Lemma pattern_of_start (line : string) (gs : list string) :
  re_match routine_start line = Some gs ->
  exists kw, is_kind kw /\ re_match routine_pattern line = Some (kw :: gs).
Proof.
  pose proof (patterns_agree line) as H.
  unfold re_match, match_at.
  destruct H as [|a b la lb (kw & Hk & ->) _]; simpl; [easy|].
  intros [= <-]. now exists kw.
Qed.

Lemma start_of_pattern (line : string) (gs : list string) :
  re_match routine_pattern line = Some gs ->
  exists kw c w, gs = [kw; String c w] /\ is_kind kw /\
                 re_match routine_start line = Some [String c w].
Proof.
  pose proof (patterns_agree line) as H.
  destruct (re_match routine_start line) as [gs0|] eqn:E0.
  - destruct (routine_start_name _ _ E0) as (c & w & ->).
    destruct (pattern_of_start _ _ E0) as (kw & Hk & ->).
    intros [= <-]. now exists kw, c, w.
  - unfold re_match, match_at in *.
    destruct H as [|a b la lb _ _]; simpl in *; easy.
Qed.

(** [^\s*module\s+(\w+)] names a module of at least one character. *)
Lemma module_pattern_name (line : string) (gs : list string) :
  re_match module_pattern line = Some gs -> exists c w, gs = [String c w].
Proof.
  unfold re_match, match_at.
  destruct (module_pattern (mkState None line [])) as [|st l] eqn:E; [easy|].
  simpl. intros [= <-].
  assert (H : In st (module_pattern (mkState None line [])))
    by (rewrite E; now left).
  clear E l. unfold module_pattern in H.
  apply in_re_seq in H as (s1 & H1 & H).
  apply tame_bol in H1 as (_ & G1).
  apply in_re_seq in H as (s2 & H2 & H).
  apply tame_star in H2 as (_ & G2).
  apply in_re_seq in H as (s3 & H3 & H).
  apply tame_lit in H3 as (_ & G3).
  apply in_re_seq in H as (s4 & H4 & H).
  apply tame_plus in H4 as (_ & G4).
  apply re_group_plus in H as (_ & c & w & G).
  exists c, w. rewrite G, G4, G3, G2, G1. reflexivity.
Qed.

End GroupFacts.

(* ================================================================= *)
(** ** The inventory *)

Module InventoryFacts.
Import Text Regex Source Scanner Inventory.
Import RegexFacts PatternFacts DeclFacts GroupFacts.

Lemma inventory_line_app (inv : list InventoryRecord) (cm line : string) :
  inventory_line (inv, cm) line
  = (inv ++ fst (inventory_line ([], cm) line),
     snd (inventory_line ([], cm) line)).
Proof.
  unfold inventory_line.
  destruct (re_match routine_pattern line); cbn [fst snd app];
    now rewrite ?app_nil_r.
Qed.

Lemma fold_inventory_line (lines : list string) (inv : list InventoryRecord)
  (cm : string) :
  fold_left inventory_line lines (inv, cm)
  = (inv ++ fst (fold_left inventory_line lines ([], cm)),
     snd (fold_left inventory_line lines ([], cm))).
Proof.
  revert inv cm. induction lines as [|line lines IH]; intros inv cm;
    cbn [fold_left].
  - simpl. now rewrite app_nil_r.
  - rewrite inventory_line_app.
    destruct (inventory_line ([], cm) line) as [new cm'].
    cbn [fst snd]. rewrite IH, (IH new). cbn [fst snd].
    now rewrite app_assoc.
Qed.

Lemma inventory_file_app (inv : list InventoryRecord) (content : string) :
  inventory_file inv content = inv ++ file_records content.
Proof.
  unfold file_records, inventory_file. now rewrite fold_inventory_line.
Qed.

Lemma fold_inventory_files (files : listing) (inv : list InventoryRecord) :
  fold_left
    (fun inv file =>
       if is_fortran_file (fst file) then inventory_file inv (snd file)
       else inv)
    files inv
  = inv ++ flat_map (fun file => if is_fortran_file (fst file)
                                 then file_records (snd file) else []) files.
Proof.
  revert inv.
  induction files as [|[name content] files IH]; intros inv; cbn [fold_left].
  - simpl. now rewrite app_nil_r.
  - rewrite IH. cbn [flat_map fst snd]. rewrite app_assoc. f_equal.
    destruct (is_fortran_file name); [apply inventory_file_app|].
    now rewrite app_nil_r.
Qed.

Lemma inventory_listing_flat (files : listing) :
  inventory_listing files
  = flat_map (fun file => if is_fortran_file (fst file)
                          then file_records (snd file) else []) files.
Proof. unfold inventory_listing. now rewrite fold_inventory_files. Qed.

(** A record comes from a line that starts a routine. *)
Lemma records_sound (lines : list string) (cm : string) (r : InventoryRecord) :
  In r (fst (fold_left inventory_line lines ([], cm))) ->
  (exists line gs, In line lines /\
                   re_match routine_pattern line = Some gs /\
                   obj_name r = lower (group 2 gs) /\
                   type_ r = lower (group 1 gs)) /\
  (module_name r = cm \/
   exists line, In line lines /\ names_module line = Some (module_name r)).
Proof.
  revert cm. induction lines as [|line lines IH]; intros cm; cbn [fold_left].
  - intros [].
  - assert (K : forall cm', 
               In r (fst (fold_left inventory_line lines ([], cm'))) ->
               (cm' = cm \/ names_module line = Some cm') ->
               (exists l gs, In l (line :: lines) /\
                   re_match routine_pattern l = Some gs /\
                   obj_name r = lower (group 2 gs) /\
                   type_ r = lower (group 1 gs)) /\
               (module_name r = cm \/
                exists l, In l (line :: lines) /\
                          names_module l = Some (module_name r))).
    { intros cm' H Hcm. apply IH in H as ((l & gs & Hl & Hm & Hn & Ht) & Hmod).
      split; [exists l, gs; repeat split; trivial; now right|].
      destruct Hmod as [E|(l' & Hl' & E)].
      - destruct Hcm as [->|Hcm]; [now left|].
        right. exists line. split; [now left|congruence].
      - right. exists l'. split; [now right|assumption]. }
    unfold inventory_line at 2. unfold names_module in K.
    destruct (re_match module_pattern line) as [ms|] eqn:Em;
      destruct (re_match routine_pattern line) as [gs|] eqn:Er;
      cbn [option_map] in K.
    all: try (intros H; apply (K _ H); auto; fail).
    all: rewrite fold_inventory_line; cbn [fst]; intros H;
      apply in_app_or in H as [[<-|[]]|H]; [|apply (K _ H); auto].
    + split; [exists line, gs; repeat split; trivial; now left|].
      right. exists line. split; [now left|]. unfold names_module.
      now rewrite Em.
    + split; [exists line, gs; repeat split; trivial; now left|].
      now left.
Qed.

(** Every line that starts a routine leaves a record. *)
Lemma records_complete (lines : list string) (cm : string) (line : string)
  (gs : list string) :
  In line lines -> re_match routine_pattern line = Some gs ->
  exists r, In r (fst (fold_left inventory_line lines ([], cm))) /\
            obj_name r = lower (group 2 gs) /\ type_ r = lower (group 1 gs).
Proof.
  revert cm. induction lines as [|l lines IH]; intros cm; [intros []|].
  intros [->|Hin] Hm; cbn [fold_left].
  - unfold inventory_line at 2. rewrite Hm.
    rewrite fold_inventory_line. cbn [fst].
    eexists. split; [apply in_or_app; left; now left|]. now split.
  - unfold inventory_line at 2.
    destruct (re_match routine_pattern l).
    + rewrite fold_inventory_line. cbn [fst].
      destruct (IH (match re_match module_pattern l with
                    | Some ms => lower (group 1 ms) | None => cm end) Hin Hm)
        as (r & Hr & E).
      exists r. split; [apply in_or_app; now right|exact E].
    + apply (IH _ Hin Hm).
Qed.

Lemma in_inventory_listing (files : listing) (r : InventoryRecord) :
  In r (inventory_listing files)
  <-> exists name content,
        In (name, content) files /\ is_fortran_file name = true /\
        In r (file_records content).
Proof.
  rewrite inventory_listing_flat, in_flat_map. split.
  - intros ([name content] & Hin & H). cbn [fst snd] in H.
    destruct (is_fortran_file name) eqn:E; [|easy]. now exists name, content.
  - intros (name & content & Hin & E & H). exists (name, content).
    split; [assumption|]. cbn [fst snd]. now rewrite E.
Qed.

Lemma f90_is_fortran (name : string) :
  endswith name ".f90" = true -> is_fortran_file name = true.
Proof. unfold is_fortran_file. now intros ->. Qed.

Lemma scanned_in_inventory (files : listing) (k : string) :
  In k (Dict.keys (scan_listing files)) ->
  In k (map obj_name (inventory_listing files)).
Proof.
  intros H. apply scan_listing_keys in H as (name & content & line & Hf & He
                                             & Hl & Hd).
  unfold declares in Hd.
  destruct (re_match routine_start line) as [gs|] eqn:Es; [|discriminate].
  injection Hd as <-.
  destruct (pattern_of_start _ _ Es) as (kw & _ & Ep).
  destruct (records_complete (logical_lines content) "External" line _ Hl Ep)
    as (r & Hr & En & _).
  apply in_map_iff. exists r. split.
  - rewrite En. destruct (routine_start_name _ _ Es) as (c & w & ->).
    reflexivity.
  - apply in_inventory_listing. exists name, content.
    repeat split; trivial. now apply f90_is_fortran.
Qed.

Lemma word_lower_lower (c : ascii) (w : string) :
  word_lower (lower (String c w)).
Proof. split; [discriminate|apply lower_idem]. Qed.

Lemma file_records_ok (content : string) (r : InventoryRecord) :
  In r (file_records content) -> record_ok r.
Proof.
  unfold file_records, inventory_file. intros H.
  apply records_sound in H as ((line & gs & _ & Hm & Hn & Ht) & Hmod).
  destruct (start_of_pattern _ _ Hm) as (kw & c & w & -> & Hk & _).
  repeat split.
  - rewrite Ht. exact Hk.
  - rewrite Hn. discriminate.
  - rewrite Hn. apply (lower_idem (String c w)).
  - destruct Hmod as [E|(l & _ & E)]; [now left|right].
    unfold names_module in E.
    destruct (re_match module_pattern l) as [ms|] eqn:Em; [|discriminate].
    destruct (module_pattern_name _ _ Em) as (c' & w' & ->).
    injection E as E. rewrite <- E. apply word_lower_lower.
Qed.

End InventoryFacts.

Section InventoryTheorems.
Import Text Regex Source Scanner Inventory Examples.
Import DeclFacts GroupFacts InventoryFacts.

(** X3.  The inventory is the concatenation, in listing order, of the
    records of each file whose name ends in [.f90], [.F90] or [.f95],
    each file read on its own: nothing of one file (the current module
    in particular, which starts again as [External]) reaches the
    next. *)
Theorem inventory_file_by_file (files : listing) :
  inventory_listing files
  = flat_map (fun file => if is_fortran_file (fst file)
                          then inventory_file [] (snd file) else []) files.
Proof. apply inventory_listing_flat. Qed.

(** X4.  Every record of the inventory has type [subroutine] or
    [function], a name that is a non-empty lower-case word, and a
    module that is [External] or a non-empty lower-case word. *)
Theorem inventory_records_ok (files : listing) :
  Forall record_ok (inventory_listing files).
Proof.
  apply Forall_forall. intros r H.
  apply in_inventory_listing in H as (name & content & _ & _ & H).
  now apply file_records_ok in H.
Qed.

(** X5.  Every routine of the Universe is in the inventory: a key of
    the scanned mapping is the name of some inventory record of the
    same directory. *)
Theorem universe_in_inventory (files : listing) (k : string) :
  In k (Dict.keys (scan_listing files)) ->
  In k (map obj_name (inventory_listing files)).
Proof. apply scanned_in_inventory. Qed.

Lemma universe_in_inventory_witness :
  In "main_loop"%string (map obj_name (inventory_listing mixed)).
Proof.
  apply (universe_in_inventory mixed "main_loop"). vm_compute. now left.
Defined.

End InventoryTheorems.

(* ================================================================= *)
(** ** The run *)

Module MainFacts.
Import Text Scanner Frame Assembler Reorder Inventory Report Main.
Import DictFacts FrameFacts ReorderFacts AssemblerFacts InventoryFacts.

Lemma scanned_axes (files : listing) (k : string) :
  (In k (index (scanned files)) <-> In k (Dict.keys (scan_listing files))) /\
  (In k (columns (scanned files)) <-> In k (Dict.keys (scan_listing files))).
Proof.
  unfold scanned.
  destruct (assemble_framed (scan_listing files)) as ((_ & -> & ->) & _).
  split; apply in_universe.
Qed.

Section Reordered.
Variable sort_values : Series -> Series.
Hypothesis Hperm : forall s, Permutation (sort_values s) s.
Variable files : listing.

Lemma reordered_index (k : string) :
  In k (index (reorder_by_sum sort_values (scanned files)))
  <-> In k (Dict.keys (scan_listing files)).
Proof.
  rewrite <- (proj1 (scanned_axes files k)).
  rewrite (reorder_index sort_values Hperm (scanned files)
             (scanned_matrix_wf files)).
  pose proof (new_row_order_perm sort_values Hperm (scanned files)
                (scanned_matrix_wf files)) as P.
  split; apply Permutation_in; [exact P|now apply Permutation_sym].
Qed.

Lemma reordered_columns (k : string) :
  In k (columns (reorder_by_sum sort_values (scanned files)))
  <-> In k (Dict.keys (scan_listing files)).
Proof.
  rewrite <- (proj2 (scanned_axes files k)).
  rewrite (reorder_columns sort_values Hperm (scanned files)
             (scanned_matrix_wf files)).
  pose proof (new_col_order_perm sort_values Hperm (scanned files)) as P.
  split; apply Permutation_in; [exact P|now apply Permutation_sym].
Qed.
End Reordered.

Lemma insert_connectivity_returned (M SM : DataFrame) (p : list string) :
  insert_connectivity M = Returned p SM ->
  ~ In "total_connectivity"%string (columns M) /\
  index SM = index M /\
  columns SM = "total_connectivity"%string :: columns M.
Proof.
  unfold insert_connectivity.
  destruct (existsb _ (columns M)) eqn:E; [discriminate|].
  intros [= _ <-]. repeat split.
  intros H. apply existsb_eqb in H. congruence.
Qed.

Lemma insert_connectivity_total (M : DataFrame) :
  ~ In "total_connectivity"%string (columns M) ->
  exists p SM, insert_connectivity M = Returned p SM.
Proof.
  intros H. unfold insert_connectivity.
  destruct (existsb _ (columns M)) eqn:E; [|eauto].
  now apply existsb_eqb in E.
Qed.

Lemma overlap_spec (cols : list string) :
  existsb (fun c => String.eqb c "module_name" || String.eqb c "type") cols
  = true
  <-> exists c, In c cols /\ joined c.
Proof.
  rewrite existsb_exists. unfold joined.
  split; intros (c & Hc & H); exists c; (split; [assumption|]).
  - apply orb_true_iff in H as [H|H]; apply String.eqb_eq in H; auto.
  - apply orb_true_iff. destruct H as [-> | ->]; [left|right]; reflexivity.
Qed.

Lemma annotate_returned (out : string) (SM : DataFrame)
  (inv : list InventoryRecord) (p : list string) (ext : Extended) :
  annotate out SM inv = Returned p (Some ext) ->
  rows ext = flat_map (fun r => join_row inv (fst r) (snd r))
                      (combine (index SM) (values SM)).
Proof.
  unfold annotate. destruct inv as [|r inv]; [discriminate|].
  destruct (existsb _ (columns SM)); [discriminate|].
  destruct (reset_index_name _) as [q name|e]; [|discriminate].
  now intros [= _ <-].
Qed.

Lemma join_row_matched (inv : list InventoryRecord) (label : string)
  (row : list Z) (r : ExtendedRow) :
  In label (map obj_name inv) -> In r (join_row inv label row) ->
  exists rec, In rec inv /\ obj_name rec = label /\
              row_module r = Some (module_name rec) /\
              row_type r = Some (type_ rec).
Proof.
  intros Hl. unfold join_row.
  destruct (filter _ inv) as [|x l] eqn:E.
  - apply in_map_iff in Hl as (rec & <- & Hrec).
    assert (H : In rec (filter (fun r => String.eqb (obj_name r) (obj_name rec))
                               inv))
      by (apply filter_In; split; [assumption|apply String.eqb_refl]).
    rewrite E in H. destruct H.
  - rewrite <- E. intros H. apply in_map_iff in H as (rec & <- & H).
    apply filter_In in H as (H & Hn). apply String.eqb_eq in Hn.
    now exists rec.
Qed.

(** What a run that returns went through. *)
Lemma main_returned (sort_values : Series -> Series) (args : Args)
  (files : listing) (printed : list string) (art : Artifacts) :
  main sort_values args (Some files) = Returned printed art ->
  inventory_df art = inventory_listing files /\
  exists p1 p2,
    insert_connectivity (reorder_by_sum sort_values (scanned files))
    = Returned p1 (sorted_matrix art) /\
    annotate (output_matrix args) (sorted_matrix art) (inventory_listing files)
    = Returned p2 (extended_matrix art).
Proof.
  unfold main, generate_fortran_matrix, scan_fortran_directory, scanned.
  cbn [bind].
  destruct (insert_connectivity _) as [p1 SM|e]; [|discriminate].
  destruct (no_matrix args); cbn [bind pass print];
    (destruct (inventory_listing files) as [|r inv] eqn:Ei;
     [|destruct (no_inventory args)]; cbn [bind pass print];
     (destruct (annotate _ SM _) as [p2 ext|e] eqn:Ea; [|discriminate]);
     intros [= _ <-]; cbn [inventory_df sorted_matrix extended_matrix];
     (split; [reflexivity|]); exists p1, p2; now split).
Qed.

(** When a run raises. *)
Lemma main_raised (sort_values : Series -> Series) (args : Args)
  (files : listing) (e : exn) :
  main sort_values args (Some files) = Raised e
  <-> insert_connectivity (reorder_by_sum sort_values (scanned files))
      = Raised e
      \/ exists p SM,
           insert_connectivity (reorder_by_sum sort_values (scanned files))
           = Returned p SM /\
           annotate (output_matrix args) SM (inventory_listing files)
           = Raised e.
Proof.
  unfold main, generate_fortran_matrix, scan_fortran_directory, scanned.
  cbn [bind].
  destruct (insert_connectivity _) as [p1 SM|e'].
  - split.
    + intros H. right. exists p1, SM. split; [reflexivity|].
      revert H.
      destruct (no_matrix args); cbn [bind pass print];
        (destruct (inventory_listing files) as [|r inv];
         [|destruct (no_inventory args)]; cbn [bind pass print];
         (destruct (annotate _ SM _) as [p2 ext|e2]; [discriminate|]);
         now intros [= ->]).
    + intros [H|(p & SM' & [= <- <-] & H)]; [discriminate|].
      destruct (no_matrix args); cbn [bind pass print];
        (destruct (inventory_listing files) as [|r inv];
         [|destruct (no_inventory args)]; cbn [bind pass print];
         now rewrite H).
  - split; [intros [= ->]; now left|].
    intros [[= ->]|(p & SM & H & _)]; [reflexivity|discriminate].
Qed.

Lemma annotate_overlap (out : string) (SM : DataFrame)
  (inv : list InventoryRecord) (c : string) :
  inv <> [] -> In c (columns SM) -> joined c ->
  annotate out SM inv
  = Raised (ValueError "columns overlap but no suffix specified").
Proof.
  intros Hinv Hc Hj. unfold annotate.
  destruct inv as [|r inv]; [now elim Hinv|].
  rewrite (proj2 (overlap_spec (columns SM))); [reflexivity|].
  now exists c.
Qed.

End MainFacts.

Section MainTheorems.
Import Text Scanner Frame Assembler Reorder Inventory Report Main Examples.
Import DictFacts ReorderFacts InventoryFacts MainFacts.

(** X6.  In a run of [main] that returns, every row of the extended
    matrix carries a module and a type: each row label is a routine of
    the Universe, which the inventory of the same directory knows. *)
Theorem main_rows_annotated (sort_values : Series -> Series) (args : Args)
  (files : listing) (printed : list string) (art : Artifacts)
  (ext : Extended) :
  (forall s, Permutation (sort_values s) s) ->
  main sort_values args (Some files) = Returned printed art ->
  extended_matrix art = Some ext ->
  Forall (fun row => exists rec,
            In rec (inventory_listing files) /\
            obj_name rec = routine row /\
            row_module row = Some (module_name rec) /\
            row_type row = Some (type_ rec))
         (rows ext).
Proof.
  intros Hperm Hm He.
  apply main_returned in Hm as (_ & p1 & p2 & Hi & Ha).
  rewrite He in Ha. apply annotate_returned in Ha.
  apply insert_connectivity_returned in Hi as (_ & Hidx & _).
  apply Forall_forall. intros row Hrow. rewrite Ha in Hrow.
  apply in_flat_map in Hrow as ([label cells] & Hin & Hrow).
  cbn [fst snd] in Hrow. apply in_combine_l in Hin. rewrite Hidx in Hin.
  apply (reordered_index sort_values Hperm) in Hin.
  apply scanned_in_inventory in Hin.
  destruct (join_row_matched _ _ _ _ Hin Hrow) as (rec & Hrec & Hn & Hm & Ht).
  exists rec. repeat split; trivial.
  rewrite Hn. symmetry.
  unfold join_row in Hrow.
  destruct (filter _ (inventory_listing files)).
  - now destruct Hrow as [<-|[]].
  - apply in_map_iff in Hrow as (x & <- & _). reflexivity.
Qed.

Lemma main_rows_annotated_witness :
  exists printed art ext,
    main sort_values_stable default_args (Some mutual) = Returned printed art /\
    extended_matrix art = Some ext /\
    Forall (fun row => exists rec,
              In rec (inventory_listing mutual) /\
              obj_name rec = routine row /\
              row_module row = Some (module_name rec) /\
              row_type row = Some (type_ rec))
           (rows ext).
Proof.
  eexists _, _, _. split; [vm_compute; reflexivity|].
  split; [reflexivity|].
  eapply (main_rows_annotated sort_values_stable default_args mutual).
  - apply (sort_perm _ sort_values_stable_contract).
  - vm_compute. reflexivity.
  - reflexivity.
Defined.

(** X7.  A routine of the Universe named [total_connectivity],
    [module_name] or [type] makes [main] stop on a [ValueError]: the
    first name collides with the column that [insert] adds, the other
    two with the columns of the join. *)
Theorem main_reserved_names (sort_values : Series -> Series) (args : Args)
  (files : listing) (k : string) :
  (forall s, Permutation (sort_values s) s) ->
  In k (Dict.keys (scan_listing files)) ->
  (k = "total_connectivity" \/ k = "module_name" \/ k = "type")%string ->
  exists msg, main sort_values args (Some files) = Raised (ValueError msg).
Proof.
  intros Hperm Hk Hr.
  destruct (in_dec string_dec "total_connectivity"%string
              (columns (reorder_by_sum sort_values (scanned files))))
    as [Hin|Hout].
  - eexists. apply main_raised. left. unfold insert_connectivity.
    apply AssemblerFacts.existsb_eqb in Hin. now rewrite Hin.
  - destruct (insert_connectivity_total _ Hout) as (p & SM & Hi).
    eexists. apply main_raised. right. exists p, SM. split; [exact Hi|].
    apply insert_connectivity_returned in Hi as (_ & _ & Hcols).
    destruct Hr as [-> | Hr].
    { elim Hout. now apply (reordered_columns sort_values Hperm). }
    apply (annotate_overlap _ _ _ k); [| |exact Hr].
    + apply scanned_in_inventory in Hk.
      destruct (inventory_listing files); [destruct Hk|discriminate].
    + rewrite Hcols. right.
      now apply (reordered_columns sort_values Hperm).
Qed.

Lemma main_reserved_names_witness :
  exists msg,
    main sort_values_stable default_args (Some typed) = Raised (ValueError msg).
Proof.
  apply (main_reserved_names sort_values_stable default_args typed "type"
           (sort_perm _ sort_values_stable_contract)).
  - vm_compute. now left.
  - auto.
Defined.

(** C9 (the code departs from it).  The join does abort the run.  When
    a routine of the Universe is named [module_name] or [type] (and
    none [total_connectivity], on which [insert] stops before), the
    sorted matrix is built and the join of lines 65 and 66 raises
    [ValueError]: both of its sides have a column of that name.
    Nothing catches it, so [main] stops there. *)
Theorem join_aborts_run (sort_values : Series -> Series) (args : Args)
  (files : listing) (k : string) :
  (forall s, Permutation (sort_values s) s) ->
  In k (Dict.keys (scan_listing files)) ->
  (k = "module_name" \/ k = "type")%string ->
  ~ In "total_connectivity"%string (Dict.keys (scan_listing files)) ->
  exists p SM,
    insert_connectivity (reorder_by_sum sort_values (scanned files))
    = Returned p SM /\
    annotate (output_matrix args) SM (inventory_listing files)
    = Raised (ValueError "columns overlap but no suffix specified") /\
    main sort_values args (Some files)
    = Raised (ValueError "columns overlap but no suffix specified").
Proof.
  intros Hperm Hk Hr Htc.
  assert (Hout : ~ In "total_connectivity"%string
                   (columns (reorder_by_sum sort_values (scanned files)))).
  { intros H. apply Htc. now apply (reordered_columns sort_values Hperm). }
  destruct (insert_connectivity_total _ Hout) as (p & SM & Hi).
  exists p, SM. split; [exact Hi|].
  assert (Ha : annotate (output_matrix args) SM (inventory_listing files)
               = Raised (ValueError "columns overlap but no suffix specified")).
  { pose proof Hi as Hc.
    apply insert_connectivity_returned in Hc as (_ & _ & Hcols).
    apply (annotate_overlap _ _ _ k); [| |exact Hr].
    - apply scanned_in_inventory in Hk.
      destruct (inventory_listing files); [destruct Hk|discriminate].
    - rewrite Hcols. right.
      now apply (reordered_columns sort_values Hperm). }
  split; [exact Ha|].
  apply main_raised. right. now exists p, SM.
Qed.

Lemma join_aborts_run_witness :
  main sort_values_stable default_args (Some typed)
  = Raised (ValueError "columns overlap but no suffix specified").
Proof.
  destruct (join_aborts_run sort_values_stable default_args typed "type"
              (sort_perm _ sort_values_stable_contract))
    as (p & SM & _ & _ & H).
  - vm_compute. now left.
  - now right.
  - vm_compute. intros [H|[]]. discriminate.
  - exact H.
Defined.

(** After the join, [reset_index] stops the run when routines are named
    [index] and [level_0]. *)
Lemma reset_index_collides :
  main sort_values_stable default_args (Some indexed)
  = Raised (ValueError "cannot insert level_0, already exists").
Proof. reflexivity. Qed.

End MainTheorems.

(* ================================================================= *)
(** ** Scopes: routines in the scanner, modules in the inventory *)

Module ScopeFacts.
Import Text Regex Source Scanner Inventory.
Import DictFacts ScannerFacts DeclFacts InventoryFacts.

(** Outside a routine, lines that start none leave the scan where it
    is. *)
Lemma fold_scan_line_outside (lines : list string) (d : routines) :
  Forall (fun line => declares line = None) lines ->
  fold_left scan_line lines (d, None) = (d, None).
Proof.
  induction 1 as [|line lines Hd _ IH]; cbn [fold_left]; [reflexivity|].
  unfold declares in Hd. unfold scan_line at 2.
  destruct (re_match routine_start line); [discriminate|].
  destruct (re_match routine_end line); exact IH.
Qed.

Lemma scan_line_end (st : routines * option string) (line : string) :
  declares line = None -> re_match routine_end line <> None ->
  scan_line st line = (fst st, None).
Proof.
  unfold declares, scan_line. destruct st as [d cur].
  destruct (re_match routine_start line); [discriminate|].
  destruct (re_match routine_end line); [reflexivity|]. now intros _ [].
Qed.

Lemma records_from_app (cm : string) (l1 l2 : list string) :
  records_from cm (l1 ++ l2)
  = records_from cm l1
    ++ records_from (snd (fold_left inventory_line l1 ([], cm))) l2.
Proof.
  unfold records_from. rewrite fold_left_app.
  destruct (fold_left inventory_line l1 ([], cm)) as [inv cm'].
  now rewrite fold_inventory_line.
Qed.

Lemma fold_inventory_line_module (lines : list string) (cm cm0 : string) :
  Forall (fun line => names_module line = None) lines ->
  records_from cm lines = map (in_module cm) (records_from cm0 lines) /\
  snd (fold_left inventory_line lines ([], cm)) = cm.
Proof.
  unfold records_from.
  induction 1 as [|line lines Hn _ IH]; cbn [fold_left]; [now split|].
  unfold names_module in Hn. unfold inventory_line at 2 4 6.
  destruct (re_match module_pattern line); [discriminate|].
  destruct (re_match routine_pattern line) as [gs|]; [|exact IH].
  cbn [app]. rewrite !(fold_inventory_line lines [_]). cbn [fst snd].
  destruct IH as (-> & ->). now split.
Qed.

Lemma module_line_sets (st : list InventoryRecord * string) (line m : string) :
  names_module line = Some m -> snd (inventory_line st line) = m.
Proof.
  unfold names_module, inventory_line. destruct st as [inv cm].
  destruct (re_match module_pattern line) as [ms|]; [|discriminate].
  intros [= <-]. now destruct (re_match routine_pattern line).
Qed.

End ScopeFacts.

Section ScopeTheorems.
Import Text Regex Source Scanner Inventory Examples.
Import DeclFacts InventoryFacts ScopeFacts.

(** X8.  Calls outside a routine are not recorded.  Lines none of which
    starts a routine leave the mapping as it is when read from the top
    of a file (a main program, for instance), and also when read after a
    line that ends a routine. *)
Theorem calls_outside_routines (d : routines) (lines : list string) :
  Forall (fun line => declares line = None) lines ->
  scan_lines d lines = d /\
  forall before e,
    declares e = None -> re_match routine_end e <> None ->
    scan_lines d (before ++ e :: lines) = scan_lines d (before ++ [e]).
Proof.
  intros H. split.
  - unfold scan_lines. now rewrite fold_scan_line_outside.
  - intros before e Hd He. unfold scan_lines.
    rewrite !fold_left_app. cbn [fold_left].
    rewrite (scan_line_end _ e Hd He). now rewrite fold_scan_line_outside.
Qed.

Lemma calls_outside_routines_witness :
  scan_lines [("f", [])] ["program p"; "  call f(1)"; "end program p"]
  = [("f", [])].
Proof.
  apply (calls_outside_routines [("f", [])]
           ["program p"; "  call f(1)"; "end program p"]).
  repeat constructor.
Defined.

(** X9.  Nothing ends a module: once a line has named one, every
    routine up to the next module line or the end of the file is
    attributed to it, [end module] lines included in between. *)
Theorem module_never_ends (before after : list string) (mline m : string) :
  names_module mline = Some m ->
  Forall (fun line => names_module line = None) after ->
  records_from "External" (before ++ mline :: after)
  = records_from "External" (before ++ [mline])
    ++ map (in_module m) (records_from "External" after).
Proof.
  intros Hm Hafter.
  replace (before ++ mline :: after) with ((before ++ [mline]) ++ after)
    by now rewrite <- app_assoc.
  rewrite records_from_app. f_equal.
  rewrite fold_left_app. cbn [fold_left].
  rewrite (module_line_sets _ _ _ Hm).
  apply (fold_inventory_line_module after m "External" Hafter).
Qed.

Lemma module_never_ends_witness :
  records_from "External"
    ["module m"; "end module m"; "subroutine s(x)"; "end subroutine s"]
  = [mkRecord "s" "m" "subroutine"].
Proof.
  apply (module_never_ends [] ["end module m"; "subroutine s(x)";
                               "end subroutine s"] "module m" "m").
  - reflexivity.
  - repeat constructor.
Defined.

End ScopeTheorems.

(* ================================================================= *)
(** ** Letter case *)

Module CaseFacts.
Import Text Regex Source Scanner Inventory.
Import RegexFacts DeclFacts GroupFacts.

Ltac by_cases c := destruct c as [[] [] [] [] [] [] [] []]; reflexivity.

Lemma caseless_space : caseless is_space.
Proof. intros c. by_cases c. Qed.

Lemma caseless_word : caseless is_word.
Proof. intros c. by_cases c. Qed.

Lemma caseless_nonword : caseless is_nonword.
Proof. intros c. by_cases c. Qed.

Lemma caseless_linebreak : caseless is_linebreak.
Proof. intros c. by_cases c. Qed.

Lemma caseless_cr (c : ascii) : Ascii.eqb (lower_char c) "013" = Ascii.eqb c "013".
Proof. by_cases c. Qed.

Lemma caseless_lf (c : ascii) : Ascii.eqb (lower_char c) "010" = Ascii.eqb c "010".
Proof. by_cases c. Qed.

Lemma lower_length (s : string) : String.length (lower s) = String.length s.
Proof. induction s as [|c s IH]; simpl; congruence. Qed.

Lemma lower_substring (s : string) (n k : nat) :
  substring n k (lower s) = lower (substring n k s).
Proof.
  revert n k. induction s as [|c s IH]; intros [|n] [|k]; simpl;
    rewrite ?IH; reflexivity.
Qed.

Lemma lower_app (s t : string) : lower (s ++ t) = (lower s ++ lower t)%string.
Proof. induction s as [|c s IH]; simpl; congruence. Qed.

Lemma blind_seq (m1 m2 : matcher) : blind m1 -> blind m2 -> blind (re_seq m1 m2).
Proof.
  intros H1 H2 st. unfold re_seq. rewrite H1.
  induction (m1 st) as [|x l IH]; simpl; [reflexivity|].
  now rewrite map_app, H2, IH.
Qed.

Lemma blind_alt (m1 m2 : matcher) : blind m1 -> blind m2 -> blind (re_alt m1 m2).
Proof. intros H1 H2 st. unfold re_alt. now rewrite map_app, H1, H2. Qed.

Lemma blind_opt (m : matcher) : blind m -> blind (re_opt m).
Proof. intros H st. unfold re_opt. now rewrite map_app, H. Qed.

Lemma blind_bol : blind re_bol.
Proof. intros st. unfold re_bol. simpl. now destruct (prev st). Qed.

Lemma blind_lookbehind (p : ascii -> bool) :
  caseless p -> blind (re_lookbehind p).
Proof.
  intros Hp st. unfold re_lookbehind. simpl.
  destruct (prev st) as [c|]; simpl; [|reflexivity].
  rewrite Hp. now destruct (p c).
Qed.

Lemma lit_from_lower_text (w : string) (pv : option ascii) (s : string) :
  lit_from w (option_map lower_char pv) (lower s)
  = option_map lower_pos (lit_from w pv s).
Proof.
  revert pv s. induction w as [|a w IH]; intros pv s; simpl; [reflexivity|].
  destruct s as [|c s]; simpl; [reflexivity|].
  rewrite lower_char_idem.
  destruct (Ascii.eqb (lower_char a) (lower_char c)); [|reflexivity].
  apply (IH (Some c)).
Qed.

Lemma blind_lit (w : string) : blind (re_lit w).
Proof.
  intros st. unfold re_lit. simpl. rewrite lit_from_lower_text.
  now destruct (lit_from w (prev st) (rest st)) as [[pv s]|].
Qed.

Lemma star_from_lower (p : ascii -> bool) (pv : option ascii) (s : string) :
  caseless p ->
  star_from p (option_map lower_char pv) (lower s)
  = map lower_pos (star_from p pv s).
Proof.
  intros Hp. revert pv. induction s as [|c s IH]; intros pv; simpl;
    [reflexivity|].
  rewrite Hp. destruct (p c); [|reflexivity].
  now rewrite map_app, <- (IH (Some c)).
Qed.

Lemma blind_star (p : ascii -> bool) : caseless p -> blind (re_star p).
Proof.
  intros Hp st. unfold re_star. simpl. rewrite (star_from_lower _ _ _ Hp).
  now rewrite !map_map.
Qed.

Lemma blind_plus (p : ascii -> bool) : caseless p -> blind (re_plus p).
Proof.
  intros Hp st. unfold re_plus. simpl.
  destruct (rest st) as [|c s]; simpl; [reflexivity|].
  rewrite Hp. destruct (p c); [|reflexivity].
  apply (blind_star p Hp (mkState (Some c) s (groups st))).
Qed.

Lemma blind_group (m : matcher) : blind m -> blind (re_group m).
Proof.
  intros Hm st. unfold re_group. rewrite Hm, !map_map.
  apply map_ext. intros st'. unfold lower_state. simpl.
  now rewrite map_app, !lower_length, lower_substring.
Qed.

Create HintDb blind.
#[export] Hint Resolve blind_seq blind_alt blind_opt blind_bol blind_lit
  blind_star blind_plus blind_group blind_lookbehind
  caseless_space caseless_word caseless_nonword : blind.

Lemma blind_routine_start : blind routine_start.
Proof. unfold routine_start. auto 12 with blind. Qed.

Lemma blind_routine_end : blind routine_end.
Proof. unfold routine_end. auto 12 with blind. Qed.

Lemma blind_call_pattern : blind call_pattern.
Proof. unfold call_pattern. auto 12 with blind. Qed.

Lemma blind_module_pattern : blind module_pattern.
Proof. unfold module_pattern. auto 12 with blind. Qed.

Lemma blind_routine_pattern : blind routine_pattern.
Proof. unfold routine_pattern. auto 12 with blind. Qed.

Lemma blind_continuation : blind continuation.
Proof. unfold continuation. auto 12 with blind. Qed.

Lemma match_at_lower (m : matcher) (pv : option ascii) (s : string) :
  blind m ->
  match_at m (option_map lower_char pv) (lower s)
  = option_map lower_match (match_at m pv s).
Proof.
  intros Hm. unfold match_at.
  change (mkState (option_map lower_char pv) (lower s) [])
    with (lower_state (mkState pv s [])).
  rewrite Hm. destruct (m (mkState pv s [])) as [|st l]; simpl; [reflexivity|].
  now rewrite !lower_length.
Qed.

Lemma re_match_lower (m : matcher) (line : string) :
  blind m ->
  re_match m (lower line) = option_map (map lower) (re_match m line).
Proof.
  intros Hm. unfold re_match.
  pose proof (match_at_lower m None line Hm) as E. cbn [option_map] in E.
  rewrite E. now destruct (match_at m None line) as [[gs n]|].
Qed.

Lemma group_lower (i : nat) (gs : list string) :
  group i (map lower gs) = lower (group i gs).
Proof. unfold group. apply (map_nth lower gs ""%string). Qed.

Lemma findall_from_lower (m : matcher) (pv : option ascii) (s : string)
  (skip : nat) :
  blind m ->
  findall_from m (option_map lower_char pv) (lower s) skip
  = map (map lower) (findall_from m pv s skip).
Proof.
  intros Hm. revert pv skip.
  induction s as [|c s IH]; intros pv skip; [reflexivity|].
  change (lower (String c s)) with (String (lower_char c) (lower s)).
  cbn [findall_from]. destruct skip as [|k]; [|apply (IH (Some c))].
  change (String (lower_char c) (lower s)) with (lower (String c s)).
  rewrite (match_at_lower m pv (String c s) Hm).
  destruct (match_at m pv (String c s)) as [[gs n]|]; cbn [option_map].
  - cbn [lower_match fst snd map]. f_equal. apply (IH (Some c)).
  - apply (IH (Some c)).
Qed.

Lemma findall_lower (m : matcher) (line : string) :
  blind m -> findall m (lower line) = map lower (findall m line).
Proof.
  intros Hm. unfold findall.
  pose proof (findall_from_lower m None line 0 Hm) as E.
  cbn [option_map] in E. rewrite E, !map_map.
  apply map_ext. intros gs. apply group_lower.
Qed.

Lemma sub_from_lower (m : matcher) (pv : option ascii) (s : string)
  (skip : nat) :
  blind m ->
  sub_from m (option_map lower_char pv) (lower s) skip
  = lower (sub_from m pv s skip).
Proof.
  intros Hm. revert pv skip.
  induction s as [|c s IH]; intros pv skip; [reflexivity|].
  change (lower (String c s)) with (String (lower_char c) (lower s)).
  cbn [sub_from]. destruct skip as [|k]; [|apply (IH (Some c))].
  change (String (lower_char c) (lower s)) with (lower (String c s)).
  rewrite (match_at_lower m pv (String c s) Hm).
  destruct (match_at m pv (String c s)) as [[gs [|n]]|];
    cbn [option_map lower_match fst snd lower];
    rewrite <- ?(IH (Some c)); reflexivity.
Qed.

Lemma splitlines_aux_lower (n : nat) (cur : string) (pending : bool)
  (s : string) :
  String.length s <= n ->
  splitlines_aux (lower cur) pending (lower s)
  = map lower (splitlines_aux cur pending s).
Proof.
  revert cur pending s.
  induction n as [|n IH]; intros cur pending [|c s] Hn; simpl in Hn;
    try (now destruct pending); try lia.
  change (lower (String c s)) with (String (lower_char c) (lower s)).
  cbn [splitlines_aux]. rewrite caseless_linebreak.
  destruct (is_linebreak c).
  - cbn [map]. f_equal. destruct s as [|d s']; [reflexivity|].
    change (lower (String d s')) with (String (lower_char d) (lower s')).
    cbv iota. rewrite caseless_cr, caseless_lf.
    destruct (Ascii.eqb c "013" && Ascii.eqb d "010")%bool.
    + apply (IH ""%string false s'). simpl in Hn. lia.
    + apply (IH ""%string false (String d s')). lia.
  - rewrite <- IH by lia. now rewrite lower_app.
Qed.

Lemma splitlines_lower (s : string) :
  splitlines (lower s) = map lower (splitlines s).
Proof.
  apply (splitlines_aux_lower (String.length s) ""%string false s). lia.
Qed.

Lemma logical_lines_lower (content : string) :
  logical_lines (lower content) = map lower (logical_lines content).
Proof.
  unfold logical_lines, sub_empty.
  pose proof (sub_from_lower continuation None content 0 blind_continuation)
    as E.
  cbn [option_map] in E. rewrite E. apply splitlines_lower.
Qed.

Lemma record_calls_lower (name : string) (calls : list string)
  (d : routines) :
  record_calls name (map lower calls) d = record_calls name calls d.
Proof.
  unfold record_calls. revert d.
  induction calls as [|c calls IH]; intros d; cbn [map fold_left];
    [reflexivity|].
  now rewrite lower_idem, IH.
Qed.

Lemma scan_line_lower (st : routines * option string) (line : string) :
  scan_line st (lower line) = scan_line st line.
Proof.
  unfold scan_line. destruct st as [d cur].
  rewrite (re_match_lower _ line blind_routine_start).
  rewrite (re_match_lower _ line blind_routine_end).
  rewrite (findall_lower _ line blind_call_pattern).
  destruct (re_match routine_start line) as [gs|]; cbn [option_map].
  - rewrite group_lower, lower_idem.
    destruct (truthy _); [|reflexivity]. now rewrite record_calls_lower.
  - destruct (re_match routine_end line); cbn [option_map];
      destruct (truthy _); trivial; now rewrite record_calls_lower.
Qed.

Lemma inventory_line_lower (st : list InventoryRecord * string)
  (line : string) :
  inventory_line st (lower line) = inventory_line st line.
Proof.
  unfold inventory_line. destruct st as [inv cm].
  rewrite (re_match_lower _ line blind_module_pattern).
  rewrite (re_match_lower _ line blind_routine_pattern).
  destruct (re_match module_pattern line) as [ms|];
    destruct (re_match routine_pattern line) as [gs|]; cbn [option_map];
    rewrite ?group_lower, ?lower_idem; reflexivity.
Qed.

Lemma fold_left_map_ext {A B} (f : A -> B -> A) (g : B -> B) (l : list B)
  (a : A) :
  (forall a b, f a (g b) = f a b) ->
  fold_left f (map g l) a = fold_left f l a.
Proof.
  intros H. revert a. induction l as [|b l IH]; intros a; simpl;
    [reflexivity|].
  now rewrite H, IH.
Qed.

Lemma scan_file_lower (d : routines) (content : string) :
  scan_file d (lower content) = scan_file d content.
Proof.
  unfold scan_file, scan_lines. rewrite logical_lines_lower.
  now rewrite (fold_left_map_ext scan_line lower _ _ scan_line_lower).
Qed.

Lemma inventory_file_lower (inv : list InventoryRecord) (content : string) :
  inventory_file inv (lower content) = inventory_file inv content.
Proof.
  unfold inventory_file. rewrite logical_lines_lower.
  now rewrite (fold_left_map_ext inventory_line lower _ _ inventory_line_lower).
Qed.

End CaseFacts.

Section CaseTheorems.
Import Text Regex Source Scanner Inventory Examples CaseFacts.

(** X10.  The tools do not see letter case in the sources: two texts
    that differ only in the case of their letters give the same
    mapping and the same inventory records. *)
Theorem sources_case_blind (d : routines) (inv : list InventoryRecord)
  (content content' : string) :
  lower content = lower content' ->
  scan_file d content = scan_file d content' /\
  inventory_file inv content = inventory_file inv content'.
Proof.
  intros H. split.
  - rewrite <- (scan_file_lower d content), H. apply scan_file_lower.
  - rewrite <- (inventory_file_lower inv content), H.
    apply inventory_file_lower.
Qed.

Lemma sources_case_blind_witness :
  scan_file [] (text ["Subroutine Run(x)"; "  CALL Init(x)"; "End Subroutine"])
  = scan_file [] (text ["subroutine run(X)"; "  call init(X)";
                        "end subroutine"]).
Proof.
  apply (sources_case_blind [] []). reflexivity.
Defined.

End CaseTheorems.

(* ================================================================= *)
(** ** Connectivity *)

Module ConnectivityFacts.
Import Text Scanner Frame Assembler Reorder Report.
Import DictFacts FrameFacts ReorderFacts AssemblerFacts CellFacts.

(** A list indexed by distinct labels is what reading it label by
    label gives. *)
Lemma map_index_of {A} (d : A) (axis : list string) (l : list A) :
  NoDup axis -> List.length l = List.length axis ->
  map (fun k => match index_of k axis with
                | Some i => nth i l d
                | None => d
                end) axis = l.
Proof.
  intros Hnd. revert l.
  induction Hnd as [|a axis Ha Hnd IH]; intros [|x l] Hlen;
    simpl in Hlen; try discriminate; [reflexivity|].
  cbn [map index_of]. rewrite String.eqb_refl. f_equal.
  etransitivity; [|apply (IH l); lia].
  apply map_ext_in. intros k Hk.
  destruct (String.eqb_spec a k) as [E|_]; [now subst|].
  now destruct (index_of k axis).
Qed.

(** The rows of a frame, read cell by cell. *)
Lemma values_by_cell (M : DataFrame) :
  wf M ->
  values M = map (fun r => map (cell_value M r) (columns M)) (index M).
Proof.
  intros (Hi & Hc & Hlen & Hrows).
  etransitivity; [symmetry; apply (map_index_of [] (index M) (values M) Hi Hlen)|].
  apply map_ext_in. intros r Hr.
  destruct (index_of_in r (index M) Hr) as (i & Ei). rewrite Ei.
  pose proof (index_of_lt _ _ _ Ei) as Li. rewrite <- Hlen in Li.
  assert (Hrow : List.length (nth i (values M) []) = List.length (columns M)).
  { rewrite Forall_forall in Hrows. apply Hrows. now apply nth_In. }
  etransitivity;
    [symmetry; apply (map_index_of 0%Z (columns M) _ Hc Hrow)|].
  apply map_ext_in. intros c Hcin. unfold cell_value, at_. rewrite Ei.
  destruct (index_of_in c (columns M) Hcin) as (j & Ej). rewrite Ej.
  pose proof (index_of_lt _ _ _ Ej) as Lj. rewrite <- Hrow in Lj.
  now rewrite (nth_error_nth' _ 0%Z Lj).
Qed.

Lemma sum_list_count {A} (p : A -> bool) (l : list A) :
  sum_list (map (fun x => if p x then 1%Z else 0%Z) l)
  = Z.of_nat (List.length (filter p l)).
Proof.
  induction l as [|x l IH]; [reflexivity|].
  cbn [map filter]. unfold sum_list in *. cbn [fold_right]. rewrite IH.
  destruct (p x); cbn [List.length]; lia.
Qed.

Lemma assemble_cell_value (d : routines) (r c : string) :
  In r (universe d) -> In c (universe d) ->
  cell_value (assemble d) r c = if records_call d r c then 1%Z else 0%Z.
Proof.
  intros Hr Hc. unfold cell_value.
  rewrite (proj2 (assemble_framed d)).
  rewrite (proj2 (existsb_eqb r (universe d)) Hr), andb_true_r.
  destruct (records_call d r c); [reflexivity|].
  now rewrite at_zeros.
Qed.

Lemma assemble_axes (d : routines) :
  index (assemble d) = universe d /\ columns (assemble d) = universe d.
Proof. destruct (assemble_framed d) as ((_ & Hi & Hc) & _). now split. Qed.

Lemma assemble_values (d : routines) :
  NoDup (Dict.keys d) ->
  values (assemble d)
  = map (fun r => map (fun c => if records_call d r c then 1%Z else 0%Z)
                      (universe d))
        (universe d).
Proof.
  intros Hnd. rewrite (values_by_cell _ (assemble_wf d Hnd)).
  destruct (assemble_axes d) as (-> & ->).
  apply map_ext_in. intros r Hr. apply map_ext_in. intros c Hc.
  now apply assemble_cell_value.
Qed.

Lemma combine_map_self {A B} (f : A -> B) (l : list A) :
  combine l (map f l) = map (fun x => (x, f x)) l.
Proof. induction l as [|x l IH]; simpl; congruence. Qed.

Lemma connectivity_count (d : routines) :
  NoDup (Dict.keys d) ->
  Forall (Forall (fun v => v = 0%Z \/ v = 1%Z)) (values (assemble d)) /\
  sum_axis1 (assemble d)
  = map (fun r => (r, Z.of_nat (List.length (callers d r)))) (universe d).
Proof.
  intros Hnd. split.
  - rewrite (assemble_values d Hnd).
    apply Forall_forall. intros row Hrow.
    apply in_map_iff in Hrow as (r & <- & _).
    apply Forall_forall. intros v Hv.
    apply in_map_iff in Hv as (c & <- & _).
    destruct (records_call d r c); auto.
  - unfold sum_axis1. rewrite (assemble_values d Hnd), map_map.
    rewrite (proj1 (assemble_axes d)), combine_map_self.
    apply map_ext. intros r. f_equal. apply sum_list_count.
Qed.

End ConnectivityFacts.

Section ConnectivityTheorems.
Import Text Scanner Frame Assembler Reorder Examples.
Import ConnectivityFacts.

(** X11.  The sum of the row of a routine in the assembled matrix (its
    total connectivity) is the number of routines of the Universe that
    call it, however often each of them does. *)
Theorem connectivity_counts_callers (d : routines) :
  NoDup (Dict.keys d) ->
  sum_axis1 (assemble d)
  = map (fun r => (r, Z.of_nat (List.length (callers d r)))) (universe d).
Proof. intros Hnd. apply (connectivity_count d Hnd). Qed.

Lemma connectivity_counts_callers_witness :
  sum_axis1 (assemble alpha_beta) = [("alpha", 0%Z); ("beta", 1%Z)].
Proof.
  rewrite (connectivity_counts_callers alpha_beta).
  - reflexivity.
  - repeat constructor; simpl; intuition discriminate.
Defined.

End ConnectivityTheorems.

(* ================================================================= *)
(** ** The connectivity column of the report *)

Module ReportFacts.
Import Text Scanner Frame Assembler Reorder Inventory Report Main.
Import DictFacts FrameFacts ReorderFacts AssemblerFacts CellFacts.
Import ConnectivityFacts MainFacts.

Lemma insert_connectivity_at (R SM : DataFrame) (p : list string)
  (r : string) :
  shaped R -> insert_connectivity R = Returned p SM ->
  at_ SM r "total_connectivity" = Dict.get r (sum_axis1 R).
Proof.
  intros (Hlen & _). unfold insert_connectivity.
  destruct (existsb _ (columns R)); [discriminate|].
  intros [= _ <-]. unfold at_, sum_axis1. cbn [index columns values index_of].
  rewrite String.eqb_refl.
  rewrite get_combine by (rewrite length_map; exact Hlen).
  destruct (index_of r (index R)) as [i|] eqn:Ei; [|reflexivity].
  pose proof (index_of_lt _ _ _ Ei) as Li. rewrite <- Hlen in Li.
  rewrite (nth_indep _ [] (sum_list [] :: []))
    by (rewrite length_map; exact Li).
  rewrite (map_nth (fun row => sum_list row :: row)).
  cbn [nth_error].
  rewrite (nth_error_nth' _ (sum_list []))
    by (rewrite length_map; exact Li).
  now rewrite (map_nth sum_list).
Qed.

Lemma get_map_self {V} (f : string -> V) (l : list string) (k : string) :
  In k l -> Dict.get k (map (fun x => (x, f x)) l) = Some (f k).
Proof.
  induction l as [|x l IH]; [intros []|]. cbn [map Dict.get].
  destruct (String.eqb_spec x k) as [->|Hne]; [reflexivity|].
  intros [E|H]; [now elim Hne|now apply IH].
Qed.

End ReportFacts.

Section ReportTheorems.
Import Text Scanner Frame Assembler Reorder Inventory Report Main Examples.
Import DictFacts FrameFacts ReorderFacts AssemblerFacts CellFacts.
Import ConnectivityFacts MainFacts ReportFacts.

(** X12.  In a run of [main] that returns, the column
    [total_connectivity] of the sorted matrix holds, for every routine
    of the Universe, the number of routines of the Universe that call
    it. *)
Theorem report_connectivity (sort_values : Series -> Series) (args : Args)
  (files : listing) (printed : list string) (art : Artifacts) (r : string) :
  (forall s, Permutation (sort_values s) s) ->
  main sort_values args (Some files) = Returned printed art ->
  In r (Dict.keys (scan_listing files)) ->
  at_ (sorted_matrix art) r "total_connectivity"
  = Some (Z.of_nat (List.length (callers (scan_listing files) r))).
Proof.
  intros Hperm Hm Hr.
  apply main_returned in Hm as (_ & p1 & _ & Hi & _).
  pose proof (scanned_matrix_wf files) as Hwf. fold (scanned files) in Hwf.
  pose proof (reorder_by_sum_wf sort_values Hperm _ Hwf) as HR.
  rewrite (insert_connectivity_at _ _ _ r (wf_shaped _ HR) Hi).
  rewrite (reorder_sum_axis1 sort_values Hperm _ Hwf).
  assert (Hnd : NoDup (Dict.keys (scan_listing files)))
    by apply ScannerFacts.no_self_scan_listing.
  pose proof (proj2 (connectivity_count (scan_listing files) Hnd)) as Hs.
  fold (scanned files) in Hs.
  rewrite (get_perm (sum_axis1 (scanned files))).
  - rewrite Hs. apply (get_map_self (fun r => Z.of_nat _)).
    now apply in_universe.
  - rewrite Hs, map_map. cbn [fst]. rewrite map_id.
    apply (Permutation_NoDup (Permutation_sym (sorted_perm _)) Hnd).
  - apply Permutation_sym, Hperm.
Qed.

Lemma report_connectivity_witness :
  exists printed art,
    main sort_values_stable default_args (Some mutual) = Returned printed art /\
    at_ (sorted_matrix art) "ping" "total_connectivity" = Some 1%Z.
Proof.
  eexists _, _. split; [vm_compute; reflexivity|].
  eapply (report_connectivity sort_values_stable default_args mutual).
  - apply (sort_perm _ sort_values_stable_contract).
  - vm_compute. reflexivity.
  - vm_compute. now left.
Defined.

End ReportTheorems.

(* ================================================================= *)
(** ** A directory without routines *)

Section EmptyRun.
Import Text Scanner Frame Assembler Reorder Inventory Report Main Examples.
Import DictFacts ReorderFacts InventoryFacts MainFacts.

(** X13.  On a directory in which the inventory finds no routine,
    [main] returns: the sorted matrix is empty but for the column
    [total_connectivity], the run prints [No routines found for
    inventory.] and composes no extended matrix. *)
Theorem main_no_routines (sort_values : Series -> Series) (args : Args)
  (files : listing) :
  (forall s, Permutation (sort_values s) s) ->
  inventory_listing files = [] ->
  main sort_values args (Some files)
  = Returned
      (["Append adjacency matrix with connectivity"]
       ++ (if no_matrix args then []
           else [("Adjacency matrix saved to " ++ output_matrix args)%string])
       ++ ["No routines found for inventory."])
      (mkArtifacts (mkFrame [] ["total_connectivity"] []) [] None).
Proof.
  intros Hperm Hinv.
  assert (Hd : scan_listing files = []).
  { destruct (scan_listing files) as [|[k v] d] eqn:E; [reflexivity|].
    assert (Hk : In k (Dict.keys (scan_listing files)))
      by (rewrite E; now left).
    apply scanned_in_inventory in Hk. rewrite Hinv in Hk. destruct Hk. }
  unfold main, generate_fortran_matrix, scan_fortran_directory.
  rewrite Hd, Hinv.
  assert (Hs : sort_values [] = [])
    by (apply Permutation_nil, Permutation_sym, Hperm).
  assert (Hr : reorder_by_sum sort_values (assemble []) = mkFrame [] [] []).
  { change (assemble []) with (mkFrame [] [] []). unfold reorder_by_sum.
    change (sum_axis1 (mkFrame [] [] [])) with (@nil (string * Z)).
    rewrite Hs.
    change (loc_rows (mkFrame [] [] []) (map fst [])) with (mkFrame [] [] []).
    change (sum_axis0 (mkFrame [] [] [])) with (@nil (string * Z)).
    rewrite Hs. reflexivity. }
  cbn [bind]. rewrite Hr. cbn. now destruct (no_matrix args).
Qed.

Lemma main_no_routines_witness :
  exists printed,
    main sort_values_stable default_args (Some [("notes.txt", "call f(x)")])
    = Returned printed
        (mkArtifacts (mkFrame [] ["total_connectivity"] []) [] None).
Proof.
  eexists.
  apply (main_no_routines sort_values_stable default_args
           [("notes.txt", "call f(x)")]).
  - apply (sort_perm _ sort_values_stable_contract).
  - reflexivity.
Defined.

End EmptyRun.

(* ================================================================= *)
(** ** Joined lines, repeated calls, repeated declarations *)

Module MoreFacts.
Import Text Regex Source Scanner Frame Assembler Reorder Inventory Report Main.
Import DictFacts FrameFacts ReorderFacts AssemblerFacts CellFacts.
Import ConnectivityFacts InventoryFacts MainFacts.

Lemma ampersand_lower (c : ascii) :
  Ascii.eqb (lower_char "&") (lower_char c) = Ascii.eqb c "&".
Proof. destruct c as [[] [] [] [] [] [] [] []]; reflexivity. Qed.

Lemma continuation_needs_ampersand (pv : option ascii) (c : ascii)
  (s : string) :
  Ascii.eqb c "&" = false -> match_at continuation pv (String c s) = None.
Proof.
  intros H. unfold match_at, continuation, re_seq, re_lit.
  cbn [rest prev lit_from]. now rewrite ampersand_lower, H.
Qed.

Lemma sub_from_without (pv : option ascii) (s : string) :
  contains "&" s = false -> sub_from continuation pv s 0 = s.
Proof.
  revert pv. induction s as [|c s IH]; intros pv; [reflexivity|].
  cbn [contains sub_from]. intros H. apply orb_false_iff in H as (Hc & Hs).
  rewrite (continuation_needs_ampersand pv c s Hc). now rewrite IH.
Qed.

(** The matrix of a mapping, from its keys and from who calls whom. *)
Lemma assemble_eq (d : routines) :
  NoDup (Dict.keys d) ->
  assemble d
  = mkFrame (universe d) (universe d)
      (map (fun r => map (fun c => if records_call d r c then 1%Z else 0%Z)
                         (universe d))
           (universe d)).
Proof.
  intros Hnd. pose proof (assemble_values d Hnd) as Hv.
  destruct (assemble_axes d) as (Hi & Hc).
  destruct (assemble d) as [i c v]. cbn in *. now subst.
Qed.

Lemma list_sum_cons (a : nat) (l : list nat) :
  list_sum (a :: l) = a + list_sum l.
Proof. reflexivity. Qed.

Lemma count_disjoint {A} (f : A -> string) (a : string)
  (labels : list string) (l : list A) :
  ~ In a labels ->
  List.length (filter (fun r => String.eqb (f r) a) l)
  + List.length (filter (fun r => existsb (String.eqb (f r)) labels) l)
  = List.length (filter (fun r => String.eqb (f r) a
                                  || existsb (String.eqb (f r)) labels) l).
Proof.
  intros Ha. induction l as [|r l IHl]; [reflexivity|]. cbn [filter].
  destruct (String.eqb_spec (f r) a) as [E|Hne]; cbn [orb].
  - assert (Hx : existsb (String.eqb (f r)) labels = false).
    { destruct (existsb (String.eqb (f r)) labels) eqn:X; [|reflexivity].
      apply existsb_eqb in X. rewrite E in X. now elim Ha. }
    rewrite Hx. cbn [List.length]. rewrite <- IHl. lia.
  - destruct (existsb (String.eqb (f r)) labels); cbn [List.length];
      rewrite <- IHl; lia.
Qed.

(** Counting the records of each label of a list without repetition
    counts the records whose label is in the list. *)
Lemma count_by_label {A} (f : A -> string) (labels : list string)
  (l : list A) :
  NoDup labels ->
  list_sum (map (fun label =>
                   List.length (filter (fun r => String.eqb (f r) label) l))
                labels)
  = List.length (filter (fun r => existsb (String.eqb (f r)) labels) l).
Proof.
  intros Hnd. induction Hnd as [|a labels Ha Hnd IH]; cbn [map].
  - cbn [existsb]. induction l as [|r l IHl]; [reflexivity|exact IHl].
  - rewrite list_sum_cons, IH. cbn [existsb]. now apply count_disjoint.
Qed.

Lemma join_row_length (inv : list InventoryRecord) (label : string)
  (row : list Z) :
  In label (map obj_name inv) ->
  List.length (join_row inv label row)
  = List.length (filter (fun r => String.eqb (obj_name r) label) inv).
Proof.
  intros H. unfold join_row.
  destruct (filter _ inv) as [|x l] eqn:E; [|now rewrite length_map].
  apply in_map_iff in H as (r & <- & Hr).
  assert (Hin : In r (filter (fun r0 => String.eqb (obj_name r0) (obj_name r))
                             inv))
    by (apply filter_In; split; [assumption|apply String.eqb_refl]).
  rewrite E in Hin. destruct Hin.
Qed.

Lemma length_flat_map {A B} (g : A -> list B) (l : list A) :
  List.length (flat_map g l) = list_sum (map (fun x => List.length (g x)) l).
Proof.
  induction l as [|x l IH]; [reflexivity|].
  cbn [flat_map map]. now rewrite list_sum_cons, length_app, IH.
Qed.

Lemma joined_rows_length (inv : list InventoryRecord) (labels : list string)
  (rows : list (list Z)) :
  List.length rows = List.length labels ->
  (forall label, In label labels -> In label (map obj_name inv)) ->
  List.length (flat_map (fun r => join_row inv (fst r) (snd r))
                        (combine labels rows))
  = list_sum (map (fun label =>
                     List.length
                       (filter (fun r => String.eqb (obj_name r) label) inv))
                  labels).
Proof.
  revert rows. induction labels as [|a labels IH]; intros [|row rows] Hlen Hin;
    simpl in Hlen; try discriminate; [reflexivity|].
  cbn [combine flat_map map fst snd].
  rewrite list_sum_cons, length_app, join_row_length by (apply Hin; now left).
  rewrite IH; [reflexivity|lia|]. intros l Hl. apply Hin. now right.
Qed.

Lemma filter_ext_in_iff {A} (p q : A -> bool) (l : list A) :
  (forall x, In x l -> p x = q x) -> filter p l = filter q l.
Proof.
  induction l as [|x l IH]; intros H; [reflexivity|]. cbn [filter].
  rewrite (H x) by now left. rewrite IH; [reflexivity|].
  intros y Hy. apply H. now right.
Qed.

Lemma existsb_eqb_iff (x : string) (l l' : list string) :
  (forall k, In k l <-> In k l') ->
  existsb (String.eqb x) l = existsb (String.eqb x) l'.
Proof.
  intros H. destruct (existsb (String.eqb x) l') eqn:E.
  - apply existsb_eqb. apply H. now apply existsb_eqb.
  - destruct (existsb (String.eqb x) l) eqn:E'; [|reflexivity].
    apply existsb_eqb, H, existsb_eqb in E'. congruence.
Qed.

End MoreFacts.

Section MoreTheorems.
Import Text Regex Source Scanner Frame Assembler Reorder Inventory Report Main.
Import Examples.
Import DictFacts FrameFacts ReorderFacts AssemblerFacts CellFacts.
Import ConnectivityFacts InventoryFacts MainFacts MoreFacts.

(** X14.  A text without [&] has no line to join: its logical lines
    are its lines. *)
Theorem no_ampersand_no_join (content : string) :
  contains "&" content = false ->
  logical_lines content = splitlines content.
Proof.
  intros H. unfold logical_lines, sub_empty. now rewrite sub_from_without.
Qed.

Lemma no_ampersand_no_join_witness :
  logical_lines (text ["subroutine a"; "end"]) = ["subroutine a"; "end"].
Proof.
  rewrite (no_ampersand_no_join (text ["subroutine a"; "end"]));
    reflexivity.
Defined.

(** X15.  The matrix keeps who calls whom and nothing else of the
    lists of callees: two mappings with the same keys in which the same
    routines call the same routines give the same matrix, whatever the
    order and the number of the calls. *)
Theorem assemble_forgets_repeats (d d' : routines) :
  NoDup (Dict.keys d) -> Dict.keys d' = Dict.keys d ->
  (forall callee caller,
     records_call d' callee caller = records_call d callee caller) ->
  assemble d' = assemble d.
Proof.
  intros Hnd Hk Hc.
  assert (Hnd' : NoDup (Dict.keys d')) by now rewrite Hk.
  rewrite (assemble_eq d Hnd), (assemble_eq d' Hnd').
  unfold universe. rewrite Hk. f_equal.
  apply map_ext. intros r. apply map_ext. intros c. now rewrite Hc.
Qed.

Lemma assemble_forgets_repeats_witness :
  assemble [("a", ["b"; "c"; "b"]); ("b", []); ("c", [])]
  = assemble [("a", ["c"; "b"]); ("b", []); ("c", [])].
Proof.
  apply (assemble_forgets_repeats
           [("a", ["c"; "b"]); ("b", []); ("c", [])]
           [("a", ["b"; "c"; "b"]); ("b", []); ("c", [])]).
  - repeat constructor; simpl; intuition discriminate.
  - reflexivity.
  - intros callee caller. unfold records_call. cbn [existsb fst snd].
    destruct (String.eqb "a" caller); cbn [andb orb]; [|reflexivity].
    destruct (String.eqb callee "b"), (String.eqb callee "c"); reflexivity.
Defined.

(** X16.  In a run of [main] that returns an extended matrix, the
    matrix has one row for each inventory record of a routine of the
    Universe: a routine that the inventory lists twice has two rows. *)
Theorem extended_rows_count (sort_values : Series -> Series) (args : Args)
  (files : listing) (printed : list string) (art : Artifacts)
  (ext : Extended) :
  (forall s, Permutation (sort_values s) s) ->
  main sort_values args (Some files) = Returned printed art ->
  extended_matrix art = Some ext ->
  List.length (rows ext)
  = List.length
      (filter (fun r => existsb (String.eqb (obj_name r))
                                (Dict.keys (scan_listing files)))
              (inventory_listing files)).
Proof.
  intros Hperm Hm He.
  apply main_returned in Hm as (_ & p1 & p2 & Hi & Ha).
  rewrite He in Ha. apply annotate_returned in Ha. rewrite Ha.
  pose proof (scanned_matrix_wf files) as Hwf. fold (scanned files) in Hwf.
  pose proof (reorder_by_sum_wf sort_values Hperm _ Hwf)
    as (Hnd & _ & Hlen & _).
  assert (Hidx : index (sorted_matrix art)
                 = index (reorder_by_sum sort_values (scanned files)) /\
                 List.length (values (sorted_matrix art))
                 = List.length (values (reorder_by_sum sort_values
                                                       (scanned files)))).
  { unfold insert_connectivity in Hi.
    destruct (existsb _ _); [discriminate|].
    injection Hi as _ <-. cbn [index values]. now rewrite length_map. }
  destruct Hidx as (Hidx & Hvals).
  rewrite joined_rows_length.
  - rewrite Hidx, (count_by_label obj_name _ _ Hnd).
    f_equal. apply filter_ext_in_iff. intros r _.
    apply existsb_eqb_iff. intros k.
    apply (reordered_index sort_values Hperm files k).
  - now rewrite Hvals, Hidx.
  - intros label Hl. rewrite Hidx in Hl.
    apply (reordered_index sort_values Hperm) in Hl.
    now apply scanned_in_inventory.
Qed.

Lemma extended_rows_count_witness :
  exists printed art ext,
    main sort_values_stable default_args
         (Some [("a.f90", "subroutine s(x)"); ("b.f90", "subroutine s(y)")])
    = Returned printed art /\
    extended_matrix art = Some ext /\
    List.length (rows ext) = 2.
Proof.
  eexists _, _, _. split; [vm_compute; reflexivity|].
  split; [reflexivity|].
  eapply (extended_rows_count sort_values_stable default_args
            [("a.f90", "subroutine s(x)"); ("b.f90", "subroutine s(y)")]).
  - apply (sort_perm _ sort_values_stable_contract).
  - vm_compute. reflexivity.
  - reflexivity.
Defined.

End MoreTheorems.

(* ================================================================= *)
(** ** The formatter *)

Module StripFacts.
Import Text Indent.

Lemma rstrip_class_weaker (p q : ascii -> bool) (s : string) :
  (forall c, q c = true -> p c = true) ->
  rstrip_class p (rstrip_class q s) = rstrip_class p s.
Proof.
  intros Hqp. induction s as [|c s IH]; [reflexivity|].
  cbn [rstrip_class]. destruct (rstrip_class q s) as [|d t] eqn:E.
  - cbn [rstrip_class] in IH. rewrite <- IH.
    destruct (q c) eqn:Q; [now rewrite (Hqp c Q)|reflexivity].
  - cbn [rstrip_class] in *. now rewrite IH.
Qed.

Lemma rstrip_class_idem (p : ascii -> bool) (s : string) :
  rstrip_class p (rstrip_class p s) = rstrip_class p s.
Proof. now apply rstrip_class_weaker. Qed.

Lemma newline_is_space (c : ascii) :
  Ascii.eqb "010" c = true -> is_space c = true.
Proof. intros H. apply Ascii.eqb_eq in H. now subst. Qed.

(** The line feeds that [rstrip] removes first, [strip] would remove
    as well. *)
Lemma strip_rstrip_newline (raw : string) :
  strip (rstrip_class (Ascii.eqb "010") raw) = strip raw.
Proof.
  unfold strip. now rewrite (rstrip_class_weaker _ _ raw newline_is_space).
Qed.

Lemma lstrip_idem (s : string) : lstrip (lstrip s) = lstrip s.
Proof.
  induction s as [|c s IH]; [reflexivity|]. cbn [lstrip].
  destruct (is_space c) eqn:E; [exact IH|]. cbn [lstrip]. now rewrite E.
Qed.

Lemma rstrip_class_lstrip (s : string) :
  rstrip_class is_space s = s ->
  rstrip_class is_space (lstrip s) = lstrip s.
Proof.
  induction s as [|c s IH]; [reflexivity|]. intros H.
  cbn [lstrip]. destruct (is_space c) eqn:E; [|exact H].
  apply IH. cbn [rstrip_class] in H.
  destruct (rstrip_class is_space s) as [|d t].
  - rewrite E in H. discriminate.
  - now injection H.
Qed.

(** What [strip] returns has no white space at either end. *)
Lemma strip_fixed (s : string) :
  lstrip (strip s) = strip s /\ rstrip_class is_space (strip s) = strip s.
Proof.
  unfold strip. split; [apply lstrip_idem|].
  apply rstrip_class_lstrip, rstrip_class_idem.
Qed.

Lemma append_assoc (a b c : string) :
  (a ++ b ++ c = (a ++ b) ++ c)%string.
Proof. induction a as [|x a IH]; simpl; congruence. Qed.

Lemma rstrip_class_prepend (p : ascii -> bool) (a t : string) :
  t <> ""%string -> rstrip_class p t = t ->
  rstrip_class p (a ++ t) = (a ++ t)%string.
Proof.
  intros Hne Ht. induction a as [|c a IH]; [exact Ht|].
  cbn [append rstrip_class]. rewrite IH.
  destruct (a ++ t)%string eqn:E; [|reflexivity].
  destruct a; [now elim Hne|discriminate].
Qed.

Lemma rstrip_class_newline (p : ascii -> bool) (t : string) (c : ascii) :
  p c = true ->
  rstrip_class p (t ++ String c "") = rstrip_class p t.
Proof.
  intros Hc. induction t as [|d t IH]; cbn [append rstrip_class].
  - now rewrite Hc.
  - now rewrite IH.
Qed.

Lemma lstrip_spaces (n : Z) (t : string) : lstrip (spaces n ++ t) = lstrip t.
Proof.
  unfold spaces. induction (Z.to_nat n) as [|k IH]; [reflexivity|].
  exact IH.
Qed.

(** Indenting a stripped text and ending it with a line feed changes
    nothing that [strip] keeps. *)
Lemma strip_emitted (n : Z) (s : string) :
  strip s <> ""%string ->
  strip (spaces n ++ strip s ++ String "010" "") = strip s.
Proof.
  intros Hne. destruct (strip_fixed s) as (Hl & Hr).
  unfold strip at 1. rewrite append_assoc.
  rewrite rstrip_class_newline by reflexivity.
  rewrite (rstrip_class_prepend _ _ _ Hne Hr).
  now rewrite lstrip_spaces.
Qed.

End StripFacts.

Module IndentFacts.
Import Text Regex Lookaround Indent StripFacts.

Lemma format_line_emits (n : Z) (st : Formatter) (raw : string) :
  (0 <= indent_level st)%Z ->
  (0 <= indent_level (format_line n st raw))%Z /\
  exists k, (0 <= k)%Z /\
            out (format_line n st raw) = out st ++ [emitted_at n k raw].
Proof.
  intros H0. unfold format_line, emitted_at. fold (line_of raw).
  destruct (String.eqb (strip (line_of raw)) "");
    [|destruct (re_test CONTINUATION_START (line_of raw));
      [|destruct (re_test COMMENT_RE (line_of raw));
        [|destruct (re_test MIDDLE_DEDENT_RE (line_of raw));
          destruct (re_test CLOSING_RE (line_of raw));
          destruct (re_test OPENING_RE (line_of raw) && _ && _)]]];
    cbn [out indent_level]; (split; [lia|]);
    first [ exists 0%Z; split; [lia|reflexivity]
          | eexists; (split; [|reflexivity]); lia ].
Qed.

(** A step depends on the state through the level only. *)
Lemma format_line_from (n : Z) (st : Formatter) (raw : string) (b : bool) :
  out (format_line n st raw)
  = out st ++ out (format_line n (mkFormatter [] (indent_level st) b) raw) /\
  indent_level (format_line n st raw)
  = indent_level (format_line n (mkFormatter [] (indent_level st) b) raw).
Proof.
  unfold format_line. fold (line_of raw). cbn [out indent_level].
  destruct (String.eqb (strip (line_of raw)) "");
    [|destruct (re_test CONTINUATION_START (line_of raw));
      [|destruct (re_test COMMENT_RE (line_of raw))]];
    cbn [out indent_level app]; split; reflexivity.
Qed.

Lemma fold_format_line_from (n : Z) (lines : list string) (st : Formatter) :
  out (fold_left (format_line n) lines st)
  = out st ++ out (run n lines (indent_level st)) /\
  indent_level (fold_left (format_line n) lines st)
  = indent_level (run n lines (indent_level st)).
Proof.
  unfold run. revert st.
  induction lines as [|raw lines IH]; intros st; cbn [fold_left].
  - cbn [out indent_level]. now rewrite app_nil_r.
  - destruct (IH (format_line n st raw)) as (-> & ->).
    destruct (IH (format_line n (mkFormatter [] (indent_level st) false) raw))
      as (-> & ->).
    destruct (format_line_from n st raw false) as (-> & ->).
    now rewrite app_assoc.
Qed.

Lemma run_app (n : Z) (l1 l2 : list string) (level : Z) :
  out (run n (l1 ++ l2) level)
  = out (run n l1 level) ++ out (run n l2 (indent_level (run n l1 level))) /\
  indent_level (run n (l1 ++ l2) level)
  = indent_level (run n l2 (indent_level (run n l1 level))).
Proof.
  assert (E : run n (l1 ++ l2) level
              = fold_left (format_line n) l2 (run n l1 level))
    by (unfold run; apply fold_left_app).
  rewrite E. apply (fold_format_line_from n l2 (run n l1 level)).
Qed.

Lemma run_emits (n : Z) (lines : list string) (level : Z) :
  (0 <= level)%Z ->
  Forall2 (fun raw o => exists k, (0 <= k)%Z /\ o = emitted_at n k raw)
          lines (out (run n lines level)).
Proof.
  revert level. induction lines as [|raw lines IH]; intros level H0.
  - constructor.
  - change (raw :: lines) with ([raw] ++ lines).
    rewrite (proj1 (run_app n [raw] lines level)).
    unfold run at 1 3. cbn [fold_left].
    destruct (format_line_emits n (mkFormatter [] level false) raw H0)
      as (H1 & k & Hk & ->).
    cbn [out app]. constructor; [now exists k|]. now apply IH.
Qed.

Lemma passive_step (n : Z) (st : Formatter) (raw : string) :
  passive raw = true ->
  indent_level (format_line n st raw) = indent_level st /\
  exists o, out (format_line n st raw) = out st ++ [o].
Proof.
  unfold passive, format_line. fold (line_of raw).
  destruct (String.eqb (strip (line_of raw)) "");
    [|destruct (re_test CONTINUATION_START (line_of raw));
      [|destruct (re_test COMMENT_RE (line_of raw)); [|discriminate]]];
    intros _; cbn [out indent_level]; (split; [reflexivity|]);
    eexists; reflexivity.
Qed.

Lemma strip_emitted_at (n k : Z) (raw : string) :
  strip (emitted_at n k raw ++ String "010" "") = strip raw.
Proof.
  unfold emitted_at. rewrite <- (strip_rstrip_newline raw). fold (line_of raw).
  destruct (String.eqb_spec (strip (line_of raw)) "") as [E|Hne].
  - now rewrite E.
  - rewrite <- append_assoc. now apply strip_emitted.
Qed.

Lemma Forall2_map_right {A B C} (R : A -> C -> Prop) (f : B -> C)
  (l : list A) (l' : list B) :
  Forall2 (fun a b => R a (f b)) l l' -> Forall2 R l (map f l').
Proof. induction 1; constructor; assumption. Qed.

Lemma format_lines_emits (lines : list string) (n : Z) :
  Forall2 (fun raw o =>
             exists k, (0 <= k)%Z /\
                       o = (emitted_at n k raw ++ String "010" "")%string)
          lines (format_lines lines n).
Proof.
  unfold format_lines. fold (run n lines 0).
  apply Forall2_map_right.
  eapply Forall2_impl; [|apply (run_emits n lines 0); lia].
  intros raw o (k & Hk & ->). now exists k.
Qed.

End IndentFacts.

Section IndentTheorems.
Import Text Regex Lookaround Indent StripFacts IndentFacts.

(** X17.  [format_lines] gives one line for each line it is given.
    The two differ only in white space at their ends: a blank line
    becomes a single line feed; any other line becomes its stripped
    text after [k * indent_size] spaces, for a level [k] that is never
    negative, and before one line feed. *)
Theorem format_lines_layout (lines : list string) (indent_size : Z) :
  Forall2 (fun raw o =>
             strip o = strip raw /\
             exists k, (0 <= k)%Z /\
                       o = (emitted_at indent_size k raw
                            ++ String "010" "")%string)
          lines (format_lines lines indent_size).
Proof.
  eapply Forall2_impl; [|apply format_lines_emits].
  intros raw o (k & Hk & ->). split; [apply strip_emitted_at|].
  now exists k.
Qed.

(** X18.  Blank lines, comments and lines that start with [&] are put
    out where the nesting stands and leave it as it is: without such a
    line the other lines come out the same. *)
Theorem passive_lines_transparent (before after : list string) (raw : string)
  (indent_size : Z) :
  passive raw = true ->
  exists A o B,
    format_lines (before ++ raw :: after) indent_size = A ++ o :: B /\
    format_lines (before ++ after) indent_size = A ++ B /\
    List.length A = List.length before.
Proof.
  intros Hp. unfold format_lines.
  fold (run indent_size (before ++ raw :: after) 0).
  fold (run indent_size (before ++ after) 0).
  rewrite (proj1 (run_app _ before (raw :: after) 0)).
  rewrite (proj1 (run_app _ before after 0)).
  set (L := indent_level (run indent_size before 0)).
  change (raw :: after) with ([raw] ++ after).
  rewrite (proj1 (run_app _ [raw] after L)).
  unfold run at 2 4. cbn [fold_left].
  destruct (passive_step indent_size (mkFormatter [] L false) raw Hp)
    as (-> & o & ->).
  cbn [out indent_level app]. rewrite !map_app. cbn [map].
  eexists _, _, _. split; [reflexivity|]. split; [reflexivity|].
  rewrite length_map.
  symmetry. apply (Forall2_length (run_emits indent_size before 0 ltac:(lia))).
Qed.

Lemma passive_lines_transparent_witness :
  exists A o B,
    format_lines (["do i = 1, n"] ++ "! end" :: ["x = i"]) 2 = A ++ o :: B /\
    format_lines (["do i = 1, n"] ++ ["x = i"]) 2 = A ++ B /\
    List.length A = 1.
Proof.
  apply (passive_lines_transparent ["do i = 1, n"] ["x = i"] "! end" 2).
  reflexivity.
Defined.

End IndentTheorems.

(* ================================================================= *)
(** ** Lines that start with a keyword *)

Module KeywordFacts.
Import Text Regex Lookaround Indent RegexFacts StripFacts IndentFacts.

(** [\s*] stops at the first character that is no white space, or
    before a white space. *)
Lemma star_space_positions (pv : option ascii) (s : string)
  (r : option ascii * string) :
  In r (star_from is_space pv s) ->
  snd r = lstrip s \/ exists c t, snd r = String c t /\ is_space c = true.
Proof.
  revert pv. induction s as [|c s IH]; intros pv; cbn [star_from lstrip].
  - intros [<-|[]]. now left.
  - destruct (is_space c) eqn:E.
    + intros H. apply in_app_or in H as [H|[<-|[]]].
      * apply (IH _ H).
      * right. now exists c, s.
    + intros [<-|[]]. now left.
Qed.

(** A pattern [^\s*X] matches only if [X] matches where the white
    space ends, or at a white space. *)
Lemma anchored (X : matcher) (Q : string -> Prop) (line : string) :
  (forall st, X st <> [] -> Q (rest st)) ->
  re_test (re_bol ;; re_star is_space ;; X)%re line = true ->
  Q (lstrip line) \/ exists c t, is_space c = true /\ Q (String c t).
Proof.
  intros HX. unfold re_test, re_match, match_at.
  destruct ((re_bol ;; re_star is_space ;; X)%re (mkState None line []))
    as [|st' l] eqn:E; [discriminate|]. intros _.
  assert (H : In st' ((re_bol ;; re_star is_space ;; X)%re
                        (mkState None line [])))
    by (rewrite E; now left).
  apply in_re_seq in H as (s1 & H1 & H).
  destruct H1 as [<-|[]].
  apply in_re_seq in H as (s2 & H2 & H).
  assert (HQ : Q (rest s2)) by (apply HX; intros E2; now rewrite E2 in H).
  unfold re_star in H2. apply in_map_iff in H2 as (r & <- & Hr).
  cbn [rest prev] in *.
  apply star_space_positions in Hr as [E1|(c & t & E1 & Hc)];
    rewrite E1 in HQ; [now left|right; now exists c, t].
Qed.

Lemma space_lower (c : ascii) : is_space c = true -> lower_char c = c.
Proof. destruct c as [[] [] [] [] [] [] [] []]; easy. Qed.

(** The same, for an [X] that starts with a character that is no white
    space. *)
Lemma anchored_word (X : matcher) (Q : string -> Prop) (line : string) :
  (forall st, X st <> [] -> Q (rest st)) ->
  (forall s a, Q s -> head1 s = Some a -> is_space a = false) ->
  re_test (re_bol ;; re_star is_space ;; X)%re line = true ->
  Q (lstrip line).
Proof.
  intros HX HQ H. apply (anchored X Q line HX) in H as [H|(c & t & Hc & H)];
    [exact H|].
  specialize (HQ _ c H). cbn [head1] in HQ.
  rewrite (space_lower c Hc) in HQ. specialize (HQ eq_refl). congruence.
Qed.

Lemma head2_head1 (s : string) (a b : ascii) :
  head2 s = Some (a, b) -> head1 s = Some a.
Proof. destruct s as [|x [|y s]]; cbn; congruence. Qed.

Lemma lit_head1 (x : ascii) (w : string) (pv : option ascii) (s : string) :
  lit_from (String x w) pv s <> None -> head1 s = Some (lower_char x).
Proof.
  destruct s as [|a s]; cbn [lit_from head1]; [easy|].
  destruct (Ascii.eqb_spec (lower_char x) (lower_char a)) as [->|]; easy.
Qed.

Lemma lit_head2 (x y : ascii) (w : string) (pv : option ascii) (s : string) :
  lit_from (String x (String y w)) pv s <> None ->
  head2 s = Some (lower_char x, lower_char y).
Proof.
  destruct s as [|a [|b s]]; cbn [lit_from head2]; try easy.
  - now destruct (Ascii.eqb (lower_char x) (lower_char a)).
  - destruct (Ascii.eqb_spec (lower_char x) (lower_char a)) as [->|]; [|easy].
    destruct (Ascii.eqb_spec (lower_char y) (lower_char b)) as [->|]; easy.
Qed.

Lemma lit_seq_matches (w : string) (m : matcher) (st : state) :
  (re_lit w ;; m)%re st <> [] -> lit_from w (prev st) (rest st) <> None.
Proof.
  unfold re_seq, re_lit. destruct (lit_from w (prev st) (rest st)); easy.
Qed.

Lemma lit_matches (w : string) (st : state) :
  re_lit w st <> [] -> lit_from w (prev st) (rest st) <> None.
Proof. unfold re_lit. destruct (lit_from w (prev st) (rest st)); easy. Qed.

Lemma re_any_matches (ms : list matcher) (st : state) :
  re_any ms st <> [] -> exists m, In m ms /\ m st <> [].
Proof.
  unfold re_any. induction ms as [|m ms IH]; cbn [flat_map]; [easy|].
  destruct (m st) as [|x l] eqn:E.
  - intros H. destruct (IH H) as (m' & Hin & Hm').
    exists m'. split; [now right|assumption].
  - intros _. exists m. split; [now left|]. now rewrite E.
Qed.

Lemma middle_leads (line : string) :
  re_test MIDDLE_DEDENT_RE line = true -> middle_head (lstrip line).
Proof.
  apply anchored_word.
  - intros st H. apply re_any_matches in H as (m & Hin & H).
    cbn [In] in Hin.
    repeat (destruct Hin as [<-|Hin];
            [apply lit_seq_matches, lit_head2 in H; red; auto|]).
    destruct Hin.
  - intros s a [H|H] Ha; apply head2_head1 in H; rewrite H in Ha;
      now injection Ha as <-.
Qed.

Lemma closing_leads (line : string) :
  re_test CLOSING_RE line = true -> closing_head (lstrip line).
Proof.
  apply anchored_word.
  - intros st H. apply re_any_matches in H as (m & Hin & H).
    cbn [In closing_alternatives] in Hin. unfold end_then in Hin.
    repeat (destruct Hin as [<-|Hin];
            [now apply lit_seq_matches, lit_head2 in H|]).
    destruct Hin.
  - intros s a H Ha. apply head2_head1 in H. rewrite H in Ha.
    now injection Ha as <-.
Qed.

Lemma continuation_leads (line : string) :
  re_test CONTINUATION_START line = true -> head1 (lstrip line) = Some "&"%char.
Proof.
  apply (anchored_word _ (fun s => head1 s = Some "&"%char)).
  - intros st H. now apply lit_matches, lit_head1 in H.
  - intros s a H Ha. rewrite H in Ha. now injection Ha as <-.
Qed.

Lemma comment_leads (line : string) :
  re_test COMMENT_RE line = true -> head1 (lstrip line) = Some "!"%char.
Proof.
  apply (anchored_word _ (fun s => head1 s = Some "!"%char)).
  - intros st H. now apply lit_matches, lit_head1 in H.
  - intros s a H Ha. rewrite H in Ha. now injection Ha as <-.
Qed.

Lemma lstrip_rstrip (s : string) :
  lstrip (rstrip_class is_space s) = rstrip_class is_space (lstrip s).
Proof.
  induction s as [|c s IH]; [reflexivity|].
  cbn [lstrip rstrip_class]. destruct (is_space c) eqn:E.
  - rewrite <- IH. destruct (rstrip_class is_space s) as [|d u]; [reflexivity|].
    cbn [lstrip]. now rewrite E.
  - cbn [rstrip_class].
    destruct (rstrip_class is_space s) as [|d u]; rewrite ?E; cbn [lstrip];
      now rewrite E.
Qed.

(** A line with a character that is no white space is not blank. *)
Lemma strip_not_blank (s : string) (a : ascii) :
  head1 (lstrip s) = Some a -> strip s <> ""%string.
Proof.
  unfold strip. rewrite lstrip_rstrip.
  destruct (lstrip s) as [|c t] eqn:E; [discriminate|]. intros _.
  assert (Hc : is_space c = false).
  { destruct (is_space c) eqn:Hc; [|reflexivity].
    pose proof (lstrip_idem s) as Hi. rewrite E in Hi.
    cbn [lstrip] in Hi. rewrite Hc in Hi.
    assert (Hlen : forall u, String.length (lstrip u) <= String.length u).
    { induction u as [|x u IHu]; cbn [lstrip]; [lia|].
      destruct (is_space x); simpl; lia. }
    specialize (Hlen t). rewrite Hi in Hlen. simpl in Hlen. lia. }
  cbn [rstrip_class]. destruct (rstrip_class is_space t); [|discriminate].
  now rewrite Hc.
Qed.

End KeywordFacts.

Section KeywordTheorems.
Import Text Regex Lookaround Indent StripFacts IndentFacts KeywordFacts.

(** X19.  A line that starts with [else], [elseif], [else if] or
    [case] is put out one level to the left (at level 0 when there is
    none to the left), and the level after it is one more than that:
    met at level 0, such a line raises the nesting to 1. *)
Theorem middle_dedent_level (indent_size : Z) (st : Formatter)
  (raw : string) :
  re_test MIDDLE_DEDENT_RE (line_of raw) = true ->
  let level := Z.max (indent_level st - 1) 0 in
  out (format_line indent_size st raw)
  = out st ++ [(spaces (level * indent_size) ++ strip (line_of raw))%string] /\
  indent_level (format_line indent_size st raw) = (level + 1)%Z.
Proof.
  intros Hm level.
  pose proof (middle_leads _ Hm) as Hh.
  assert (H1 : exists a, head1 (lstrip (line_of raw)) = Some a /\
                         (a = "e" \/ a = "c")%char).
  { destruct Hh as [H|H]; apply head2_head1 in H; eauto. }
  destruct H1 as (a & Ha & Hae).
  assert (Hblank : String.eqb (strip (line_of raw)) "" = false)
    by (apply String.eqb_neq; now apply (strip_not_blank _ a)).
  assert (Hcont : re_test CONTINUATION_START (line_of raw) = false).
  { destruct (re_test CONTINUATION_START (line_of raw)) eqn:E; [|reflexivity].
    apply continuation_leads in E. rewrite Ha in E.
    destruct Hae as [-> | ->]; discriminate. }
  assert (Hcomm : re_test COMMENT_RE (line_of raw) = false).
  { destruct (re_test COMMENT_RE (line_of raw)) eqn:E; [|reflexivity].
    apply comment_leads in E. rewrite Ha in E.
    destruct Hae as [-> | ->]; discriminate. }
  assert (Hclose : re_test CLOSING_RE (line_of raw) = false).
  { destruct (re_test CLOSING_RE (line_of raw)) eqn:E; [|reflexivity].
    apply closing_leads in E. red in E.
    destruct Hh as [H|H]; rewrite H in E; discriminate. }
  unfold format_line. fold (line_of raw).
  rewrite Hblank, Hcont, Hcomm, Hm, Hclose. cbn [negb andb].
  rewrite andb_false_r. cbn [out indent_level]. now split.
Qed.

Lemma middle_dedent_level_witness :
  indent_level (format_line 4 (mkFormatter [] 0 false) "else") = 1%Z.
Proof.
  apply (middle_dedent_level 4 (mkFormatter [] 0 false) "else").
  reflexivity.
Defined.

End KeywordTheorems.

(* ================================================================= *)
(** ** The bound on the rounds of a repeated group *)

Module ManyFacts.
Import Text Regex Lookaround Indent RegexFacts.

Lemma tame_steady (m : matcher) : tame m -> steady m.
Proof. intros H st st' Hin. apply suffix_length, (H _ _ Hin). Qed.

Lemma steady_seq (m1 m2 : matcher) :
  steady m1 -> steady m2 -> steady (re_seq m1 m2).
Proof.
  intros H1 H2 st st' H. apply in_re_seq in H as (s1 & Ha & Hb).
  specialize (H1 _ _ Ha). specialize (H2 _ _ Hb). lia.
Qed.

Lemma consuming_seq (m1 m2 : matcher) :
  consuming m1 -> steady m2 -> consuming (re_seq m1 m2).
Proof.
  intros H1 H2 st st' H. apply in_re_seq in H as (s1 & Ha & Hb).
  specialize (H1 _ _ Ha). specialize (H2 _ _ Hb). lia.
Qed.

Lemma consuming_char (p : ascii -> bool) : consuming (re_char p).
Proof.
  intros st st'. unfold re_char. destruct (rest st) as [|c s]; [easy|].
  destruct (p c); [|easy]. intros [<-|[]]. simpl. lia.
Qed.

(** The group that [function] may follow takes a character in each
    round. *)
Lemma consuming_prefix :
  consuming (LABEL ;;
             re_opt (re_star is_space ;; re_lit "(" ;;
                     re_star (is_not ")") ;; re_lit ")") ;;
             re_plus is_space)%re.
Proof.
  unfold LABEL. apply consuming_seq.
  - apply consuming_seq; [apply consuming_char|].
    apply tame_steady, tame_star.
  - apply tame_steady, tame_seq; [|apply tame_plus].
    apply tame_opt. repeat apply tame_seq;
      auto using tame_star, tame_lit.
Qed.

(** More rounds than there are characters change nothing. *)
Lemma many_from_enough (m : matcher) (n k : nat) (st : state) :
  consuming m -> String.length (rest st) <= n ->
  many_from (n + k) m st = many_from n m st.
Proof.
  intros Hm. revert st. induction n as [|n IH]; intros st Hn.
  - assert (E : m st = []).
    { destruct (m st) as [|x l] eqn:E; [reflexivity|].
      assert (Hx : In x (m st)) by (rewrite E; now left).
      apply Hm in Hx. lia. }
    destruct k; cbn [many_from Nat.add]; [reflexivity|]. now rewrite E.
  - cbn [many_from Nat.add]. f_equal.
    assert (H : forall st', In st' (m st) ->
                            String.length (rest st') <= n)
      by (intros st' Hin; apply Hm in Hin; lia).
    induction (m st) as [|x l IHl]; [reflexivity|]. cbn [flat_map].
    rewrite IH by (apply H; now left).
    rewrite IHl; [reflexivity|]. intros st' Hin. apply H. now right.
Qed.

(** So the rounds that [re_many] allows to that group are all there
    are. *)
Lemma function_prefix_rounds (k : nat) (st : state) :
  let body := (LABEL ;;
               re_opt (re_star is_space ;; re_lit "(" ;;
                       re_star (is_not ")") ;; re_lit ")") ;;
               re_plus is_space)%re in
  many_from (String.length (rest st) + k) body st = re_many body st.
Proof.
  intros body. unfold re_many.
  apply many_from_enough; [apply consuming_prefix|lia].
Qed.

End ManyFacts.

(* ================================================================= *)
(** ** Files the formatter leaves alone *)

Module FileFacts.
Import Text Regex Lookaround Indent IndentFile StripFacts IndentFacts.

Lemma lines_eqb_eq (a b : list string) : lines_eqb a b = true <-> a = b.
Proof.
  revert b. induction a as [|x a IH]; intros [|y b]; cbn [lines_eqb];
    try easy.
  rewrite andb_true_iff, String.eqb_eq, IH. split.
  - now intros (-> & ->).
  - now intros [= -> ->].
Qed.

Lemma append_nil_r (s : string) : (s ++ "")%string = s.
Proof. induction s as [|c s IH]; simpl; congruence. Qed.

Lemma concat_cons (x : string) (xs : list string) :
  String.concat "" (x :: xs) = (x ++ String.concat "" xs)%string.
Proof.
  destruct xs as [|y ys]; cbn [String.concat append];
    [now rewrite append_nil_r|reflexivity].
Qed.

(** Joining the lines with their boundaries gives the text back. *)
Lemma concat_splitlines_keepends_aux (n : nat) (cur : string) (pending : bool)
  (s : string) :
  String.length s <= n -> (pending = true \/ cur = ""%string) ->
  String.concat "" (splitlines_keepends_aux cur pending s)
  = (cur ++ s)%string.
Proof.
  revert cur pending s.
  induction n as [|n IH]; intros cur pending [|c s] Hn Hp;
    simpl in Hn; try lia.
  - cbn [splitlines_keepends_aux]. rewrite append_nil_r.
    destruct pending; [reflexivity|]. now destruct Hp as [? | ->].
  - cbn [splitlines_keepends_aux]. rewrite append_nil_r.
    destruct pending; [reflexivity|]. now destruct Hp as [? | ->].
  - cbn [splitlines_keepends_aux].
    assert (Hjoin : forall l tail,
               String.length tail <= n ->
               String.concat "" (l :: splitlines_keepends_aux "" false tail)
               = (l ++ tail)%string).
    { intros l tail Ht. rewrite concat_cons.
      now rewrite (IH ""%string false tail Ht (or_intror eq_refl)). }
    destruct (is_linebreak c).
    + destruct s as [|d s'].
      * rewrite (Hjoin _ ""%string) by (simpl; lia).
        now rewrite append_nil_r.
      * destruct (Ascii.eqb c "013" && Ascii.eqb d "010")%bool.
        -- rewrite (Hjoin _ s') by (simpl in Hn; lia).
           now rewrite <- !append_assoc.
        -- rewrite (Hjoin _ (String d s')) by lia.
           now rewrite <- !append_assoc.
    + rewrite IH by (auto; lia). now rewrite <- append_assoc.
Qed.

Lemma concat_splitlines_keepends (text : string) :
  String.concat "" (splitlines_keepends text) = text.
Proof.
  apply (concat_splitlines_keepends_aux (String.length text) ""%string false);
    auto.
Qed.

Lemma concat_ends_with_newline (lines : list string) :
  Forall ends_with_newline lines ->
  String.concat "" lines = ""%string
  \/ ends_with_newline (String.concat "" lines).
Proof.
  induction 1 as [|l lines (body & ->) _ IH]; [now left|]. right.
  rewrite concat_cons. destruct IH as [E|(b & E)]; rewrite E.
  - exists body. now rewrite append_nil_r.
  - exists ((body ++ String "010" "") ++ b)%string.
    now rewrite <- !append_assoc.
Qed.

Lemma Forall2_diag {A} (P : A -> A -> Prop) (l : list A) :
  Forall2 P l l -> Forall (fun x => P x x) l.
Proof.
  induction l as [|x l IH]; intros H; [constructor|].
  inversion H; subst. constructor; auto.
Qed.

Lemma fixed_lines (lines : list string) (n : Z) :
  format_lines lines n = lines ->
  Forall (fun l => exists k, (0 <= k)%Z /\
                             l = (emitted_at n k l ++ String "010" "")%string)
         lines.
Proof.
  intros E. pose proof (format_lines_emits lines n) as H.
  rewrite E in H. now apply Forall2_diag in H.
Qed.

End FileFacts.

Section FileTheorems.
Import Examples.
Import Text Regex Lookaround Indent IndentFile StripFacts IndentFacts FileFacts.

(** X20.  [format_file] answers [No changes] only for a text that is
    empty or ends with a line feed, and whose every line is already
    what [format_lines] puts out for it: its stripped text after the
    spaces of some level, then one line feed (so no other white space
    at its end). *)
Theorem no_changes_only_if (text : string) (indent_size : Z) :
  no_changes text indent_size = true ->
  (text = ""%string \/ ends_with_newline text) /\
  Forall (fun l => exists k, (0 <= k)%Z /\
                     l = (emitted_at indent_size k l ++ String "010" "")%string)
         (splitlines_keepends text).
Proof.
  unfold no_changes. intros H. apply lines_eqb_eq in H. symmetry in H.
  apply fixed_lines in H. split; [|exact H].
  rewrite <- (concat_splitlines_keepends text) at 1 2.
  apply concat_ends_with_newline.
  eapply Forall_impl; [|exact H].
  intros l (k & _ & E). now exists (emitted_at indent_size k l).
Qed.

Lemma no_changes_only_if_witness :
  Forall (fun l => exists k, (0 <= k)%Z /\
                     l = (emitted_at 4 k l ++ String "010" "")%string)
         (splitlines_keepends (text ["do i = 1, n"; "    x = i"; "end do"; ""])).
Proof.
  apply (no_changes_only_if
           (text ["do i = 1, n"; "    x = i"; "end do"; ""]) 4).
  reflexivity.
Defined.

End FileTheorems.

(* ================================================================= *)
(** ** The formatter at its edges *)

Module EdgeFacts.
Import Text Regex Lookaround Indent StripFacts IndentFacts KeywordFacts.

Lemma spaces_none (n : Z) : (n <= 0)%Z -> spaces n = ""%string.
Proof.
  intros H. unfold spaces. now replace (Z.to_nat n) with 0 by lia.
Qed.

Lemma emitted_at_flat (n k : Z) (raw : string) :
  (n <= 0)%Z -> (0 <= k)%Z -> emitted_at n k raw = strip raw.
Proof.
  intros Hn Hk. unfold emitted_at.
  rewrite <- (strip_rstrip_newline raw). fold (line_of raw).
  destruct (String.eqb_spec (strip (line_of raw)) "") as [E|_];
    [now rewrite E|].
  rewrite spaces_none by nia. reflexivity.
Qed.

Lemma Forall2_map_eq {A B} (f : A -> B) (l : list A) (l' : list B) :
  Forall2 (fun a b => b = f a) l l' -> l' = map f l.
Proof. induction 1; cbn [map]; congruence. Qed.

(** A line that [CLOSING_RE] matches is none of the other kinds. *)
Lemma closing_only (line : string) :
  re_test CLOSING_RE line = true ->
  String.eqb (strip line) "" = false /\
  re_test CONTINUATION_START line = false /\
  re_test COMMENT_RE line = false /\
  re_test MIDDLE_DEDENT_RE line = false.
Proof.
  intros Hc. pose proof (closing_leads _ Hc) as Hh. red in Hh.
  pose proof (head2_head1 _ _ _ Hh) as Ha.
  split; [apply String.eqb_neq; now apply (strip_not_blank _ "e"%char)|].
  split; [|split].
  - destruct (re_test CONTINUATION_START line) eqn:E; [|reflexivity].
    apply continuation_leads in E. rewrite Ha in E. discriminate.
  - destruct (re_test COMMENT_RE line) eqn:E; [|reflexivity].
    apply comment_leads in E. rewrite Ha in E. discriminate.
  - destruct (re_test MIDDLE_DEDENT_RE line) eqn:E; [|reflexivity].
    apply middle_leads in E. destruct E as [E|E]; rewrite Hh in E;
      discriminate.
Qed.

End EdgeFacts.

Section EdgeTheorems.
Import Text Regex Lookaround Indent StripFacts IndentFacts KeywordFacts.
Import EdgeFacts Examples.

(** X21.  A line that closes a block, and that opens none or holds the
    word [end], is put out one level to the left and leaves the level
    there; at level 0 it is put out at level 0 and the level stays 0:
    the nesting never becomes negative. *)
Theorem closing_level (indent_size : Z) (st : Formatter) (raw : string) :
  re_test CLOSING_RE (line_of raw) = true ->
  re_test OPENING_RE (line_of raw) = false
  \/ re_search END_WORD (line_of raw) = true ->
  let level := Z.max (indent_level st - 1) 0 in
  out (format_line indent_size st raw)
  = out st ++ [(spaces (level * indent_size) ++ strip (line_of raw))%string] /\
  indent_level (format_line indent_size st raw) = level.
Proof.
  intros Hc Hopen level.
  destruct (closing_only _ Hc) as (Hblank & Hcont & Hcomm & Hmid).
  unfold format_line. fold (line_of raw).
  rewrite Hblank, Hcont, Hcomm, Hmid, Hc. cbn [negb andb].
  assert (E : re_test OPENING_RE (line_of raw) && true
              && negb (re_search END_WORD (line_of raw)
                       || re_search ENDIF_WORD (line_of raw)) = false).
  { destruct Hopen as [-> | ->]; [reflexivity|]. cbn [orb negb].
    now rewrite andb_false_r. }
  rewrite E. cbn [out indent_level]. now split.
Qed.

Lemma closing_level_witness :
  indent_level (format_line 4 (mkFormatter [] 0 false) "end do") = 0%Z.
Proof.
  apply (closing_level 4 (mkFormatter [] 0 false) "end do").
  - reflexivity.
  - right. reflexivity.
Defined.

(** X22.  With an indent size of 0, or a negative one, [format_lines]
    only strips: every line becomes its stripped text and a line
    feed. *)
Theorem flat_indent_only_strips (lines : list string) (indent_size : Z) :
  (indent_size <= 0)%Z ->
  format_lines lines indent_size
  = map (fun raw => (strip raw ++ String "010" "")%string) lines.
Proof.
  intros Hn. apply Forall2_map_eq.
  eapply Forall2_impl; [|apply format_lines_emits].
  intros raw o (k & Hk & ->). now rewrite (emitted_at_flat _ _ _ Hn Hk).
Qed.

Lemma flat_indent_only_strips_witness :
  format_lines ["do i = 1, n"; "   x = i  "; "end do"] 0
  = map (fun raw => (raw ++ nl)%string) ["do i = 1, n"; "x = i"; "end do"].
Proof.
  rewrite (flat_indent_only_strips ["do i = 1, n"; "   x = i  "; "end do"] 0);
    [reflexivity|lia].
Defined.

End EdgeTheorems.
